(** * CameraCalibrationDatabase: the camera-calibration interpolation grid

    A shallow embedding of the class [CameraCalibrationDatabase] (namespace
    StandardizedDiffuseAlbedoMaps) and of its nested class [GridNode]:
    the grid construction done by the [DatabasePath] setter,
    [PrepareCalibrationFor], [IsPreparedFor], [Calibrate] and
    [FindStartNode].

    Conventions of the embedding.
    - A C# [float] is idealised as an exact rational ([Q]); equality of
      computed values is [Qeq] ([==]).  Rounding is therefore not modelled,
      and neither are the infinities and NaN.  The literals are the
      binary32 numbers the compiler makes of them: [1e-6f] is
      [float_1em6], [float.MaxValue] is [float_MaxValue].
    - [Math.Log] is a platform function and is a parameter [Log] of the
      development.  It stands for [Math.Log] on positive arguments only:
      on zero [Math.Log] is minus infinity and on a negative number NaN,
      which [Q] does not have.  What is said of EVs and of interpolated
      luminances is therefore said of positive shot values
      ([positive_shot]), and where the outcome of the construction depends
      on distances being finite, that is a hypothesis
      ([finite_EV_distances]).  [Math.Abs], [Math.Max], [Math.Min] are
      [Qabs], [Qmax], [Qmin].
    - [GridNode] objects live in an arena ([list GridNode]); a reference to
      a node is its index, [null] is [None].  Allocation appends to the
      arena, mutation of a node is a list update at its index.
    - A method that can throw returns a [Result]; a property setter or a
      method that mutates the database returns the database after the call
      together with the outcome, since a C# exception leaves the fields
      written so far in place.
    - Loops are recursive functions on a fuel; that the fuel given is
      enough is proved where a result is claimed.

    The theorems are stated for a database object on which [DatabasePath]
    is set once ([load]); the closed examples run the model with
    [Log_dyadic] in place of [Math.Log], on calibration files whose EVs
    are integers.

    Three more parts of the code follow the database, each in a module of
    its own: [Dictionary], the hash table with [U32] keys of
    Hashtable.inl; [RendererManaged], the vectors and the matrix
    [float4x4] of RendererManaged.h; [half], its 16-bit float. *)

From Stdlib Require Import QArith Qabs Qminmax Lia Lqa String.
From stdpp Require Import base list.

Open Scope Q_scope.

(** ** Outcomes *)

(** The exceptions of the class (all are plain [Exception]s told apart by
    their message) and the two the runtime raises on a null dereference and
    on an array index out of range. *)
Inductive Exn : Type :=
| PathDoesNotExist   (* "Provided database path doesn't exist!" *)
| DuplicateNeighbor  (* "Grid node already has a neighbor!" *)
| GraphNotBuilt      (* "Calibration grid hasn't been built: ..." *)
| NotPrepared        (* "Calibration grid hasn't been prepared for calibration: ..." *)
| NullReference      (* System.NullReferenceException *)
| IndexOutOfRange.   (* System.IndexOutOfRangeException *)

(** [Stuck] has no C# counterpart: an index outside the arena, or a loop
    that used up its fuel (the C# loop would not terminate). *)
Inductive Result (A : Type) : Type :=
| Ok (a : A)
| Throw (e : Exn)
| Stuck.
Arguments Ok {A} a.
Arguments Throw {A} e.
Arguments Stuck {A}.

Definition bind {A B : Type} (c : Result A) (k : A -> Result B) : Result B :=
  match c with
  | Ok a => k a
  | Throw e => Throw e
  | Stuck => Stuck
  end.

Notation "'letR' x ':=' c 'in' k" := (bind c (fun x => k))
  (at level 10, x name, c at level 100, k at level 200).

(** ** Comparisons on floats *)

Definition Qlt_bool (a b : Q) : bool := negb (Qle_bool b a).

(** ** Data *)

Definition REQUIRED_PROBES_COUNT : nat := 6.

Record CameraShotInfos : Type := {
  m_ISOSpeed : Q;
  m_ShutterSpeed : Q;
  m_Aperture : Q
}.

Record Probe : Type := { m_LuminanceMeasured : Q }.

(** The part of class [CameraCalibration] the database reads. *)
Record CameraCalibration : Type := {
  m_CameraShotInfos : CameraShotInfos;
  m_Reflectances : list Probe
}.

(** A reference to a [GridNode]: its index in the arena. *)
Abbreviation ref := nat.

(** [new GridNode[2]]: a two-element array of references, read and written
    at index 0 ("previous") or 1 ("next"). *)
Record Neighbors : Type := { slot0 : option ref; slot1 : option ref }.

Definition no_neighbors : Neighbors := {| slot0 := None; slot1 := None |}.

Definition get_slot (a : Neighbors) (i : nat) : option ref :=
  match i with
  | O => slot0 a
  | S _ => slot1 a
  end.

Definition set_slot (a : Neighbors) (i : nat) (v : option ref) : Neighbors :=
  match i with
  | O => {| slot0 := v; slot1 := slot1 a |}
  | S _ => {| slot0 := slot0 a; slot1 := v |}
  end.

Inductive Axis : Type := AxisX | AxisY | AxisZ.

#[global] Instance Axis_eq_dec : EqDecision Axis.
Proof. solve_decision. Defined.

Record GridNode : Type := {
  m_CameraCalibration : CameraCalibration;
  m_EV_ISOSpeed : Q;
  m_EV_ShutterSpeed : Q;
  m_EV_Aperture : Q;
  m_NeighborX : Neighbors;
  m_NeighborY : Neighbors;
  m_NeighborZ : Neighbors
}.

Definition Neighbor (n : GridNode) (a : Axis) : Neighbors :=
  match a with
  | AxisX => m_NeighborX n
  | AxisY => m_NeighborY n
  | AxisZ => m_NeighborZ n
  end.

(** [n.m_Neighbor<a>[i] = v]. *)
Definition set_Neighbor (n : GridNode) (a : Axis) (i : nat) (v : option ref)
  : GridNode :=
  match a with
  | AxisX =>
      {| m_CameraCalibration := m_CameraCalibration n;
         m_EV_ISOSpeed := m_EV_ISOSpeed n;
         m_EV_ShutterSpeed := m_EV_ShutterSpeed n;
         m_EV_Aperture := m_EV_Aperture n;
         m_NeighborX := set_slot (m_NeighborX n) i v;
         m_NeighborY := m_NeighborY n;
         m_NeighborZ := m_NeighborZ n |}
  | AxisY =>
      {| m_CameraCalibration := m_CameraCalibration n;
         m_EV_ISOSpeed := m_EV_ISOSpeed n;
         m_EV_ShutterSpeed := m_EV_ShutterSpeed n;
         m_EV_Aperture := m_EV_Aperture n;
         m_NeighborX := m_NeighborX n;
         m_NeighborY := set_slot (m_NeighborY n) i v;
         m_NeighborZ := m_NeighborZ n |}
  | AxisZ =>
      {| m_CameraCalibration := m_CameraCalibration n;
         m_EV_ISOSpeed := m_EV_ISOSpeed n;
         m_EV_ShutterSpeed := m_EV_ShutterSpeed n;
         m_EV_Aperture := m_EV_Aperture n;
         m_NeighborX := m_NeighborX n;
         m_NeighborY := m_NeighborY n;
         m_NeighborZ := set_slot (m_NeighborZ n) i v |}
  end.

(** The EV coordinate of a node on an axis: X is ISO speed, Y is shutter
    speed, Z is aperture. *)
Definition EV_on (a : Axis) (n : GridNode) : Q :=
  match a with
  | AxisX => m_EV_ISOSpeed n
  | AxisY => m_EV_ShutterSpeed n
  | AxisZ => m_EV_Aperture n
  end.

Abbreviation Heap := (list GridNode).

Definition deref (heap : Heap) (r : ref) : Result GridNode :=
  match heap !! r with
  | Some n => Ok n
  | None => Stuck
  end.

(** [System.IO.DirectoryInfo], as far as the setter looks at it: whether
    the directory exists and the calibrations its "*.xml" files parse to
    (a file that fails to parse only adds a line to the error log). *)
Record DirectoryInfo : Type := {
  Exists : bool;
  GetFiles : list CameraCalibration
}.

(** The fields of [CameraCalibrationDatabase], and the arena of the
    [GridNode]s it has allocated.  [m_InterpolatedCalibration] keeps the
    six [m_LuminanceMeasured] that [PrepareCalibrationFor] writes. *)
Record Database : Type := {
  m_DatabasePath : option DirectoryInfo;
  m_ErrorLog : list string;
  m_CameraClibrations : list CameraCalibration;
  m_RootNode : option ref;
  m_PreparedForISOSpeed : Q;
  m_PreparedForShutterSpeed : Q;
  m_PreparedForAperture : Q;
  m_InterpolatedCalibration : option (list Q);
  m_Heap : Heap
}.

(** The field initialisers. *)
Definition new_CameraCalibrationDatabase : Database := {|
  m_DatabasePath := None;
  m_ErrorLog := [];
  m_CameraClibrations := [];
  m_RootNode := None;
  m_PreparedForISOSpeed := 0;
  m_PreparedForShutterSpeed := 0;
  m_PreparedForAperture := 0;
  m_InterpolatedCalibration := None;
  m_Heap := []
|}.

Record float4 : Type := { x4 : Q; y4 : Q; z4 : Q; w4 : Q }.
Record float2 : Type := { x2 : Q; y2 : Q }.

(** [GridNode[2,2,2]], indexed [Grid[x,y,z]]. *)
Record Grid : Type := {
  G000 : ref; G100 : ref; G010 : ref; G001 : ref;
  G110 : ref; G011 : ref; G101 : ref; G111 : ref
}.

(** [List<T>.Remove]: removes the first occurrence. *)
Fixpoint Remove (x : ref) (l : list ref) : list ref :=
  match l with
  | [] => []
  | y :: l' => if Nat.eqb y x then l' else y :: Remove x l'
  end.

(** The choice of axis and slot of lines 1144-1176, on the three deltas
    (placed minus unplaced). *)
Definition ChooseAxis (DeltaX DeltaY DeltaZ : Q) : Axis * nat :=
  if Qlt_bool (Qabs DeltaY) (Qabs DeltaX) then
    if Qlt_bool (Qabs DeltaZ) (Qabs DeltaX) then
      (AxisX, if Qlt_bool DeltaX 0 then 0%nat else 1%nat)
    else
      (AxisZ, if Qlt_bool DeltaZ 0 then 0%nat else 1%nat)
  else
    if Qlt_bool (Qabs DeltaZ) (Qabs DeltaY) then
      (AxisY, if Qlt_bool DeltaY 0 then 0%nat else 1%nat)
    else
      (AxisZ, if Qlt_bool DeltaZ 0 then 0%nat else 1%nat).

(** The literal [1e-6f]: the binary32 number nearest to [1e-6], which is
    [8796093 * 2^-43]. *)
Definition float_1em6 : Q := 8796093 # 8796093022208.

(** [float.MaxValue]: [(2^24 - 1) * 2^104]. *)
Definition float_MaxValue : Q := 340282346638528859811704183484516925440.

(** [Math.Max( 0.0f, Math.Min( 1.0f, (t - lo) / Math.Max( 1e-6f, hi - lo ) ) )] *)
Definition Interpolant (t lo hi : Q) : Q :=
  Qmax 0 (Qmin 1 ((t - lo) / Qmax float_1em6 (hi - lo))).

(** The property [GridNode.EV]. *)
Definition EV (n : GridNode) : Q :=
  m_EV_ISOSpeed n + m_EV_ShutterSpeed n + m_EV_Aperture n.

(** [this.SqDistance( _Node )] *)
Definition SqDistance (this _Node : GridNode) : Q :=
  let Delta_ISOSpeed := m_EV_ISOSpeed _Node - m_EV_ISOSpeed this in
  let Delta_ShutterSpeed := m_EV_ShutterSpeed _Node - m_EV_ShutterSpeed this in
  let Delta_Aperture := m_EV_Aperture _Node - m_EV_Aperture this in
  Delta_ISOSpeed * Delta_ISOSpeed + Delta_ShutterSpeed * Delta_ShutterSpeed
  + Delta_Aperture * Delta_Aperture.

(** ** Construction of the grid *)

(** The state of the nearest-pair scan: [None] is the initial
    [BestPairSqDistance = float.MaxValue] with both pair nodes [null]. *)
Definition BestPair : Type := option (Q * ref * ref).

(** [SqDistance < BestPairSqDistance]: against [float.MaxValue] as long
    as no pair was found, against the squared distance of the best pair
    afterwards. *)
Definition closer (SqDistance : Q) (Best : BestPair) : bool :=
  match Best with
  | None => Qlt_bool SqDistance float_MaxValue
  | Some (BestPairSqDistance, _, _) => Qlt_bool SqDistance BestPairSqDistance
  end.

(** [foreach ( GridNode NodeUnPlaced in GridNodes )] for one placed node. *)
Fixpoint ScanUnPlaced (heap : Heap) (NodePlaced : ref) (GridNodes : list ref)
    (Best : BestPair) : Result BestPair :=
  match GridNodes with
  | [] => Ok Best
  | NodeUnPlaced :: rest =>
      letR P := deref heap NodePlaced in
      letR U := deref heap NodeUnPlaced in
      let SqDistance := SqDistance P U in
      ScanUnPlaced heap NodePlaced rest
        (if closer SqDistance Best
         then Some (SqDistance, NodePlaced, NodeUnPlaced)
         else Best)
  end.

(** [foreach ( GridNode NodePlaced in PlacedNodes )] *)
Fixpoint ScanPlaced (heap : Heap) (PlacedNodes GridNodes : list ref)
    (Best : BestPair) : Result BestPair :=
  match PlacedNodes with
  | [] => Ok Best
  | NodePlaced :: rest =>
      letR Best' := ScanUnPlaced heap NodePlaced GridNodes Best in
      ScanPlaced heap rest GridNodes Best'
  end.

(** One turn of [while ( GridNodes.Count > 0 )]: the heap and the list of
    unplaced nodes after it.  [PlacedNodes] is not written by the loop
    body. *)
Definition PlaceStep (heap : Heap) (PlacedNodes GridNodes : list ref)
  : Result (Heap * list ref) :=
  letR Best := ScanPlaced heap PlacedNodes GridNodes None in
  match Best with
  | None => Throw NullReference
  | Some (_, PairPlaced, PairUnPlaced) =>
      letR P := deref heap PairPlaced in
      letR U := deref heap PairUnPlaced in
      let DeltaX := m_EV_ISOSpeed P - m_EV_ISOSpeed U in
      let DeltaY := m_EV_ShutterSpeed P - m_EV_ShutterSpeed U in
      let DeltaZ := m_EV_Aperture P - m_EV_Aperture U in
      let '(axis, LeftRight) := ChooseAxis DeltaX DeltaY DeltaZ in
      match get_slot (Neighbor P axis) LeftRight with
      | Some _ => Throw DuplicateNeighbor
      | None =>
          let heap1 :=
            <[PairPlaced := set_Neighbor P axis LeftRight (Some PairUnPlaced)]> heap in
          letR U1 := deref heap1 PairUnPlaced in
          let heap2 :=
            <[PairUnPlaced :=
                set_Neighbor U1 axis (1 - LeftRight) (Some PairPlaced)]> heap1 in
          Ok (heap2, Remove PairUnPlaced GridNodes)
      end
  end.

(** [while ( GridNodes.Count > 0 ) { ... }]: the heap when the loop is
    left, and how it is left.  A turn that does not throw takes one node
    off [GridNodes], so [length GridNodes] turns are enough fuel. *)
Fixpoint BuildLoop (fuel : nat) (heap : Heap) (PlacedNodes GridNodes : list ref)
  : Heap * Result unit :=
  match GridNodes with
  | [] => (heap, Ok tt)
  | _ :: _ =>
      match fuel with
      | O => (heap, Stuck)
      | S fuel' =>
          match PlaceStep heap PlacedNodes GridNodes with
          | Ok (heap', GridNodes') => BuildLoop fuel' heap' PlacedNodes GridNodes'
          | Throw e => (heap, Throw e)
          | Stuck => (heap, Stuck)
          end
      end
  end.

(** ** The database *)

(** The locals and fields the loop over the calibration files writes. *)
Record LoadState : Type := {
  ld_RootNode : option ref;
  ld_ErrorLog : list string;
  ld_CameraCalibrations : list CameraCalibration;
  ld_GridNodes : list ref;
  ld_Heap : Heap
}.

Definition with_PreparedFor (db : Database) (iso shutter aperture : Q)
    (interpolated : option (list Q)) : Database :=
  {| m_DatabasePath := m_DatabasePath db;
     m_ErrorLog := m_ErrorLog db;
     m_CameraClibrations := m_CameraClibrations db;
     m_RootNode := m_RootNode db;
     m_PreparedForISOSpeed := iso;
     m_PreparedForShutterSpeed := shutter;
     m_PreparedForAperture := aperture;
     m_InterpolatedCalibration := interpolated;
     m_Heap := m_Heap db |}.

Definition with_DatabasePath (db : Database) (value : option DirectoryInfo)
  : Database :=
  {| m_DatabasePath := value;
     m_ErrorLog := m_ErrorLog db;
     m_CameraClibrations := m_CameraClibrations db;
     m_RootNode := m_RootNode db;
     m_PreparedForISOSpeed := m_PreparedForISOSpeed db;
     m_PreparedForShutterSpeed := m_PreparedForShutterSpeed db;
     m_PreparedForAperture := m_PreparedForAperture db;
     m_InterpolatedCalibration := m_InterpolatedCalibration db;
     m_Heap := m_Heap db |}.

Definition with_Loaded (db : Database) (root : option ref) (log : list string)
    (calibrations : list CameraCalibration) (heap : Heap) : Database :=
  {| m_DatabasePath := m_DatabasePath db;
     m_ErrorLog := log;
     m_CameraClibrations := calibrations;
     m_RootNode := root;
     m_PreparedForISOSpeed := m_PreparedForISOSpeed db;
     m_PreparedForShutterSpeed := m_PreparedForShutterSpeed db;
     m_PreparedForAperture := m_PreparedForAperture db;
     m_InterpolatedCalibration := m_InterpolatedCalibration db;
     m_Heap := heap |}.

(** "Clean up existing database": the arena is left alone, its nodes are
    no longer referenced. *)
Definition CleanUp (db : Database) : Database :=
  with_Loaded (with_PreparedFor db 0 0 0 None) None [] [] (m_Heap db).

Section Model.
(** [Math.Log]. *)
Variable Log : Q -> Q.
(** [CameraCalibration.Calibrate] of the interpolated calibration, given
    its six luminances. *)
Variable CameraCalibration_Calibrate : list Q -> Q -> Q.

(** [GridNode.Convert2EV].  The three arguments are meant positive: for an
    argument that is zero or negative the code computes an infinite EV or
    NaN, of which [Log] gives no account. *)
Definition Convert2EV (_ISOSpeed _ShutterSpeed _Aperture : Q) : Q * Q * Q :=
  (Log (_ISOSpeed / 100) / Log 2,
   Log _ShutterSpeed / Log 2,
   - Log _Aperture / Log 2).

(** The constructor [GridNode( CameraCalibration )]. *)
Definition new_GridNode (_CameraCalibration : CameraCalibration) : GridNode :=
  let '(ev_iso, ev_shutter, ev_aperture) :=
    Convert2EV (m_ISOSpeed (m_CameraShotInfos _CameraCalibration))
               (m_ShutterSpeed (m_CameraShotInfos _CameraCalibration))
               (m_Aperture (m_CameraShotInfos _CameraCalibration)) in
  {| m_CameraCalibration := _CameraCalibration;
     m_EV_ISOSpeed := ev_iso;
     m_EV_ShutterSpeed := ev_shutter;
     m_EV_Aperture := ev_aperture;
     m_NeighborX := no_neighbors;
     m_NeighborY := no_neighbors;
     m_NeighborZ := no_neighbors |}.

(** The body of [foreach ( System.IO.FileInfo CalibrationFile in
    CalibrationFiles )] for a file that parsed to [CC]. *)
Definition LoadFile (st : LoadState) (CC : CameraCalibration)
  : Result LoadState :=
  if negb (Nat.eqb (length (m_Reflectances CC)) REQUIRED_PROBES_COUNT) then
    Ok {| ld_RootNode := ld_RootNode st;
          ld_ErrorLog :=
            ld_ErrorLog st
            ++ ["Unexpected amount of reflectance probes in calibration file!"%string];
          ld_CameraCalibrations := ld_CameraCalibrations st;
          ld_GridNodes := ld_GridNodes st;
          ld_Heap := ld_Heap st |}
  else
    let Node := length (ld_Heap st) in
    let heap := ld_Heap st ++ [new_GridNode CC] in
    letR N := deref heap Node in
    letR better :=
      match ld_RootNode st with
      | None => Ok true
      | Some root => letR R := deref heap root in Ok (Qlt_bool (EV N) (EV R))
      end in
    Ok {| ld_RootNode := if better then Some Node else ld_RootNode st;
          ld_ErrorLog := ld_ErrorLog st;
          ld_CameraCalibrations := ld_CameraCalibrations st ++ [CC];
          ld_GridNodes := ld_GridNodes st ++ [Node];
          ld_Heap := heap |}.

Fixpoint LoadFiles (st : LoadState) (CalibrationFiles : list CameraCalibration)
  : Result LoadState :=
  match CalibrationFiles with
  | [] => Ok st
  | CC :: rest => letR st' := LoadFile st CC in LoadFiles st' rest
  end.

(** The setter of the property [DatabasePath]. *)
Definition set_DatabasePath (db : Database) (value : option DirectoryInfo)
  : Database * Result unit :=
  let db := match m_DatabasePath db with
            | Some _ => CleanUp db
            | None => db
            end in
  let db := with_DatabasePath db value in
  match value with
  | None => (db, Ok tt)
  | Some dir =>
      if negb (Exists dir) then (db, Throw PathDoesNotExist) else
      match LoadFiles {| ld_RootNode := m_RootNode db;
                         ld_ErrorLog := m_ErrorLog db;
                         ld_CameraCalibrations := [];
                         ld_GridNodes := [];
                         ld_Heap := m_Heap db |} (GetFiles dir) with
      | Stuck => (db, Stuck)
      | Throw e => (db, Throw e)
      | Ok st =>
          let db := with_Loaded db (ld_RootNode st) (ld_ErrorLog st)
                      (ld_CameraCalibrations st) (ld_Heap st) in
          if Nat.eqb (length (ld_CameraCalibrations st)) 0 then
            (with_Loaded db (m_RootNode db)
               (m_ErrorLog db
                ++ ["Database is empty: no valid file could be parsed..."%string])
               (m_CameraClibrations db) (m_Heap db),
             Ok tt)
          else
            match m_RootNode db with
            | None => (db, Throw NullReference)
            | Some root =>
                let PlacedNodes := [root] in
                let GridNodes := Remove root (ld_GridNodes st) in
                let '(heap, outcome) :=
                  BuildLoop (length GridNodes) (m_Heap db) PlacedNodes GridNodes in
                (with_Loaded db (m_RootNode db) (m_ErrorLog db)
                   (m_CameraClibrations db) heap,
                 outcome)
            end
      end
  end.

(** The getter [IsValid]. *)
Definition IsValid (db : Database) : bool :=
  match m_RootNode db with
  | Some _ => true
  | None => false
  end.

(** One of the three loops of [FindStartNode], on the axis [axis]:
    [while ( Current.m_EV <= target && Current.m_Neighbor[1] != null )
       { Next = Current.m_Neighbor[1];
         if ( Next.m_EV > target ) break;
         Current = Next; }] *)
Fixpoint Walk (fuel : nat) (heap : Heap) (axis : Axis) (target : Q)
    (Current : ref) : Result ref :=
  match fuel with
  | O => Stuck
  | S fuel' =>
      letR C := deref heap Current in
      if Qle_bool (EV_on axis C) target then
        match get_slot (Neighbor C axis) 1 with
        | None => Ok Current
        | Some Next =>
            letR N := deref heap Next in
            if Qlt_bool target (EV_on axis N) then Ok Current
            else Walk fuel' heap axis target Next
        end
      else Ok Current
  end.

(** [FindStartNode].  A walk that does not come back to a node it has
    left visits at most every node once, so a walk of the C# code that
    terminates does so within [length heap] turns: [Stuck] is a walk
    that does not terminate. *)
Definition FindStartNode (db : Database) (_ISOSpeed _ShutterSpeed _Aperture : Q)
  : Result ref :=
  match m_RootNode db with
  | None => Throw NullReference
  | Some root =>
      let fuel := S (length (m_Heap db)) in
      letR Current := Walk fuel (m_Heap db) AxisX _ISOSpeed root in
      letR Current := Walk fuel (m_Heap db) AxisY _ShutterSpeed Current in
      letR Current := Walk fuel (m_Heap db) AxisZ _Aperture Current in
      Ok Current
  end.

(** [n.m_Neighbor<axis>[1] != null ? n.m_Neighbor<axis>[1] : n] *)
Definition NextOrSelf (heap : Heap) (axis : Axis) (n : ref) : Result ref :=
  letR N := deref heap n in
  match get_slot (Neighbor N axis) 1 with
  | Some next => Ok next
  | None => Ok n
  end.

(** "Build the 8 grid nodes from it" *)
Definition BuildGrid (heap : Heap) (StartNode : ref) : Result Grid :=
  letR g100 := NextOrSelf heap AxisX StartNode in
  letR g010 := NextOrSelf heap AxisY StartNode in
  letR g001 := NextOrSelf heap AxisZ StartNode in
  letR g110 := NextOrSelf heap AxisY g100 in
  letR g011 := NextOrSelf heap AxisZ g010 in
  letR g101 := NextOrSelf heap AxisX g001 in
  letR g111 := NextOrSelf heap AxisZ g110 in
  Ok {| G000 := StartNode; G100 := g100; G010 := g010; G001 := g001;
        G110 := g110; G011 := g011; G101 := g101; G111 := g111 |}.

(** The eight nodes of the cell, dereferenced. *)
Record Cell : Type := {
  N000 : GridNode; N100 : GridNode; N010 : GridNode; N001 : GridNode;
  N110 : GridNode; N011 : GridNode; N101 : GridNode; N111 : GridNode
}.

Definition deref_Grid (heap : Heap) (g : Grid) : Result Cell :=
  letR n000 := deref heap (G000 g) in
  letR n100 := deref heap (G100 g) in
  letR n010 := deref heap (G010 g) in
  letR n001 := deref heap (G001 g) in
  letR n110 := deref heap (G110 g) in
  letR n011 := deref heap (G011 g) in
  letR n101 := deref heap (G101 g) in
  letR n111 := deref heap (G111 g) in
  Ok {| N000 := n000; N100 := n100; N010 := n010; N001 := n001;
        N110 := n110; N011 := n011; N101 := n101; N111 := n111 |}.

(** The successive interpolants of the trilinear interpolation. *)
Record Interpolants : Type := { tX : float4; tY : float2; tZ : Q }.

Definition ComputeInterpolants (c : Cell) (EVx EVy EVz : Q) : Interpolants :=
  let tX := {|
    x4 := Interpolant EVx (m_EV_ISOSpeed (N000 c)) (m_EV_ISOSpeed (N100 c));
    y4 := Interpolant EVx (m_EV_ISOSpeed (N010 c)) (m_EV_ISOSpeed (N110 c));
    z4 := Interpolant EVx (m_EV_ISOSpeed (N001 c)) (m_EV_ISOSpeed (N101 c));
    w4 := Interpolant EVx (m_EV_ISOSpeed (N011 c)) (m_EV_ISOSpeed (N111 c)) |} in
  let rX := {| x4 := 1 - x4 tX; y4 := 1 - y4 tX; z4 := 1 - z4 tX; w4 := 1 - w4 tX |} in
  let ShutterSpeedsX := {|
    x4 := x4 rX * m_EV_ShutterSpeed (N000 c) + x4 tX * m_EV_ShutterSpeed (N100 c);
    y4 := y4 rX * m_EV_ShutterSpeed (N010 c) + y4 tX * m_EV_ShutterSpeed (N110 c);
    z4 := z4 rX * m_EV_ShutterSpeed (N001 c) + z4 tX * m_EV_ShutterSpeed (N101 c);
    w4 := w4 rX * m_EV_ShutterSpeed (N011 c) + w4 tX * m_EV_ShutterSpeed (N111 c) |} in
  let AperturesX := {|
    x4 := x4 rX * m_EV_Aperture (N000 c) + x4 tX * m_EV_Aperture (N100 c);
    y4 := y4 rX * m_EV_Aperture (N010 c) + y4 tX * m_EV_Aperture (N110 c);
    z4 := z4 rX * m_EV_Aperture (N001 c) + z4 tX * m_EV_Aperture (N101 c);
    w4 := w4 rX * m_EV_Aperture (N011 c) + w4 tX * m_EV_Aperture (N111 c) |} in
  let tY := {|
    x2 := Interpolant EVy (x4 ShutterSpeedsX) (y4 ShutterSpeedsX);
    y2 := Interpolant EVy (z4 ShutterSpeedsX) (w4 ShutterSpeedsX) |} in
  let rY := {| x2 := 1 - x2 tY; y2 := 1 - y2 tY |} in
  let AperturesY := {|
    x2 := x2 rY * x4 AperturesX + x2 tY * y4 AperturesX;
    y2 := y2 rY * z4 AperturesX + y2 tY * w4 AperturesX |} in
  let tZ := Interpolant EVz (x2 AperturesY) (y2 AperturesY) in
  {| tX := tX; tY := tY; tZ := tZ |}.

(** [n.m_CameraCalibration.m_Reflectances[ProbeIndex].m_LuminanceMeasured] *)
Definition LuminanceMeasured (n : GridNode) (ProbeIndex : nat) : Result Q :=
  match m_Reflectances (m_CameraCalibration n) !! ProbeIndex with
  | Some p => Ok (m_LuminanceMeasured p)
  | None => Throw IndexOutOfRange
  end.

(** The body of [for ( int ProbeIndex=0; ... )]: the luminance written to
    the target probe. *)
Definition InterpolateProbe (c : Cell) (t : Interpolants) (ProbeIndex : nat)
  : Result Q :=
  let rXx := 1 - x4 (tX t) in
  let rY := {| x2 := 1 - x2 (tY t); y2 := 1 - y2 (tY t) |} in
  let rZ := 1 - tZ t in
  letR L000 := LuminanceMeasured (N000 c) ProbeIndex in
  letR L100 := LuminanceMeasured (N100 c) ProbeIndex in
  letR L010 := LuminanceMeasured (N010 c) ProbeIndex in
  letR L110 := LuminanceMeasured (N110 c) ProbeIndex in
  letR L001 := LuminanceMeasured (N001 c) ProbeIndex in
  letR L101 := LuminanceMeasured (N101 c) ProbeIndex in
  letR L011 := LuminanceMeasured (N011 c) ProbeIndex in
  letR L111 := LuminanceMeasured (N111 c) ProbeIndex in
  let L00 := rXx * L000 + x4 (tX t) * L100 in
  let L10 := rXx * L010 + x4 (tX t) * L110 in
  let L01 := rXx * L001 + x4 (tX t) * L101 in
  let L11 := rXx * L011 + x4 (tX t) * L111 in
  let L0 := x2 rY * L00 + x2 (tY t) * L10 in
  let L1 := y2 rY * L01 + y2 (tY t) * L11 in
  let L := rZ * L0 + tZ t * L1 in
  Ok L.

(** [for ( int ProbeIndex=0; ProbeIndex < REQUIRED_PROBES_COUNT; ProbeIndex++ )],
    over the indices still to do: the luminances written to the target
    probes before the loop is left, and how it is left. *)
Fixpoint InterpolateProbes (c : Cell) (t : Interpolants) (ProbeIndices : list nat)
  : list Q * Result unit :=
  match ProbeIndices with
  | [] => ([], Ok tt)
  | ProbeIndex :: rest =>
      match InterpolateProbe c t ProbeIndex with
      | Ok L =>
          let '(Ls, outcome) := InterpolateProbes c t rest in
          (L :: Ls, outcome)
      | Throw e => ([], Throw e)
      | Stuck => ([], Stuck)
      end
  end.

(** "Find the start node" and "Build the 8 grid nodes from it". *)
Definition LocateCell (db : Database) (_ISOSpeed _ShutterSpeed _Aperture : Q)
  : Result Cell :=
  letR StartNode := FindStartNode db _ISOSpeed _ShutterSpeed _Aperture in
  letR Grid := BuildGrid (m_Heap db) StartNode in
  deref_Grid (m_Heap db) Grid.

(** [PrepareCalibrationFor] *)
Definition PrepareCalibrationFor (db : Database)
    (_ISOSpeed _ShutterSpeed _Aperture : Q) : Database * Result unit :=
  match m_RootNode db with
  | None => (db, Throw GraphNotBuilt)
  | Some _ =>
      let db := with_PreparedFor db _ISOSpeed _ShutterSpeed _Aperture
                  (m_InterpolatedCalibration db) in
      let '(EVx, EVy, EVz) := Convert2EV _ISOSpeed _ShutterSpeed _Aperture in
      match LocateCell db _ISOSpeed _ShutterSpeed _Aperture with
      | Ok c =>
          let t := ComputeInterpolants c EVx EVy EVz in
          (* m_InterpolatedCalibration = new CameraCalibration(); *)
          let '(Ls, outcome) := InterpolateProbes c t (seq 0 REQUIRED_PROBES_COUNT) in
          (with_PreparedFor db _ISOSpeed _ShutterSpeed _Aperture (Some Ls), outcome)
      | Throw e => (db, Throw e)
      | Stuck => (db, Stuck)
      end
  end.

(** The interpolants [tX], [tY], [tZ] local to [PrepareCalibrationFor]. *)
Definition InterpolantsFor (db : Database) (_ISOSpeed _ShutterSpeed _Aperture : Q)
  : Result Interpolants :=
  let '(EVx, EVy, EVz) := Convert2EV _ISOSpeed _ShutterSpeed _Aperture in
  letR c := LocateCell db _ISOSpeed _ShutterSpeed _Aperture in
  Ok (ComputeInterpolants c EVx EVy EVz).

(** [IsPreparedFor] *)
Definition IsPreparedFor (db : Database) (_ISOSpeed _ShutterSpeed _Aperture : Q)
  : bool :=
  Qlt_bool (Qabs (_ISOSpeed - m_PreparedForISOSpeed db)) float_1em6
  && Qlt_bool (Qabs (_ShutterSpeed - m_PreparedForShutterSpeed db)) float_1em6
  && Qlt_bool (Qabs (_Aperture - m_PreparedForAperture db)) float_1em6.

(** [Calibrate] *)
Definition Calibrate (db : Database) (_Luminance : Q) : Result Q :=
  match m_RootNode db with
  | None => Throw GraphNotBuilt
  | Some _ =>
      match m_InterpolatedCalibration db with
      | None => Throw NotPrepared
      | Some interpolated => Ok (CameraCalibration_Calibrate interpolated _Luminance)
      end
  end.
End Model.

(** ** Running the model *)

(** A computable stand-in for [Math.Log], used where the model is run on
    concrete shots: for [x = m * 2^k] with [1 <= m < 2] it is
    [c * (k + (m - 1))], with [c = 6931/10000] for [ln 2].  On a power of
    two it is [c * k], so that [Convert2EV] gives the exact EV of ISO
    [100 * 2^k], of a shutter speed [2^k] and of an aperture [2^k]; in
    between it interpolates linearly. *)
Definition Log_dyadic (x : Q) : Q :=
  if Qle_bool x 0 then 0
  else
    let k0 := (Z.log2 (Qnum x) - Z.log2 (Zpos (Qden x)))%Z in
    let k := if Qlt_bool x (2 ^ k0) then (k0 - 1)%Z else k0 in
    (6931 # 10000) * (inject_Z k + (x / 2 ^ k - 1)).

(** A calibration curve to run [Calibrate] with: it scales the luminance
    by the first interpolated probe. *)
Definition Calibrate_scale (interpolated : list Q) (_Luminance : Q) : Q :=
  match interpolated with
  | [] => _Luminance
  | L :: _ => L * _Luminance
  end.

(** A calibration file: the shot and six probes of the same luminance. *)
Definition shot (iso shutter aperture luminance : Q) : CameraCalibration :=
  {| m_CameraShotInfos :=
       {| m_ISOSpeed := iso; m_ShutterSpeed := shutter; m_Aperture := aperture |};
     m_Reflectances :=
       repeat {| m_LuminanceMeasured := luminance |} REQUIRED_PROBES_COUNT |}.

Definition directory (files : list CameraCalibration) : DirectoryInfo :=
  {| Exists := true; GetFiles := files |}.

(** The database after [DatabasePath] is set, on a new object, to a
    directory with these files. *)
Definition load (Log : Q -> Q) (files : list CameraCalibration)
  : Database * Result unit :=
  set_DatabasePath Log new_CameraCalibrationDatabase (Some (directory files)).

(** Calibration files to run the model on.  With ISO 100, 1 s and f/1.0 at
    EV (0,0,0): [shot_A] at EV (0,0,0), [shot_B] at EV (1,0,0), [shot_C] at
    EV (2,0,0), [shot_D] at EV (2,-1,-1); each has its own luminance. *)
Definition shot_A : CameraCalibration := shot 100 1 1 (1 # 10).
Definition shot_B : CameraCalibration := shot 200 1 1 (2 # 10).
Definition shot_C : CameraCalibration := shot 400 1 1 (3 # 10).
Definition shot_D : CameraCalibration := shot 400 (1 # 2) 2 (4 # 10).

(** ** Specifications *)

(** The slot [n.m_Neighbor<a>[i]] of the node at [n], [None] when empty. *)
Definition slot (heap : Heap) (n : ref) (a : Axis) (i : nat) : option ref :=
  match heap !! n with
  | Some N => get_slot (Neighbor N a) i
  | None => None
  end.

(** The delta of the placement step on an axis: placed minus unplaced. *)
Definition Delta (a : Axis) (Placed UnPlaced : GridNode) : Q :=
  EV_on a Placed - EV_on a UnPlaced.

(** The axis rule in the words of the specification: the axis of the
    largest absolute delta, X before Y before Z on ties. *)
Definition ChooseAxis_spec (DeltaX DeltaY DeltaZ : Q) : Axis :=
  if Qle_bool (Qabs DeltaY) (Qabs DeltaX) && Qle_bool (Qabs DeltaZ) (Qabs DeltaX)
  then AxisX
  else if Qle_bool (Qabs DeltaZ) (Qabs DeltaY) then AxisY
  else AxisZ.

Definition pick (a : Axis) (DeltaX DeltaY DeltaZ : Q) : Q :=
  match a with
  | AxisX => DeltaX
  | AxisY => DeltaY
  | AxisZ => DeltaZ
  end.

(** All six slots of a node are empty. *)
Definition untouched (N : GridNode) : Prop :=
  forall a i, get_slot (Neighbor N a) i = None.

(** What the constructor fixes of a node and no later write changes. *)
Definition data (N : GridNode) : CameraCalibration * Q * Q * Q :=
  (m_CameraCalibration N, m_EV_ISOSpeed N, m_EV_ShutterSpeed N, m_EV_Aperture N).

(** The slot of the placed node that the placement step writes for the
    pair: axis and index. *)
Definition Target (Placed UnPlaced : GridNode) : Axis * nat :=
  ChooseAxis (Delta AxisX Placed UnPlaced) (Delta AxisY Placed UnPlaced)
             (Delta AxisZ Placed UnPlaced).

(** Two array indices that address the same element of a two-element
    array. *)
Definition same_index (i j : nat) : bool := Bool.eqb (Nat.eqb i 0) (Nat.eqb j 0).

(** The invariant of the construction loop, for the root [root], the heap
    and the list [GridNodes] of the nodes still unplaced. *)
Record GridInv (root : ref) (heap : Heap) (GridNodes : list ref) : Prop := {
  inv_root : (root < length heap)%nat;
  inv_root_placed : root ∉ GridNodes;
  inv_nodup : NoDup GridNodes;
  inv_unplaced :
    forall u, u ∈ GridNodes -> exists U, heap !! u = Some U /\ untouched U;
  inv_refs :
    forall n a i v, slot heap n a i = Some v -> (v < length heap)%nat;
  inv_star :
    forall a v, slot heap root a 1 = Some v ->
      v <> root /\ slot heap v a 0 = Some root
      /\ forall a', slot heap v a' 1 = None
}.

(** The heap after the pair of the root and the unplaced node [u] is
    linked; [R] and [U] are the two nodes before the writes. *)
Definition linked (heap : Heap) (root u : ref) (R U : GridNode) : Heap :=
  <[u := set_Neighbor U (fst (Target R U)) (1 - snd (Target R U)) (Some root)]>
    (<[root := set_Neighbor R (fst (Target R U)) (snd (Target R U)) (Some u)]> heap).

(** [k] turns of the construction loop. *)
Fixpoint Turns (k : nat) (heap : Heap) (PlacedNodes GridNodes : list ref)
  : Result (Heap * list ref) :=
  match k with
  | O => Ok (heap, GridNodes)
  | S k' =>
      letR s := PlaceStep heap PlacedNodes GridNodes in
      Turns k' (fst s) PlacedNodes (snd s)
  end.

(** A node as the constructor made it from its calibration, up to its
    neighbors, and with the required number of probes. *)
Definition made_by (Log : Q -> Q) (N : GridNode) : Prop :=
  data N = data (new_GridNode Log (m_CameraCalibration N))
  /\ length (m_Reflectances (m_CameraCalibration N)) = REQUIRED_PROBES_COUNT.

(** The invariant of the loop over the calibration files, on a new
    database. *)
Record Loaded (Log : Q -> Q) (st : LoadState) : Prop := {
  ld_nodes : ld_GridNodes st = seq 0 (length (ld_Heap st));
  ld_fresh :
    forall n N, ld_Heap st !! n = Some N -> untouched N /\ made_by Log N;
  ld_root :
    match ld_RootNode st with
    | None => ld_Heap st = []
    | Some root => (root < length (ld_Heap st))%nat
    end;
  ld_calibrations :
    ld_CameraCalibrations st = map m_CameraCalibration (ld_Heap st)
}.

(** The locals before the first file is read, on a new database. *)
Definition load_start : LoadState :=
  {| ld_RootNode := None; ld_ErrorLog := []; ld_CameraCalibrations := [];
     ld_GridNodes := []; ld_Heap := [] |}.

(** The state in which the setter, called on a new database with a
    directory of these files, enters the construction loop: the root, the
    heap and the unplaced nodes. *)
Definition LoopEntry (Log : Q -> Q) (files : list CameraCalibration)
  : option (ref * Heap * list ref) :=
  match LoadFiles Log load_start files with
  | Ok st =>
      match ld_RootNode st with
      | Some root => Some (root, ld_Heap st, Remove root (ld_GridNodes st))
      | None => None
      end
  | _ => None
  end.

(** [Chain heap axis target c r]: from [c], following "next" (index 1)
    neighbors on [axis], one reaches [r]; every node that is left and every
    node that is entered has its EV on the axis at most [target]. *)
Inductive Chain (heap : Heap) (axis : Axis) (target : Q) : ref -> ref -> Prop :=
| chain_stay (c : ref) : Chain heap axis target c c
| chain_next (c : ref) (C : GridNode) (next : ref) (N : GridNode) (r : ref) :
    heap !! c = Some C -> EV_on axis C <= target ->
    get_slot (Neighbor C axis) 1 = Some next ->
    heap !! next = Some N -> EV_on axis N <= target ->
    Chain heap axis target next r ->
    Chain heap axis target c r.

(** Why a walk stops at [r]: the EV of [r] on the axis is above the target,
    or [r] has no next neighbor on the axis, or the EV of that neighbor is
    above the target. *)
Definition Stops (heap : Heap) (axis : Axis) (target : Q) (r : ref) : Prop :=
  exists R, heap !! r = Some R
    /\ (target < EV_on axis R
        \/ get_slot (Neighbor R axis) 1 = None
        \/ exists next N, get_slot (Neighbor R axis) 1 = Some next
             /\ heap !! next = Some N /\ target < EV_on axis N).

(** The claim on where a walk stops, in the words of the specification:
    at a node whose own EV on the axis is at most the target, or at the
    last node of the chain. *)
Definition StopsAtOrBelow (heap : Heap) (axis : Axis) (target : Q) (r : ref)
  : Prop :=
  exists R, heap !! r = Some R
    /\ (EV_on axis R <= target \/ get_slot (Neighbor R axis) 1 = None).

(** The six luminances of a calibration. *)
Definition luminances (CC : CameraCalibration) : list Q :=
  map m_LuminanceMeasured (m_Reflectances CC).

(** An interpolant is clamped to [0,1]. *)
Definition clamped (t : Q) : Prop := 0 <= t /\ t <= 1.

(** The eight corners of a cell, as references and as nodes. *)
Definition grid_refs (g : Grid) : list ref :=
  [G000 g; G100 g; G010 g; G001 g; G110 g; G011 g; G101 g; G111 g].

Definition cell_nodes (c : Cell) : list GridNode :=
  [N000 c; N100 c; N010 c; N001 c; N110 c; N011 c; N101 c; N111 c].

Definition has_probes (N : GridNode) : Prop :=
  length (m_Reflectances (m_CameraCalibration N)) = REQUIRED_PROBES_COUNT.

(** A file the loader keeps. *)
Definition valid_file (CC : CameraCalibration) : bool :=
  Nat.eqb (length (m_Reflectances CC)) REQUIRED_PROBES_COUNT.

(** The shot values on which [Math.Log] is a finite number: all three
    positive.  On a zero it returns minus infinity, on a negative number
    NaN, neither of which [Log : Q -> Q] has. *)
Definition positive_shot (CC : CameraCalibration) : Prop :=
  0 < m_ISOSpeed (m_CameraShotInfos CC)
  /\ 0 < m_ShutterSpeed (m_CameraShotInfos CC)
  /\ 0 < m_Aperture (m_CameraShotInfos CC).

(** The files the loader keeps all have positive shot values. *)
Definition positive_shots (files : list CameraCalibration) : Prop :=
  Forall positive_shot (List.filter valid_file files).

(** The nodes of the files the loader keeps are at squared distances
    below [float.MaxValue] from each other. *)
Definition finite_EV_distances (Log : Q -> Q)
    (files : list CameraCalibration) : Prop :=
  Forall (fun CC1 =>
            Forall (fun CC2 =>
                      SqDistance (new_GridNode Log CC1) (new_GridNode Log CC2)
                      < float_MaxValue)
                   (List.filter valid_file files))
         (List.filter valid_file files).

(** The six slots of a node: axis and index. *)
Definition all_slots : list (Axis * nat) :=
  [(AxisX, 0%nat); (AxisX, 1%nat); (AxisY, 0%nat); (AxisY, 1%nat);
   (AxisZ, 0%nat); (AxisZ, 1%nat)].

(** How many of the six slots of a node are occupied. *)
Definition occupied (N : GridNode) : nat :=
  length (List.filter
            (fun s => match get_slot (Neighbor N (fst s)) (snd s) with
                      | Some _ => true
                      | None => false
                      end) all_slots).

(** The getter [HasErrors]. *)
Definition HasErrors (db : Database) : bool :=
  match m_ErrorLog db with
  | [] => false
  | _ :: _ => true
  end.

(** The best pair so far is a pair of the lists at its squared distance,
    which is below [float.MaxValue] and at most the squared distance of
    every pair of [seen]; there is none so far when no pair of [seen] is at
    a squared distance below [float.MaxValue]. *)
Definition best_of (heap : Heap) (PlacedNodes GridNodes : list ref)
    (seen : ref -> ref -> Prop) (Best : BestPair) : Prop :=
  match Best with
  | None =>
      forall p u P U, seen p u -> heap !! p = Some P -> heap !! u = Some U ->
        float_MaxValue <= SqDistance P U
  | Some (d, p, u) =>
      p ∈ PlacedNodes /\ u ∈ GridNodes
      /\ exists P U, heap !! p = Some P /\ heap !! u = Some U
           /\ d = SqDistance P U
           /\ d < float_MaxValue
           /\ forall p' u' P' U', seen p' u' ->
                heap !! p' = Some P' -> heap !! u' = Some U' ->
                d <= SqDistance P' U'
  end.


(** The states of a database object: a new object, then any calls of the
    setter [DatabasePath] and of [PrepareCalibrationFor], whether they
    return or throw. *)
Inductive Reachable (Log : Q -> Q) : Database -> Prop :=
| reach_new : Reachable Log new_CameraCalibrationDatabase
| reach_set (db : Database) (value : option DirectoryInfo) :
    Reachable Log db -> Reachable Log (fst (set_DatabasePath Log db value))
| reach_prepare (db : Database) (iso shutter aperture : Q) :
    Reachable Log db ->
    Reachable Log (fst (PrepareCalibrationFor Log db iso shutter aperture)).

(** The fields of a database agree with each other. *)
Record Consistent (db : Database) : Prop := {
  cons_no_path :
    m_DatabasePath db = None ->
    m_RootNode db = None /\ m_CameraClibrations db = [] /\ m_ErrorLog db = []
    /\ m_InterpolatedCalibration db = None;
  cons_valid : IsValid db = true <-> m_CameraClibrations db <> [];
  cons_files :
    m_CameraClibrations db <> [] ->
    exists dir, m_DatabasePath db = Some dir /\ Exists dir = true
      /\ m_CameraClibrations db = List.filter valid_file (GetFiles dir);
  cons_prepared : m_InterpolatedCalibration db <> None -> IsValid db = true
}.

(** * [Dictionary<T>], the hash table with [U32] keys (Hashtable.inl)

    The table [m_ppTable] is the list of its chains, each chain the list of
    its nodes from the head on ([pNext] is the rest of the list).  A key is
    a [U32] and is only compared and reduced modulo the size; [int] and
    [U32] arithmetic is written out.  A function returns [None] where the
    C++ code has no defined result (a division by zero, an index outside
    the table, an [int] that overflows) or where the allocation of the
    table fails.  The release build is modelled: [ms_MaxCollisionsCount] of
    the debug build is not. *)
Module Dictionary.
Local Open Scope Z_scope.
Section Dictionary.
(** The type of the values, and the value of the node [new Node()] makes. *)
Variable T : Type.
Variable new_Value : T.

Definition INT_MAX : Z := 2147483647.
Definition INT_MIN : Z := -2147483648.
(** The conversion of an [int] to [U32]. *)
Definition to_U32 (i : Z) : Z := i mod 4294967296.

Record Node : Type := { Key : Z; Value : T }.

Record Dictionary : Type := {
  m_ppTable : list (list Node);
  m_Size : Z;
  m_EntriesCount : Z
}.

(** The constructor [Dictionary( int _Size )]. *)
Definition new_Dictionary (_Size : Z) : option Dictionary :=
  if _Size <? 0 then None
  else Some {| m_ppTable := replicate (Z.to_nat _Size) [];
               m_Size := _Size;
               m_EntriesCount := 0 |}.

(** [U32 idx = _Key % m_Size] *)
Definition index (d : Dictionary) (_Key : Z) : option nat :=
  if to_U32 (m_Size d) =? 0 then None
  else Some (Z.to_nat (_Key mod to_U32 (m_Size d))).

(** [while ( pNode != NULL ) { if ( _Key == pNode->Key ) return
    &pNode->Value; pNode = pNode->pNext; } return NULL;] *)
Fixpoint Find (pNode : list Node) (_Key : Z) : option T :=
  match pNode with
  | [] => None
  | n :: pNext => if _Key =? Key n then Some (Value n) else Find pNext _Key
  end.

(** [Get]: the value the returned pointer points to, [None] for [NULL]. *)
Definition Get (d : Dictionary) (_Key : Z) : option (option T) :=
  if m_EntriesCount d =? 0 then Some None
  else
    match index d _Key with
    | None => None
    | Some idx =>
        match m_ppTable d !! idx with
        | None => None
        | Some pNode => Some (Find pNode _Key)
        end
    end.

(** [Add( U32 _Key )]: the dictionary, and the chain at whose head the
    node of the returned reference is. *)
Definition Add_key (d : Dictionary) (_Key : Z) : option (Dictionary * nat) :=
  match index d _Key with
  | None => None
  | Some idx =>
      match m_ppTable d !! idx with
      | None => None
      | Some pNext =>
          if m_EntriesCount d =? INT_MAX then None
          else
            Some ({| m_ppTable :=
                       <[idx := {| Key := _Key; Value := new_Value |} :: pNext]>
                         (m_ppTable d);
                     m_Size := m_Size d;
                     m_EntriesCount := m_EntriesCount d + 1 |}, idx)
      end
  end.

(** A write through the reference [Add( U32 _Key )] has returned. *)
Definition set_Value (d : Dictionary) (idx : nat) (_Value : T)
  : option Dictionary :=
  match m_ppTable d !! idx with
  | Some (n :: pNext) =>
      Some {| m_ppTable :=
                <[idx := {| Key := Key n; Value := _Value |} :: pNext]>
                  (m_ppTable d);
              m_Size := m_Size d;
              m_EntriesCount := m_EntriesCount d |}
  | _ => None
  end.

(** [Add( U32 _Key, const T& _Value )] *)
Definition Add (d : Dictionary) (_Key : Z) (_Value : T) : option Dictionary :=
  match Add_key d _Key with
  | None => None
  | Some (d', idx) => set_Value d' idx _Value
  end.

(** The loop of [Remove] on a chain: the chain without the first node of
    the key, [None] when no node has the key. *)
Fixpoint Unlink (pCurrent : list Node) (_Key : Z) : option (list Node) :=
  match pCurrent with
  | [] => None
  | n :: pNext =>
      if _Key =? Key n then Some pNext
      else match Unlink pNext _Key with
           | Some rest => Some (n :: rest)
           | None => None
           end
  end.

(** [Remove] *)
Definition Remove (d : Dictionary) (_Key : Z) : option Dictionary :=
  match index d _Key with
  | None => None
  | Some idx =>
      match m_ppTable d !! idx with
      | None => None
      | Some pCurrent =>
          match Unlink pCurrent _Key with
          | None => Some d
          | Some chain =>
              if m_EntriesCount d =? INT_MIN then None
              else
                Some {| m_ppTable := <[idx := chain]> (m_ppTable d);
                        m_Size := m_Size d;
                        m_EntriesCount := m_EntriesCount d - 1 |}
          end
      end
  end.

(** [Clear]: every chain is deleted and every head is reset;
    [m_EntriesCount] is not written. *)
Definition Clear (d : Dictionary) : Dictionary :=
  {| m_ppTable := replicate (Z.to_nat (m_Size d)) []
                  ++ drop (Z.to_nat (m_Size d)) (m_ppTable d);
     m_Size := m_Size d;
     m_EntriesCount := m_EntriesCount d |}.

(** The nodes of the dictionary, in the order in which [ForEach] visits
    them. *)
Definition nodes (d : Dictionary) : list Node := concat (m_ppTable d).

(** The invariant of a dictionary: the table has [m_Size] chains, with
    [m_Size] positive, every node is in the chain of its key, and
    [m_EntriesCount] is at least the number of the nodes. *)
Record wf (d : Dictionary) : Prop := {
  wf_size : 0 < m_Size d <= INT_MAX;
  wf_table : length (m_ppTable d) = Z.to_nat (m_Size d);
  wf_chain :
    forall idx pNode n, m_ppTable d !! idx = Some pNode -> n ∈ pNode ->
      index d (Key n) = Some idx;
  wf_count : Z.of_nat (length (nodes d)) <= m_EntriesCount d <= INT_MAX
}.
End Dictionary.
Arguments Key {T}.
Arguments Value {T}.
Arguments m_ppTable {T}.
Arguments m_Size {T}.
Arguments m_EntriesCount {T}.
Arguments new_Dictionary {T}.
Arguments index {T}.
Arguments Find {T}.
Arguments Get {T}.
Arguments Add_key {T}.
Arguments set_Value {T}.
Arguments Add {T}.
Arguments Unlink {T}.
Arguments Remove {T}.
Arguments Clear {T}.
Arguments nodes {T}.
Arguments wf {T}.
Arguments wf_size {T}.
Arguments wf_table {T}.
Arguments wf_chain {T}.
Arguments wf_count {T}.
End Dictionary.

(** A dictionary of [Z] values to run the model on: four chains, and the
    keys 5 and 1, which are in the same chain. *)
Definition Dictionary_sample : Dictionary.Dictionary Z :=
  {| Dictionary.m_ppTable :=
       [[]; [{| Dictionary.Key := 5%Z; Dictionary.Value := 50%Z |};
             {| Dictionary.Key := 1%Z; Dictionary.Value := 10%Z |}]; []; []];
     Dictionary.m_Size := 4;
     Dictionary.m_EntriesCount := 2 |}.



(** * [float3], [float4] and [float4x4] (RendererManaged.h)

    A [float] is a rational, as above; an [int] index is an integer, of
    which the code only uses the two lowest bits.  [Inverse] returns [None]
    where the code throws "Matrix is not invertible!". *)
Module RendererManaged.

Module float3.
Record float3 : Type := { x : Q; y : Q; z : Q }.

(** [operator-( float3 a )] *)
Definition neg (a : float3) : float3 := {| x := - x a; y := - y a; z := - z a |}.

Definition LengthSquared (this : float3) : Q :=
  x this * x this + y this * y this + z this * z this.

Definition Dot (this b : float3) : Q := x this * x b + y this * y b + z this * z b.

Definition Cross (this b : float3) : float3 :=
  {| x := y this * z b - z this * y b;
     y := z this * x b - x this * z b;
     z := x this * y b - y this * x b |}.
End float3.

Module float4.
Record float4 : Type := { x : Q; y : Q; z : Q; w : Q }.

(** The getter of [default[int]] *)
Definition get (this : float4) (_ComponentIndex : Z) : Q :=
  match Z.land _ComponentIndex 3 with
  | 0%Z => x this
  | 1%Z => y this
  | 2%Z => z this
  | 3%Z => w this
  | _ => x this
  end.

(** The setter of [default[int]] *)
Definition set (this : float4) (_ComponentIndex : Z) (value : Q) : float4 :=
  match Z.land _ComponentIndex 3 with
  | 0%Z => {| x := value; y := y this; z := z this; w := w this |}
  | 1%Z => {| x := x this; y := value; z := z this; w := w this |}
  | 2%Z => {| x := x this; y := y this; z := value; w := w this |}
  | 3%Z => {| x := x this; y := y this; z := z this; w := value |}
  | _ => this
  end.
End float4.

Module float4x4.
Import float4.

Record float4x4 : Type := { r0 : float4; r1 : float4; r2 : float4; r3 : float4 }.

Definition set_r0 (this : float4x4) (v : float4) : float4x4 :=
  {| r0 := v; r1 := r1 this; r2 := r2 this; r3 := r3 this |}.
Definition set_r1 (this : float4x4) (v : float4) : float4x4 :=
  {| r0 := r0 this; r1 := v; r2 := r2 this; r3 := r3 this |}.
Definition set_r2 (this : float4x4) (v : float4) : float4x4 :=
  {| r0 := r0 this; r1 := r1 this; r2 := v; r3 := r3 this |}.
Definition set_r3 (this : float4x4) (v : float4) : float4x4 :=
  {| r0 := r0 this; r1 := r1 this; r2 := r2 this; r3 := v |}.

(** [operator*( float4x4 a, float4x4 b )] *)
Definition mul (a b : float4x4) : float4x4 :=
  {| r0 := {| x := x (r0 a) * x (r0 b) + y (r0 a) * x (r1 b) + z (r0 a) * x (r2 b) + w (r0 a) * x (r3 b);
              y := x (r0 a) * y (r0 b) + y (r0 a) * y (r1 b) + z (r0 a) * y (r2 b) + w (r0 a) * y (r3 b);
              z := x (r0 a) * z (r0 b) + y (r0 a) * z (r1 b) + z (r0 a) * z (r2 b) + w (r0 a) * z (r3 b);
              w := x (r0 a) * w (r0 b) + y (r0 a) * w (r1 b) + z (r0 a) * w (r2 b) + w (r0 a) * w (r3 b) |};
     r1 := {| x := x (r1 a) * x (r0 b) + y (r1 a) * x (r1 b) + z (r1 a) * x (r2 b) + w (r1 a) * x (r3 b);
              y := x (r1 a) * y (r0 b) + y (r1 a) * y (r1 b) + z (r1 a) * y (r2 b) + w (r1 a) * y (r3 b);
              z := x (r1 a) * z (r0 b) + y (r1 a) * z (r1 b) + z (r1 a) * z (r2 b) + w (r1 a) * z (r3 b);
              w := x (r1 a) * w (r0 b) + y (r1 a) * w (r1 b) + z (r1 a) * w (r2 b) + w (r1 a) * w (r3 b) |};
     r2 := {| x := x (r2 a) * x (r0 b) + y (r2 a) * x (r1 b) + z (r2 a) * x (r2 b) + w (r2 a) * x (r3 b);
              y := x (r2 a) * y (r0 b) + y (r2 a) * y (r1 b) + z (r2 a) * y (r2 b) + w (r2 a) * y (r3 b);
              z := x (r2 a) * z (r0 b) + y (r2 a) * z (r1 b) + z (r2 a) * z (r2 b) + w (r2 a) * z (r3 b);
              w := x (r2 a) * w (r0 b) + y (r2 a) * w (r1 b) + z (r2 a) * w (r2 b) + w (r2 a) * w (r3 b) |};
     r3 := {| x := x (r3 a) * x (r0 b) + y (r3 a) * x (r1 b) + z (r3 a) * x (r2 b) + w (r3 a) * x (r3 b);
              y := x (r3 a) * y (r0 b) + y (r3 a) * y (r1 b) + z (r3 a) * y (r2 b) + w (r3 a) * y (r3 b);
              z := x (r3 a) * z (r0 b) + y (r3 a) * z (r1 b) + z (r3 a) * z (r2 b) + w (r3 a) * z (r3 b);
              w := x (r3 a) * w (r0 b) + y (r3 a) * w (r1 b) + z (r3 a) * w (r2 b) + w (r3 a) * w (r3 b) |} |}.

(** [operator*( float a, float4x4 b )]: each of the four rows is set to
    the same expressions. *)
Definition smul (a : Q) (b : float4x4) : float4x4 :=
  let row :=
    {| x := a * x (r0 b) + a * x (r1 b) + a * x (r2 b) + a * x (r3 b);
       y := a * y (r0 b) + a * y (r1 b) + a * y (r2 b) + a * y (r3 b);
       z := a * z (r0 b) + a * z (r1 b) + a * z (r2 b) + a * z (r3 b);
       w := a * w (r0 b) + a * w (r1 b) + a * w (r2 b) + a * w (r3 b) |} in
  {| r0 := row; r1 := row; r2 := row; r3 := row |}.

(** [operator*( float4 a, float4x4 b )] *)
Definition vmul (a : float4) (b : float4x4) : float4 :=
  {| x := x a * x (r0 b) + y a * x (r1 b) + z a * x (r2 b) + w a * x (r3 b);
     y := x a * y (r0 b) + y a * y (r1 b) + z a * y (r2 b) + w a * y (r3 b);
     z := x a * z (r0 b) + y a * z (r1 b) + z a * z (r2 b) + w a * z (r3 b);
     w := x a * w (r0 b) + y a * w (r1 b) + z a * w (r2 b) + w a * w (r3 b) |}.

Definition GetRow (this : float4x4) (_RowIndex : Z) : float4 :=
  match Z.land _RowIndex 3 with
  | 0%Z => r0 this
  | 1%Z => r1 this
  | 2%Z => r2 this
  | 3%Z => r3 this
  | _ => r0 this
  end.

(** [SetRow]: no [case] of the [switch] ends in a [break], so each falls
    through to the next. *)
Definition SetRow (this : float4x4) (_RowIndex : Z) (_Value : float4) : float4x4 :=
  let case3 (m : float4x4) := set_r3 m _Value in
  let case2 (m : float4x4) := case3 (set_r2 m _Value) in
  let case1 (m : float4x4) := case2 (set_r1 m _Value) in
  let case0 (m : float4x4) := case1 (set_r0 m _Value) in
  match Z.land _RowIndex 3 with
  | 0%Z => case0 this
  | 1%Z => case1 this
  | 2%Z => case2 this
  | 3%Z => case3 this
  | _ => this
  end.

(** The getter and the setter of [default[int,int]] *)
Definition get (this : float4x4) (_RowIndex _ColumnIndex : Z) : Q :=
  float4.get (GetRow this _RowIndex) _ColumnIndex.

Definition set (this : float4x4) (_RowIndex _ColumnIndex : Z) (value : Q)
  : float4x4 :=
  match Z.land _RowIndex 3 with
  | 0%Z => set_r0 this (float4.set (r0 this) _ColumnIndex value)
  | 1%Z => set_r1 this (float4.set (r1 this) _ColumnIndex value)
  | 2%Z => set_r2 this (float4.set (r2 this) _ColumnIndex value)
  | 3%Z => set_r3 this (float4.set (r3 this) _ColumnIndex value)
  | _ => this
  end.

Definition CoFactor (this : float4x4) (_dwRow _dwCol : Z) : Q :=
  ((get this (_dwRow + 1) (_dwCol + 1) * get this (_dwRow + 2) (_dwCol + 2)
      * get this (_dwRow + 3) (_dwCol + 3)
    + get this (_dwRow + 1) (_dwCol + 2) * get this (_dwRow + 2) (_dwCol + 3)
      * get this (_dwRow + 3) (_dwCol + 1)
    + get this (_dwRow + 1) (_dwCol + 3) * get this (_dwRow + 2) (_dwCol + 1)
      * get this (_dwRow + 3) (_dwCol + 2))
   - (get this (_dwRow + 3) (_dwCol + 1) * get this (_dwRow + 2) (_dwCol + 2)
        * get this (_dwRow + 1) (_dwCol + 3)
      + get this (_dwRow + 3) (_dwCol + 2) * get this (_dwRow + 2) (_dwCol + 3)
        * get this (_dwRow + 1) (_dwCol + 1)
      + get this (_dwRow + 3) (_dwCol + 3) * get this (_dwRow + 2) (_dwCol + 1)
        * get this (_dwRow + 1) (_dwCol + 2)))
  * (if (Z.land (_dwRow + _dwCol) 1 =? 1)%Z then - (1) else 1).

Definition Determinant (this : float4x4) : Q :=
  get this 0 0 * CoFactor this 0 0 + get this 0 1 * CoFactor this 0 1
  + get this 0 2 * CoFactor this 0 2 + get this 0 3 * CoFactor this 0 3.

(** [Single::Epsilon], the smallest positive [float]: [2^-149]. *)
Definition Single_Epsilon : Q := 1 / 2 ^ 149.

(** A [float4x4] of a declaration without initialiser. *)
Definition zero : float4x4 :=
  let o := {| x := 0; y := 0; z := 0; w := 0 |} in
  {| r0 := o; r1 := o; r2 := o; r3 := o |}.

(** The getter of [Inverse]; [None] is the exception "Matrix is not
    invertible!".  The guard is taken on the determinant as exact
    arithmetic gives it.  It is the guard of the code where binary32
    computes [Determinant()] without rounding and without overflow; where
    it does not, the code may throw on a matrix whose determinant is not
    zero (a product that rounds) or return on one whose determinant
    overflowed.  The theorems about [Inverse] are stated on matrices on
    which binary32 is exact where the guard needs it: [small_integers],
    [scaled_below]. *)
Definition Inverse (this : float4x4) : option float4x4 :=
  let fDet := Determinant this in
  if Qlt_bool (Qabs fDet) Single_Epsilon then None
  else
    let fIDet := 1 / fDet in
    let R := zero in
    let R := SetRow R 0 {| x := CoFactor this 0 0 * fIDet; y := CoFactor this 1 0 * fIDet;
                           z := CoFactor this 2 0 * fIDet; w := CoFactor this 3 0 * fIDet |} in
    let R := SetRow R 1 {| x := CoFactor this 0 1 * fIDet; y := CoFactor this 1 1 * fIDet;
                           z := CoFactor this 2 1 * fIDet; w := CoFactor this 3 1 * fIDet |} in
    let R := SetRow R 2 {| x := CoFactor this 0 2 * fIDet; y := CoFactor this 1 2 * fIDet;
                           z := CoFactor this 2 2 * fIDet; w := CoFactor this 3 2 * fIDet |} in
    let R := SetRow R 3 {| x := CoFactor this 0 3 * fIDet; y := CoFactor this 1 3 * fIDet;
                           z := CoFactor this 2 3 * fIDet; w := CoFactor this 3 3 * fIDet |} in
    Some R.

(** The sixteen components of a matrix, row by row. *)
Definition entries (this : float4x4) : list Q :=
  [x (r0 this); y (r0 this); z (r0 this); w (r0 this);
   x (r1 this); y (r1 this); z (r1 this); w (r1 this);
   x (r2 this); y (r2 this); z (r2 this); w (r2 this);
   x (r3 this); y (r3 this); z (r3 this); w (r3 this)].

(** A whole number. *)
Definition integral (q : Q) : Prop := exists k : Z, q == inject_Z k.

(** An integer of absolute value at most 16. *)
Definition small_integer (e : Q) : Prop :=
  Qden e = 1%positive /\ (Z.abs (Qnum e) <= 16)%Z.

(** A matrix of integers of absolute value at most 16.  On such a matrix
    binary32 computes [CoFactor] and [Determinant] exactly: every product
    and every sum on the way is an integer of absolute value below
    [6 * 16^3 * 16 * 4 < 2^24]. *)
Definition small_integers (this : float4x4) : Prop :=
  Forall small_integer (entries this).

(** The products of [a] and the components of [b] are at most [2^40] in
    absolute value.  The components of [a * b] are then at most [2^42],
    and the sums of three triple products of [CoFactor] at most
    [3 * 2^126], below [float.MaxValue]: binary32 computes them without
    overflow. *)
Definition scaled_below (a : Q) (b : float4x4) : Prop :=
  Forall (fun e => Qabs (a * e) <= 2 ^ 40) (entries b).

(** The getter of [Identity] *)
Definition Identity : float4x4 :=
  {| r0 := {| x := 1; y := 0; z := 0; w := 0 |};
     r1 := {| x := 0; y := 1; z := 0; w := 0 |};
     r2 := {| x := 0; y := 0; z := 1; w := 0 |};
     r3 := {| x := 0; y := 0; z := 0; w := 1 |} |}.
End float4x4.

(** Two vectors, two matrices of equal components. *)
Definition float3_eq (a b : float3.float3) : Prop :=
  float3.x a == float3.x b /\ float3.y a == float3.y b /\ float3.z a == float3.z b.

Definition float4_eq (a b : float4.float4) : Prop :=
  float4.x a == float4.x b /\ float4.y a == float4.y b
  /\ float4.z a == float4.z b /\ float4.w a == float4.w b.

Definition float4x4_eq (a b : float4x4.float4x4) : Prop :=
  float4_eq (float4x4.r0 a) (float4x4.r0 b)
  /\ float4_eq (float4x4.r1 a) (float4x4.r1 b)
  /\ float4_eq (float4x4.r2 a) (float4x4.r2 b)
  /\ float4_eq (float4x4.r3 a) (float4x4.r3 b).
End RendererManaged.

(** A matrix to run the model on: its determinant is 2. *)
Definition float4x4_sample : RendererManaged.float4x4.float4x4 :=
  {| RendererManaged.float4x4.r0 :=
       {| RendererManaged.float4.x := 2; RendererManaged.float4.y := 0;
          RendererManaged.float4.z := 0; RendererManaged.float4.w := 1 |};
     RendererManaged.float4x4.r1 :=
       {| RendererManaged.float4.x := 0; RendererManaged.float4.y := 1;
          RendererManaged.float4.z := 3; RendererManaged.float4.w := 0 |};
     RendererManaged.float4x4.r2 :=
       {| RendererManaged.float4.x := 0; RendererManaged.float4.y := 0;
          RendererManaged.float4.z := 1; RendererManaged.float4.w := 0 |};
     RendererManaged.float4x4.r3 :=
       {| RendererManaged.float4.x := 5; RendererManaged.float4.y := 0;
          RendererManaged.float4.z := 0; RendererManaged.float4.w := 3 |} |}.


(** * [half], the 16-bit float (RendererManaged.h)

    The constructor [half( float value )] reads the float as a [U32] and
    works on its bits, [f32]: it is modelled on these bits.  The
    conversion [operator float( half )] computes a float by arithmetic that
    is exact on its operands (a power of two times a number of eleven
    bits): the float is given by its sign and its exact magnitude, a
    rational; an infinity or a NaN, which the conversion writes as bits,
    is given by its bits. *)
Module half.
Local Open Scope Z_scope.

Definition F16_EXPONENT_BITS : Z := 0x1F.
Definition F16_EXPONENT_SHIFT : Z := 10.
Definition F16_EXPONENT_BIAS : Z := 15.
Definition F16_MANTISSA_BITS : Z := 0x03ff.
Definition F16_MANTISSA_SHIFT : Z := 23 - F16_EXPONENT_SHIFT.
Definition F16_MAX_EXPONENT : Z := Z.shiftl F16_EXPONENT_BITS F16_EXPONENT_SHIFT.

(** The conversion to [U16]. *)
Definition U16 (i : Z) : Z := i mod 65536.

(** [half( float value )]: the field [raw], from the bits of [value].
    The exponent is the exponent field minus 127, as the code has it after
    the conversion of the [U32] difference to [int]. *)
Definition new_half (f32 : Z) : Z :=
  let sign := Z.land (Z.shiftr f32 16) 0x8000 in
  let exponent := Z.land (Z.shiftr f32 23) 0xff - 127 in
  let mantissa := Z.land f32 0x007fffff in
  if exponent =? 128 then
    let raw := U16 (Z.lor sign F16_MAX_EXPONENT) in
    if negb (mantissa =? 0) then U16 (Z.lor raw (Z.land mantissa F16_MANTISSA_BITS))
    else raw
  else if exponent >? 15 then U16 (Z.lor sign F16_MAX_EXPONENT)
  else if exponent >? -15 then
    let exponent := exponent + F16_EXPONENT_BIAS in
    let mantissa := Z.shiftr mantissa F16_MANTISSA_SHIFT in
    U16 (Z.lor (Z.lor sign (Z.shiftl exponent F16_EXPONENT_SHIFT)) mantissa)
  else U16 sign.

(** A float: a finite one by its sign and its magnitude, an infinity or a
    NaN by its bits. *)
Inductive float : Type :=
| finite (negative : bool) (magnitude : Q)
| special (ui : Z).

(** [-f32.f] *)
Definition neg (f : float) : float :=
  match f with
  | finite negative magnitude => finite (negb negative) magnitude
  | special ui => special (Z.lxor ui 0x80000000)
  end.

(** [operator float( half _value )], from the field [raw]. *)
Definition to_float (raw : Z) : float :=
  let sign := Z.shiftl (Z.land raw 0x8000) 15 in
  let exponent := Z.shiftr (Z.land raw 0x7c00) 10 in
  let mantissa := Z.land raw 0x03ff in
  let f :=
    if exponent =? 0 then
      if negb (mantissa =? 0)
      then finite false (inject_Z mantissa / inject_Z (Z.shiftl 1 24))
      else finite false 0
    else if exponent =? 31 then
      special (Z.lor (Z.lor sign 0x7f800000) mantissa)
    else
      let exponent := exponent - 15 in
      let scale :=
        if exponent <? 0 then (1 / inject_Z (Z.shiftl 1 (- exponent)))%Q
        else inject_Z (Z.shiftl 1 exponent) in
      let decimal := (1 + inject_Z mantissa / inject_Z (Z.shiftl 1 10))%Q in
      finite false (scale * decimal)
  in
  if negb (sign =? 0) then neg f else f.

(** ** The bits of a float (IEEE 754, binary32) *)

(** The exponent field and the fraction field of the bits. *)
Definition exponent_field (f32 : Z) : Z := (f32 / 2 ^ 23) mod 256.
Definition fraction_field (f32 : Z) : Z := f32 mod 2 ^ 23.

(** The magnitude of the float of these bits, for an exponent field below
    255, in units of [2^-149]: the fraction for a subnormal float,
    [(2^23 + fraction) * 2^(exponent - 1)] otherwise. *)
Definition scaled_magnitude (f32 : Z) : Z :=
  if exponent_field f32 =? 0 then fraction_field f32
  else (2 ^ 23 + fraction_field f32) * 2 ^ (exponent_field f32 - 1).

Definition magnitude_of_bits (f32 : Z) : Q :=
  inject_Z (scaled_magnitude f32) / inject_Z (2 ^ 149).

(** [f32] is the 32 bits of the float [f]. *)
Definition bits_of (f : float) (f32 : Z) : Prop :=
  0 <= f32 < 2 ^ 32
  /\ match f with
     | finite negative magnitude =>
         Z.testbit f32 31 = negative
         /\ exponent_field f32 <> 255
         /\ (magnitude_of_bits f32 == magnitude)%Q
     | special ui => f32 = ui
     end.

(** The sign bit of a half, from the sign bit of the float. *)
Definition sign_of (f32 : Z) : Z := if Z.testbit f32 31 then 32768 else 0.

(** The fields of a half: a denormal half has the exponent field zero and
    the mantissa field not zero. *)
Definition is_denormal (raw : Z) : bool :=
  (Z.land raw 0x7c00 =? 0) && negb (Z.land raw 0x03ff =? 0).

(** The magnitude of the float that [to_float] computes for a half whose
    exponent field is below 31, in units of [2^-149]. *)
Definition half_scaled (raw : Z) : Z :=
  let e := (raw / 1024) mod 32 in
  let m := raw mod 1024 in
  if e =? 0 then m * 2 ^ 125 else (1024 + m) * 2 ^ (e + 124).

(** [p] on every number of [n] bits after the bits of [prefix]. *)
Fixpoint all_bits (n : nat) (prefix : Z) (p : Z -> bool) : bool :=
  match n with
  | O => p prefix
  | S n' => all_bits n' (2 * prefix) p && all_bits n' (2 * prefix + 1) p
  end.
End half.


(** ** Basic facts *)

Lemma Qlt_bool_iff (a b : Q) : Qlt_bool a b = true <-> a < b.
Proof.
  unfold Qlt_bool. rewrite negb_true_iff.
  split; intro H.
  - apply Qnot_le_lt. intro Hle. apply Qle_bool_iff in Hle. congruence.
  - destruct (Qle_bool b a) eqn:E; [|reflexivity].
    apply Qle_bool_iff in E. exfalso. exact (Qlt_not_le _ _ H E).
Qed.

Lemma Qlt_bool_false_iff (a b : Q) : Qlt_bool a b = false <-> b <= a.
Proof.
  unfold Qlt_bool. rewrite negb_false_iff. apply Qle_bool_iff.
Qed.

Lemma Qlt_bool_spec (a b : Q) : reflect (a < b) (Qlt_bool a b).
Proof.
  destruct (Qlt_bool a b) eqn:E; constructor.
  - now apply Qlt_bool_iff.
  - apply Qlt_bool_false_iff in E. now apply Qle_not_lt.
Qed.

Lemma Qle_bool_spec (a b : Q) : reflect (a <= b) (Qle_bool a b).
Proof.
  destruct (Qle_bool a b) eqn:E; constructor.
  - now apply Qle_bool_iff.
  - intro H. apply Qle_bool_iff in H. congruence.
Qed.

(** ** The axis rule (C5) *)

(** C5, as the code has it: the axis chosen for a pair always carries the
    largest absolute delta; X is chosen exactly when [|DeltaX|] is strictly
    above both others, Y exactly when [|DeltaY|] is at least [|DeltaX|] and
    strictly above [|DeltaZ|], and Z in every other case, so that a tie
    goes to the later axis (Z before Y before X). *)
Theorem ChooseAxis_largest_delta_ties_to_later_axis (DeltaX DeltaY DeltaZ : Q) :
  let a := fst (ChooseAxis DeltaX DeltaY DeltaZ) in
  (Qabs DeltaX <= Qabs (pick a DeltaX DeltaY DeltaZ)
   /\ Qabs DeltaY <= Qabs (pick a DeltaX DeltaY DeltaZ)
   /\ Qabs DeltaZ <= Qabs (pick a DeltaX DeltaY DeltaZ))
  /\ (a = AxisX <-> Qabs DeltaY < Qabs DeltaX /\ Qabs DeltaZ < Qabs DeltaX)
  /\ (a = AxisY <-> Qabs DeltaX <= Qabs DeltaY /\ Qabs DeltaZ < Qabs DeltaY)
  /\ (a = AxisZ <-> Qabs DeltaX <= Qabs DeltaZ /\ Qabs DeltaY <= Qabs DeltaZ).
Proof.
  unfold ChooseAxis.
  destruct (Qlt_bool_spec (Qabs DeltaY) (Qabs DeltaX)) as [Hyx|Hyx];
    [destruct (Qlt_bool_spec (Qabs DeltaZ) (Qabs DeltaX)) as [Hzx|Hzx]
    |destruct (Qlt_bool_spec (Qabs DeltaZ) (Qabs DeltaY)) as [Hzy|Hzy]];
    cbn [fst pick];
    (split; [repeat split; lra|]);
    repeat split; intros; try discriminate; try lra;
    try (exfalso; lra).
Qed.

(** C5, the claim as written fails: with [|DeltaX| = |DeltaY|] above
    [|DeltaZ|] the code links along Y, where X before Y is claimed. *)
Lemma ChooseAxis_tie_XY_counterexample :
  fst (ChooseAxis 1 1 0) = AxisY /\ ChooseAxis_spec 1 1 0 = AxisX
  /\ fst (ChooseAxis 1 1 0) <> ChooseAxis_spec 1 1 0.
Proof. vm_compute. repeat split; discriminate. Qed.

(** ** Arrays, nodes and the heap *)

Lemma get_set_slot (a : Neighbors) (j : nat) (v : option ref) (i : nat) :
  get_slot (set_slot a j v) i = if same_index i j then v else get_slot a i.
Proof. destruct i, j; reflexivity. Qed.

Lemma Neighbor_set_Neighbor (N : GridNode) (a : Axis) (j : nat) (v : option ref)
    (a' : Axis) :
  Neighbor (set_Neighbor N a j v) a'
  = if decide (a' = a) then set_slot (Neighbor N a) j v else Neighbor N a'.
Proof. destruct a, a'; reflexivity. Qed.

Lemma data_set_Neighbor (N : GridNode) (a : Axis) (j : nat) (v : option ref) :
  data (set_Neighbor N a j v) = data N.
Proof. destruct a; reflexivity. Qed.

Lemma EV_on_data (a : Axis) (N N' : GridNode) :
  data N = data N' -> EV_on a N = EV_on a N'.
Proof. unfold data. intros [= _ Hx Hy Hz]. destruct a; assumption. Qed.

Lemma Delta_data (a : Axis) (P P' U U' : GridNode) :
  data P = data P' -> data U = data U' -> Delta a P U = Delta a P' U'.
Proof.
  intros HP HU. unfold Delta.
  now rewrite (EV_on_data a _ _ HP), (EV_on_data a _ _ HU).
Qed.

Lemma Target_data (P P' U U' : GridNode) :
  data P = data P' -> data U = data U' -> Target P U = Target P' U'.
Proof.
  intros HP HU. unfold Target.
  now rewrite !(Delta_data _ _ _ _ _ HP HU).
Qed.

(** The slot of a node after one of its slots is written. *)
Lemma get_slot_set_Neighbor (N : GridNode) (a : Axis) (j : nat) (v : option ref)
    (a' : Axis) (i : nat) :
  get_slot (Neighbor (set_Neighbor N a j v) a') i
  = if decide (a' = a) then (if same_index i j then v else get_slot (Neighbor N a') i)
    else get_slot (Neighbor N a') i.
Proof.
  rewrite Neighbor_set_Neighbor. destruct (decide (a' = a)) as [->|]; [|reflexivity].
  apply get_set_slot.
Qed.

Lemma slot_insert_ne (heap : Heap) (n : ref) (N' : GridNode) (m : ref) (a : Axis)
    (i : nat) :
  m <> n -> slot (<[n := N']> heap) m a i = slot heap m a i.
Proof. intros Hne. unfold slot. now rewrite list_lookup_insert_ne. Qed.

Lemma slot_insert_eq (heap : Heap) (n : ref) (N N' : GridNode) (a : Axis) (i : nat) :
  heap !! n = Some N ->
  slot (<[n := N']> heap) n a i = get_slot (Neighbor N' a) i.
Proof.
  intros Hn. unfold slot. rewrite list_lookup_insert_eq; [reflexivity|].
  now apply lookup_lt_Some in Hn.
Qed.

Lemma deref_Some (heap : Heap) (r : ref) (N : GridNode) :
  heap !! r = Some N -> deref heap r = Ok N.
Proof. unfold deref. now intros ->. Qed.

Lemma deref_Ok (heap : Heap) (r : ref) (N : GridNode) :
  deref heap r = Ok N -> heap !! r = Some N.
Proof. unfold deref. destruct (heap !! r); now intros [= ->]. Qed.

(** ** [List<T>.Remove] *)

Lemma Remove_notin (x : ref) (l : list ref) : x ∉ l -> Remove x l = l.
Proof.
  induction l as [|y l IH]; [reflexivity|]. intros Hx. cbn.
  destruct (Nat.eqb_spec y x) as [->|Hne].
  - exfalso. apply Hx. left.
  - f_equal. apply IH. intros H. apply Hx. now right.
Qed.

Lemma elem_of_Remove (x u : ref) (l : list ref) :
  NoDup l -> x ∈ Remove u l <-> x ∈ l /\ x <> u.
Proof.
  induction 1 as [|y l Hy Hnd IH]; cbn.
  - split; [intros H; inversion H|intros [H _]; inversion H].
  - destruct (Nat.eqb_spec y u) as [->|Hne].
    + split.
      * intros Hx. split; [now right|]. intros ->. contradiction.
      * intros [Hx Hxu]. apply elem_of_cons in Hx as [->|Hx]; [contradiction|assumption].
    + rewrite !elem_of_cons, IH. split.
      * intros [->|[Hx Hxu]]; [split; [now left|assumption]|split; [now right|assumption]].
      * intros [[->|Hx] Hxu]; [now left|right; now split].
Qed.

Lemma NoDup_Remove (u : ref) (l : list ref) : NoDup l -> NoDup (Remove u l).
Proof.
  induction 1 as [|y l Hy Hnd IH]; cbn; [constructor|].
  destruct (Nat.eqb_spec y u) as [->|Hne]; [assumption|].
  constructor; [|assumption].
  intros H. apply (elem_of_Remove _ _ _ Hnd) in H as [H _]. contradiction.
Qed.

Lemma length_Remove (u : ref) (l : list ref) :
  u ∈ l -> S (length (Remove u l)) = length l.
Proof.
  induction l as [|y l IH]; [intros H; inversion H|]. cbn.
  destruct (Nat.eqb_spec y u) as [->|Hne]; [reflexivity|].
  intros H. apply elem_of_cons in H as [->|H]; [congruence|].
  cbn. f_equal. now apply IH.
Qed.

(** ** The nearest-pair scan *)

Lemma ScanUnPlaced_from (heap : Heap) (root : ref) (R : GridNode) (G : list ref)
    (Best : BestPair) :
  heap !! root = Some R ->
  (forall u, u ∈ G -> exists U, heap !! u = Some U) ->
  exists b, ScanUnPlaced heap root G Best = Ok b
    /\ match b with
       | None =>
           Best = None
           /\ forall u U, u ∈ G -> heap !! u = Some U ->
                ~ SqDistance R U < float_MaxValue
       | Some (d, p, u) => Best = Some (d, p, u) \/ (p = root /\ u ∈ G)
       end.
Proof.
  intros HR. revert Best.
  induction G as [|u G IH]; intros Best HG; cbn.
  - exists Best. split; [reflexivity|]. destruct Best as [[[d p] u]|]; [auto|].
    split; [reflexivity|]. intros u U Hu. inversion Hu.
  - destruct (HG u ltac:(left)) as [U HU].
    rewrite (deref_Some _ _ _ HR), (deref_Some _ _ _ HU). cbn.
    destruct (IH (if closer (SqDistance R U) Best
                  then Some (SqDistance R U, root, u) else Best)) as (b & Hb & Hspec).
    { intros v Hv. apply HG. now right. }
    exists b. split; [exact Hb|].
    destruct b as [[[d p] v]|].
    + destruct Hspec as [Hspec|[-> Hv]].
      * destruct (closer (SqDistance R U) Best).
        -- injection Hspec as <- <- <-. right. split; [reflexivity|left].
        -- now left.
      * right. split; [reflexivity|now right].
    + destruct Hspec as [Hnone Hfar].
      destruct (closer (SqDistance R U) Best) eqn:Hc; [discriminate|].
      subst Best. split; [reflexivity|].
      intros v V Hv HV. apply elem_of_cons in Hv as [->|Hv].
      * assert (V = U) as -> by congruence.
        cbn in Hc. intros Hlt. apply Qlt_bool_iff in Hlt. congruence.
      * now apply (Hfar v V).
Qed.

(** With the root as the only placed node, the scan finds a pair of the
    root and an unplaced node, or it leaves the pair [null]: then no
    unplaced node is at a squared distance below [float.MaxValue]. *)
Lemma ScanPlaced_root (heap : Heap) (root : ref) (R : GridNode) (G : list ref) :
  heap !! root = Some R ->
  (forall u, u ∈ G -> exists U, heap !! u = Some U) ->
  (exists d u, ScanPlaced heap [root] G None = Ok (Some (d, root, u)) /\ u ∈ G)
  \/ (ScanPlaced heap [root] G None = Ok None
      /\ forall u U, u ∈ G -> heap !! u = Some U ->
           ~ SqDistance R U < float_MaxValue).
Proof.
  intros HR HG. cbn.
  destruct (ScanUnPlaced_from heap root R G None HR HG) as (b & -> & Hspec). cbn.
  destruct b as [[[d p] u]|].
  - left. destruct Hspec as [[=]|[-> Hu]]. now exists d, u.
  - right. split; [reflexivity|]. exact (proj2 Hspec).
Qed.

(** ** One turn of the construction loop *)

Lemma ChooseAxis_index (dx dy dz : Q) :
  snd (ChooseAxis dx dy dz) = 0%nat \/ snd (ChooseAxis dx dy dz) = 1%nat.
Proof.
  unfold ChooseAxis.
  repeat match goal with |- context [if ?b then _ else _] => destruct b end;
    cbn; auto.
Qed.

Lemma PlaceStep_cases (root : ref) (heap : Heap) (G : list ref) :
  GridInv root heap G ->
  (PlaceStep heap [root] G = Throw NullReference
   /\ exists R, heap !! root = Some R
        /\ forall u U, u ∈ G -> heap !! u = Some U ->
             ~ SqDistance R U < float_MaxValue)
  \/ exists u R U,
    u ∈ G /\ u <> root /\ heap !! root = Some R /\ heap !! u = Some U /\ untouched U
    /\ PlaceStep heap [root] G
       = match get_slot (Neighbor R (fst (Target R U))) (snd (Target R U)) with
         | Some _ => Throw DuplicateNeighbor
         | None => Ok (linked heap root u R U, Remove u G)
         end.
Proof.
  intros Inv.
  destruct (lookup_lt_is_Some_2 heap root (inv_root _ _ _ Inv)) as [R HR].
  assert (HG : forall u, u ∈ G -> exists U, heap !! u = Some U).
  { intros u Hu. destruct (inv_unplaced _ _ _ Inv u Hu) as (U & HU & _). eauto. }
  destruct (ScanPlaced_root heap root R G HR HG)
    as [(d & u & Hscan & Hu)|[Hscan Hfar]].
  2:{ left. split; [|now exists R]. unfold PlaceStep. now rewrite Hscan. }
  right.
  destruct (inv_unplaced _ _ _ Inv u Hu) as (U & HU & Hfresh).
  assert (Hur : u <> root).
  { intros ->. exact (inv_root_placed _ _ _ Inv Hu). }
  exists u, R, U. repeat (split; [assumption|]).
  unfold PlaceStep. rewrite Hscan. cbn.
  rewrite (deref_Some _ _ _ HR), (deref_Some _ _ _ HU). cbn.
  change (ChooseAxis _ _ _) with (Target R U). destruct (Target R U) as [axis LeftRight] eqn:HT. cbn [fst snd].
  destruct (get_slot (Neighbor R axis) LeftRight); [reflexivity|].
  rewrite (deref_Some _ _ U).
  - cbn. unfold linked. rewrite HT. reflexivity.
  - rewrite list_lookup_insert_ne; [assumption|congruence].
Qed.

(** ** The heap after a link *)

Lemma get_slot_same_index (a : Neighbors) (i j : nat) :
  same_index i j = true -> get_slot a i = get_slot a j.
Proof. destruct i, j; cbn; congruence. Qed.

Lemma same_index_opposite (i j : nat) :
  same_index i (1 - j) = negb (same_index i j).
Proof. destruct i, j; reflexivity. Qed.

Section Linked.
Variables (heap : Heap) (root u : ref) (R U : GridNode).
Hypothesis HR : heap !! root = Some R.
Hypothesis HU : heap !! u = Some U.
Hypothesis Hur : u <> root.

Lemma length_linked : length (linked heap root u R U) = length heap.
Proof. unfold linked. now rewrite !length_insert. Qed.

Lemma lookup_linked_other (n : ref) :
  n <> u -> n <> root -> linked heap root u R U !! n = heap !! n.
Proof.
  intros Hnu Hnr. unfold linked.
  rewrite !list_lookup_insert_ne; [reflexivity|congruence|congruence].
Qed.

Lemma lookup_linked_root :
  linked heap root u R U !! root
  = Some (set_Neighbor R (fst (Target R U)) (snd (Target R U)) (Some u)).
Proof.
  unfold linked. rewrite list_lookup_insert_ne by congruence.
  apply list_lookup_insert_eq. now apply lookup_lt_Some in HR.
Qed.

Lemma lookup_linked_unplaced :
  linked heap root u R U !! u
  = Some (set_Neighbor U (fst (Target R U)) (1 - snd (Target R U)) (Some root)).
Proof.
  unfold linked. apply list_lookup_insert_eq.
  rewrite length_insert. now apply lookup_lt_Some in HU.
Qed.

(** Every slot of the heap after the link, in terms of the heap before. *)
Lemma slot_linked (n : ref) (a : Axis) (i : nat) :
  slot (linked heap root u R U) n a i
  = if decide (n = u) then
      if decide (a = fst (Target R U)) then
        if same_index i (snd (Target R U)) then get_slot (Neighbor U a) i
        else Some root
      else get_slot (Neighbor U a) i
    else if decide (n = root) then
      if decide (a = fst (Target R U)) then
        if same_index i (snd (Target R U)) then Some u
        else get_slot (Neighbor R a) i
      else get_slot (Neighbor R a) i
    else slot heap n a i.
Proof.
  unfold slot at 1.
  destruct (decide (n = u)) as [->|Hnu].
  - rewrite lookup_linked_unplaced, get_slot_set_Neighbor.
    destruct (decide (a = fst (Target R U))); [|reflexivity].
    rewrite same_index_opposite. now destruct (same_index i (snd (Target R U))).
  - destruct (decide (n = root)) as [->|Hnr].
    + rewrite lookup_linked_root, get_slot_set_Neighbor.
      destruct (decide (a = fst (Target R U))); reflexivity.
    + now rewrite lookup_linked_other.
Qed.

(** A link changes no node's calibration and EV. *)
Lemma data_linked (n : ref) (N' : GridNode) :
  linked heap root u R U !! n = Some N' ->
  exists N, heap !! n = Some N /\ data N' = data N.
Proof.
  destruct (decide (n = u)) as [->|Hnu].
  - rewrite lookup_linked_unplaced. intros [= <-].
    exists U. split; [assumption|apply data_set_Neighbor].
  - destruct (decide (n = root)) as [->|Hnr].
    + rewrite lookup_linked_root. intros [= <-].
      exists R. split; [assumption|apply data_set_Neighbor].
    + rewrite lookup_linked_other by assumption. intros H. now exists N'.
Qed.

Lemma data_linked_inv (n : ref) (N : GridNode) :
  heap !! n = Some N ->
  exists N', linked heap root u R U !! n = Some N' /\ data N' = data N.
Proof.
  intros HN.
  destruct (decide (n = u)) as [->|Hnu].
  - rewrite lookup_linked_unplaced. eexists. split; [reflexivity|].
    rewrite data_set_Neighbor. congruence.
  - destruct (decide (n = root)) as [->|Hnr].
    + rewrite lookup_linked_root. eexists. split; [reflexivity|].
      rewrite data_set_Neighbor. congruence.
    + rewrite lookup_linked_other by assumption. now exists N.
Qed.

Hypothesis Hfresh : untouched U.
Hypothesis Hfree : get_slot (Neighbor R (fst (Target R U))) (snd (Target R U)) = None.

(** A link overwrites no slot: a slot that is set keeps its value. *)
Lemma slot_linked_kept (n : ref) (a : Axis) (i : nat) (v : ref) :
  slot heap n a i = Some v -> slot (linked heap root u R U) n a i = Some v.
Proof.
  intros Hs. rewrite slot_linked. unfold slot in Hs.
  destruct (decide (n = u)) as [->|Hnu].
  - rewrite HU, Hfresh in Hs. discriminate.
  - destruct (decide (n = root)) as [->|Hnr]; [|exact Hs].
    rewrite HR in Hs.
    destruct (decide (a = fst (Target R U))) as [->|]; [|exact Hs].
    destruct (same_index i (snd (Target R U))) eqn:E; [|exact Hs].
    rewrite (get_slot_same_index _ _ _ E), Hfree in Hs. discriminate.
Qed.

(** The slots a link changes were empty. *)
Lemma slot_linked_changed (n : ref) (a : Axis) (i : nat) :
  slot (linked heap root u R U) n a i <> slot heap n a i ->
  slot heap n a i = None.
Proof.
  intros Hne. destruct (slot heap n a i) as [v|] eqn:Hs; [|reflexivity].
  exfalso. apply Hne. now apply slot_linked_kept.
Qed.
End Linked.

(** ** The invariant of the construction loop *)

Lemma GridInv_linked (root : ref) (heap : Heap) (G : list ref) (u : ref)
    (R U : GridNode) :
  GridInv root heap G ->
  u ∈ G -> heap !! root = Some R -> heap !! u = Some U -> untouched U ->
  get_slot (Neighbor R (fst (Target R U))) (snd (Target R U)) = None ->
  GridInv root (linked heap root u R U) (Remove u G).
Proof.
  intros Inv Hu HR HU Hfresh Hfree.
  assert (Hur : u <> root).
  { intros ->. exact (inv_root_placed _ _ _ Inv Hu). }
  pose proof (inv_nodup _ _ _ Inv) as Hnd.
  split.
  - rewrite length_linked. apply (inv_root _ _ _ Inv).
  - intros H. apply (elem_of_Remove _ _ _ Hnd) in H as [H _].
    exact (inv_root_placed _ _ _ Inv H).
  - now apply NoDup_Remove.
  - intros v Hv. apply (elem_of_Remove _ _ _ Hnd) in Hv as [Hv Hvu].
    destruct (inv_unplaced _ _ _ Inv v Hv) as (V & HV & HVf).
    exists V. split; [|assumption].
    rewrite lookup_linked_other; [assumption|assumption|].
    intros ->. exact (inv_root_placed _ _ _ Inv Hv).
  - intros n a i v. rewrite (slot_linked heap root u R U HR HU Hur).
    rewrite length_linked.
    assert (Hroot := inv_root _ _ _ Inv).
    assert (Hul : (u < length heap)%nat) by now apply lookup_lt_Some in HU.
    specialize (Hfresh a i).
    pose proof (inv_refs _ _ _ Inv root a i v) as Hrefs_root.
    unfold slot in Hrefs_root. rewrite HR in Hrefs_root.
    repeat case_decide; subst;
      try destruct (same_index i (snd (Target R U)));
      intros Hsl; try (injection Hsl as <-; assumption);
      try (rewrite Hfresh in Hsl; discriminate);
      try (now apply Hrefs_root);
      try (now apply (inv_refs _ _ _ Inv) in Hsl).
  - intros a v. rewrite (slot_linked heap root u R U HR HU Hur).
    destruct (decide (root = u)) as [E|_]; [congruence|].
    rewrite decide_True by reflexivity.
    intros Hv.
    assert (Hnew : v = u \/ slot heap root a 1 = Some v).
    { unfold slot. rewrite HR.
      destruct (decide (a = fst (Target R U))); [|now right].
      destruct (same_index 1 (snd (Target R U))); [left; congruence|now right]. }
    destruct Hnew as [->|Hold].
    + (* the new neighbor *)
      assert (Ha : a = fst (Target R U) /\ same_index 1 (snd (Target R U)) = true).
      { destruct (decide (a = fst (Target R U))) as [->|Hna].
        - split; [reflexivity|].
          destruct (same_index 1 (snd (Target R U))) eqn:E; [reflexivity|].
          exfalso. pose proof (inv_star _ _ _ Inv (fst (Target R U)) u) as Hst.
          unfold slot in Hst at 1. rewrite HR in Hst.
          destruct (Hst Hv) as (_ & Hback & _).
          unfold slot in Hback. rewrite HU, Hfresh in Hback. discriminate.
        - exfalso. pose proof (inv_star _ _ _ Inv a u) as Hst.
          unfold slot in Hst at 1. rewrite HR in Hst.
          destruct (Hst Hv) as (_ & Hback & _).
          unfold slot in Hback. rewrite HU, Hfresh in Hback. discriminate. }
      destruct Ha as [-> HLR].
      split; [assumption|]. split.
      * rewrite (slot_linked heap root u R U HR HU Hur).
        rewrite !decide_True by reflexivity.
        destruct (snd (Target R U)); [discriminate|reflexivity].
      * intros a'. rewrite (slot_linked heap root u R U HR HU Hur).
        rewrite decide_True by reflexivity.
        destruct (decide (a' = fst (Target R U))); [|apply Hfresh].
        rewrite HLR. apply Hfresh.
    + destruct (inv_star _ _ _ Inv a v Hold) as (Hvr & Hback & Hnext).
      assert (Hvu : v <> u).
      { intros ->. unfold slot in Hback. rewrite HU, Hfresh in Hback. discriminate. }
      split; [assumption|]. split.
      * rewrite (slot_linked heap root u R U HR HU Hur).
        now rewrite !decide_False by assumption.
      * intros a'. rewrite (slot_linked heap root u R U HR HU Hur).
        rewrite !decide_False by assumption. apply Hnext.
Qed.

(** ** Loading the calibration files *)

Lemma untouched_new_GridNode (Log : Q -> Q) (CC : CameraCalibration) :
  untouched (new_GridNode Log CC).
Proof. intros a i. destruct a, i; reflexivity. Qed.

Lemma made_by_new_GridNode (Log : Q -> Q) (CC : CameraCalibration) :
  valid_file CC = true -> made_by Log (new_GridNode Log CC).
Proof.
  intros Hv. split; [reflexivity|].
  cbn. now apply Nat.eqb_eq in Hv.
Qed.

Lemma LoadFile_Loaded (Log : Q -> Q) (st : LoadState) (CC : CameraCalibration) :
  Loaded Log st ->
  exists st', LoadFile Log st CC = Ok st' /\ Loaded Log st'
    /\ ld_Heap st'
       = ld_Heap st ++ (if valid_file CC then [new_GridNode Log CC] else []).
Proof.
  intros L. unfold LoadFile. fold (valid_file CC).
  destruct (valid_file CC) eqn:Hv; cbn [negb].
  - assert (Hnew : (ld_Heap st ++ [new_GridNode Log CC]) !! length (ld_Heap st)
                   = Some (new_GridNode Log CC)).
    { rewrite lookup_app_r by lia. now rewrite Nat.sub_diag. }
    rewrite (deref_Some _ _ _ Hnew). cbn [bind].
    assert (Hroot : exists better,
      match ld_RootNode st with
      | Some root =>
          letR R := deref (ld_Heap st ++ [new_GridNode Log CC]) root in
          Ok (Qlt_bool (EV (new_GridNode Log CC)) (EV R))
      | None => Ok true
      end = Ok better
      /\ (ld_RootNode st = None -> better = true)).
    { pose proof (ld_root _ _ L) as Hr. destruct (ld_RootNode st) as [root|].
      - destruct (lookup_lt_is_Some_2 (ld_Heap st) root Hr) as [R HR].
        rewrite (deref_Some _ _ R) by (now apply lookup_app_l_Some).
        cbn. eexists. split; [reflexivity|discriminate].
      - exists true. split; reflexivity. }
    destruct Hroot as (better & -> & Hbetter). cbn [bind].
    eexists. split; [reflexivity|]. split; [|reflexivity].
    split; cbn.
    + rewrite (ld_nodes _ _ L), length_app. cbn.
      rewrite Nat.add_1_r, seq_S. reflexivity.
    + intros n N HN. apply lookup_app_Some in HN as [HN|[_ HN]].
      * exact (ld_fresh _ _ L n N HN).
      * destruct (n - length (ld_Heap st))%nat; [|discriminate].
        injection HN as <-. split.
        -- apply untouched_new_GridNode.
        -- now apply made_by_new_GridNode.
    + pose proof (ld_root _ _ L) as Hr. rewrite length_app. cbn.
      destruct better.
      * lia.
      * destruct (ld_RootNode st) as [root|]; [lia|].
        specialize (Hbetter eq_refl). discriminate.
    + rewrite (ld_calibrations _ _ L), map_app. reflexivity.
  - eexists. split; [reflexivity|]. split; [|cbn; now rewrite app_nil_r].
    destruct L as [L1 L2 L3 L4]. split; assumption.
Qed.

Lemma LoadFiles_Loaded (Log : Q -> Q) (files : list CameraCalibration)
    (st : LoadState) :
  Loaded Log st ->
  exists st', LoadFiles Log st files = Ok st' /\ Loaded Log st'
    /\ ld_Heap st'
       = ld_Heap st ++ map (new_GridNode Log) (List.filter valid_file files).
Proof.
  revert st. induction files as [|CC files IH]; intros st L; cbn [LoadFiles].
  - exists st. split; [reflexivity|]. split; [assumption|].
    cbn. now rewrite app_nil_r.
  - destruct (LoadFile_Loaded Log st CC L) as (st1 & -> & L1 & H1). cbn [bind].
    destruct (IH st1 L1) as (st2 & -> & L2 & H2).
    exists st2. split; [reflexivity|]. split; [assumption|].
    rewrite H2, H1. cbn [List.filter].
    destruct (valid_file CC); cbn; now rewrite <- app_assoc.
Qed.

Lemma Loaded_start (Log : Q -> Q) : Loaded Log load_start.
Proof.
  split; cbn; try reflexivity. intros n N H. discriminate.
Qed.

(** The state in which the construction loop is entered satisfies the
    invariant, and all its nodes are as their constructor made them. *)
Lemma LoopEntry_inv (Log : Q -> Q) (files : list CameraCalibration)
    (root : ref) (heap : Heap) (G : list ref) :
  LoopEntry Log files = Some (root, heap, G) ->
  GridInv root heap G
  /\ heap = map (new_GridNode Log) (List.filter valid_file files)
  /\ (forall n N, heap !! n = Some N -> untouched N /\ made_by Log N).
Proof.
  unfold LoopEntry.
  destruct (LoadFiles_Loaded Log files load_start (Loaded_start Log))
    as (st & -> & L & Hheap).
  pose proof (ld_root _ _ L) as Hr.
  destruct (ld_RootNode st) as [r|]; [|discriminate].
  intros [= <- <- <-].
  assert (Hnd : NoDup (ld_GridNodes st)).
  { rewrite (ld_nodes _ _ L). apply NoDup_seq. }
  split; [|split; [exact Hheap|exact (ld_fresh _ _ L)]].
  split.
  - exact Hr.
  - intros H. apply (elem_of_Remove _ _ _ Hnd) in H as [_ H]. congruence.
  - now apply NoDup_Remove.
  - intros u Hu. apply (elem_of_Remove _ _ _ Hnd) in Hu as [Hu _].
    rewrite (ld_nodes _ _ L) in Hu. apply elem_of_seq in Hu.
    destruct (lookup_lt_is_Some_2 (ld_Heap st) u) as [U HU]; [lia|].
    exists U. split; [assumption|]. exact (proj1 (ld_fresh _ _ L u U HU)).
  - intros n a i v. unfold slot.
    destruct (ld_Heap st !! n) as [N|] eqn:HN; [|discriminate].
    rewrite (proj1 (ld_fresh _ _ L n N HN)). discriminate.
  - intros a v. unfold slot.
    destruct (ld_Heap st !! r) as [N|] eqn:HN; [|discriminate].
    rewrite (proj1 (ld_fresh _ _ L r N HN)). discriminate.
Qed.

(** What the setter does on a new database, in terms of the loop. *)
Lemma load_built (Log : Q -> Q) (files : list CameraCalibration)
    (root : ref) (heap : Heap) (G : list ref) :
  LoopEntry Log files = Some (root, heap, G) ->
  let db := fst (load Log files) in
  m_RootNode db = Some root
  /\ m_Heap db = fst (BuildLoop (length G) heap [root] G)
  /\ snd (load Log files) = snd (BuildLoop (length G) heap [root] G)
  /\ m_InterpolatedCalibration db = None
  /\ m_PreparedForISOSpeed db = 0 /\ m_PreparedForShutterSpeed db = 0
  /\ m_PreparedForAperture db = 0
  /\ m_CameraClibrations db = List.filter valid_file files.
Proof.
  unfold LoopEntry, load, set_DatabasePath. cbn.
  change {| ld_RootNode := None; ld_ErrorLog := [];
            ld_CameraCalibrations := []; ld_GridNodes := [];
            ld_Heap := [] |} with load_start.
  destruct (LoadFiles_Loaded Log files load_start (Loaded_start Log))
    as (st & -> & L & Hheap).
  pose proof (ld_root _ _ L) as Hr.
  destruct (ld_RootNode st) as [r|] eqn:Hroot; [|discriminate].
  intros [= <- <- <-].
  assert (Hlen : Nat.eqb (length (ld_CameraCalibrations st)) 0 = false).
  { rewrite (ld_calibrations _ _ L), length_map. apply Nat.eqb_neq. lia. }
  rewrite Hlen. cbn. try rewrite Hroot.
  destruct (BuildLoop _ _ _ _) as [h' outcome]. cbn.
  repeat split; try reflexivity.
  rewrite (ld_calibrations _ _ L), Hheap. cbn.
  rewrite map_map. cbn. now rewrite map_id.
Qed.

Lemma load_empty (Log : Q -> Q) (files : list CameraCalibration) :
  LoopEntry Log files = None ->
  m_RootNode (fst (load Log files)) = None
  /\ snd (load Log files) = Ok tt
  /\ List.filter valid_file files = [].
Proof.
  unfold LoopEntry, load, set_DatabasePath. cbn.
  change {| ld_RootNode := None; ld_ErrorLog := [];
            ld_CameraCalibrations := []; ld_GridNodes := [];
            ld_Heap := [] |} with load_start.
  destruct (LoadFiles_Loaded Log files load_start (Loaded_start Log))
    as (st & -> & L & Hheap).
  pose proof (ld_root _ _ L) as Hr.
  destruct (ld_RootNode st) as [r|] eqn:Hroot; [discriminate|].
  intros _.
  assert (Hlen : Nat.eqb (length (ld_CameraCalibrations st)) 0 = true).
  { rewrite (ld_calibrations _ _ L), Hr. reflexivity. }
  rewrite Hlen. cbn. try rewrite Hroot. repeat split.
  rewrite Hr in Hheap. cbn in Hheap.
  destruct (List.filter valid_file files); [reflexivity|discriminate].
Qed.

(** ** The construction loop *)

Lemma GridInv_nonempty_step (root : ref) (heap : Heap) (G : list ref) :
  GridInv root heap G ->
  PlaceStep heap [root] G = Throw DuplicateNeighbor
  \/ (PlaceStep heap [root] G = Throw NullReference
      /\ exists R, heap !! root = Some R
           /\ forall u U, u ∈ G -> heap !! u = Some U ->
                ~ SqDistance R U < float_MaxValue)
  \/ exists u R U,
       u ∈ G /\ u <> root /\ heap !! root = Some R /\ heap !! u = Some U
       /\ untouched U
       /\ get_slot (Neighbor R (fst (Target R U))) (snd (Target R U)) = None
       /\ PlaceStep heap [root] G = Ok (linked heap root u R U, Remove u G)
       /\ GridInv root (linked heap root u R U) (Remove u G).
Proof.
  intros Inv.
  destruct (PlaceStep_cases root heap G Inv)
    as [Hnull|(u & R & U & Hu & Hur & HR & HU & Hfresh & Hstep)].
  { right. now left. }
  destruct (get_slot (Neighbor R (fst (Target R U))) (snd (Target R U))) eqn:Hfree.
  - now left.
  - right. right. exists u, R, U. repeat (split; [assumption|]).
    now apply GridInv_linked.
Qed.

(** The loop is left within [length GridNodes] turns: normally, by the
    duplicate-neighbor exception, or by the null reference of a turn whose
    scan has found no pair; the heap it leaves satisfies the invariant,
    holds the same calibrations and EVs, and has kept every slot that was
    set. *)
Lemma BuildLoop_spec (root : ref) (fuel : nat) :
  forall (heap : Heap) (G : list ref),
  GridInv root heap G -> (length G <= fuel)%nat ->
  let h' := fst (BuildLoop fuel heap [root] G) in
  let outcome := snd (BuildLoop fuel heap [root] G) in
  (outcome = Ok tt \/ outcome = Throw DuplicateNeighbor
   \/ outcome = Throw NullReference)
  /\ (exists G', GridInv root h' G')
  /\ length h' = length heap
  /\ (forall n N', h' !! n = Some N' ->
        exists N, heap !! n = Some N /\ data N' = data N)
  /\ (forall n a i v, slot heap n a i = Some v -> slot h' n a i = Some v).
Proof.
  induction fuel as [|fuel IH]; intros heap G Inv Hlen.
  - destruct G; [|cbn in Hlen; lia]. cbn.
    split; [now left|]. split; [now exists []|]. split; [reflexivity|].
    split; [intros n N' H; now exists N'|auto].
  - destruct G as [|g G'] eqn:HG.
    { cbn. split; [now left|]. split; [now exists []|]. split; [reflexivity|].
      split; [intros n N' H; now exists N'|auto]. }
    rewrite <- HG in *.
    assert (Hunfold : BuildLoop (S fuel) heap [root] G
              = match PlaceStep heap [root] G with
                | Ok (heap', GridNodes') => BuildLoop fuel heap' [root] GridNodes'
                | Throw e => (heap, Throw e)
                | Stuck => (heap, Stuck)
                end).
    { rewrite HG. reflexivity. }
    rewrite Hunfold. clear Hunfold.
    destruct (GridInv_nonempty_step root heap G Inv)
      as [->|[[-> _]|(u & R & U & Hu & Hur & HR & HU & Hfresh & Hfree & -> & Inv')]].
    + cbn. split; [right; now left|]. split; [now exists G|]. split; [reflexivity|].
      split; [intros n N' H; now exists N'|auto].
    + cbn. split; [right; now right|]. split; [now exists G|]. split; [reflexivity|].
      split; [intros n N' H; now exists N'|auto].
    + assert (Hlen' : (length (Remove u G) <= fuel)%nat).
      { pose proof (length_Remove u G Hu). lia. }
      destruct (IH _ _ Inv' Hlen') as (Hout & HInv & Hl & Hdata & Hkept).
      split; [exact Hout|]. split; [exact HInv|].
      split; [now rewrite Hl, length_linked|]. split.
      * intros n N' HN'. destruct (Hdata n N' HN') as (N1 & HN1 & Hd1).
        destruct (data_linked heap root u R U HR HU Hur n N1 HN1) as (N & HN & Hd).
        exists N. split; [assumption|congruence].
      * intros n a i v Hs. apply Hkept.
        now apply (slot_linked_kept heap root u R U HR HU Hur Hfresh Hfree).
Qed.

(** [k] turns that succeed keep the invariant and take [k] nodes off the
    unplaced list. *)
Lemma Turns_inv (root : ref) (k : nat) :
  forall (heap : Heap) (G : list ref) (h : Heap) (G1 : list ref),
  GridInv root heap G -> Turns k heap [root] G = Ok (h, G1) ->
  GridInv root h G1 /\ (length G1 + k = length G)%nat
  /\ (forall fuel, (length G <= fuel)%nat ->
        BuildLoop fuel heap [root] G = BuildLoop (fuel - k) h [root] G1).
Proof.
  induction k as [|k IH]; intros heap G h G1 Inv; cbn [Turns].
  - intros [= <- <-]. split; [assumption|]. split; [lia|].
    intros fuel _. now rewrite Nat.sub_0_r.
  - destruct G as [|g G'] eqn:HG.
    { unfold PlaceStep. cbn. discriminate. }
    rewrite <- HG in *.
    destruct (GridInv_nonempty_step root heap G Inv)
      as [->|[[-> _]|(u & R & U & Hu & Hur & HR & HU & Hfresh & Hfree & Hstep & Inv')]].
    { cbn. discriminate. }
    { cbn. discriminate. }
    rewrite Hstep. cbn [bind fst snd]. intros HT.
    destruct (IH _ _ _ _ Inv' HT) as (HInv & Hl & Hloop).
    pose proof (length_Remove u G Hu) as HlR.
    split; [assumption|]. split; [lia|].
    intros fuel Hfuel. destruct fuel as [|fuel]; [lia|].
    replace (BuildLoop (S fuel) heap [root] G)
      with (BuildLoop fuel (linked heap root u R U) [root] (Remove u G)).
    + rewrite Hloop by lia. reflexivity.
    + rewrite HG at 2. cbn [BuildLoop]. rewrite <- HG, Hstep. reflexivity.
Qed.

(** ** No slot is overwritten (C6) *)

(** C6: at every turn of the construction loop of the setter (after any
    number [k] of turns from the entry of the loop), if the slot of the
    placed node that the turn is about to write is occupied, the turn and
    with it the setter throw the duplicate-neighbor exception; a turn that
    succeeds keeps the value of every slot that was set and changes only
    slots that were empty; and every slot set at that point still has its
    value in the heap the setter leaves.  So no slot is assigned twice. *)
Theorem set_slot_never_overwritten (Log : Q -> Q) (files : list CameraCalibration)
    (root : ref) (heap0 : Heap) (G0 : list ref) (k : nat) (h : Heap)
    (G : list ref) :
  LoopEntry Log files = Some (root, heap0, G0) ->
  Turns k heap0 [root] G0 = Ok (h, G) ->
  (forall d p u P U,
      ScanPlaced h [root] G None = Ok (Some (d, p, u)) ->
      h !! p = Some P -> h !! u = Some U ->
      get_slot (Neighbor P (fst (Target P U))) (snd (Target P U)) <> None ->
      PlaceStep h [root] G = Throw DuplicateNeighbor
      /\ snd (load Log files) = Throw DuplicateNeighbor)
  /\ (forall h' G',
      PlaceStep h [root] G = Ok (h', G') ->
      (forall n a i v, slot h n a i = Some v -> slot h' n a i = Some v)
      /\ (forall n a i, slot h' n a i <> slot h n a i -> slot h n a i = None))
  /\ (forall n a i v,
      slot h n a i = Some v ->
      slot (m_Heap (fst (load Log files))) n a i = Some v).
Proof.
  intros Hentry HT.
  destruct (LoopEntry_inv Log files root heap0 G0 Hentry) as (Inv0 & _ & _).
  destruct (load_built Log files root heap0 G0 Hentry)
    as (_ & Hheap & Hout & _).
  destruct (Turns_inv root k heap0 G0 h G Inv0 HT) as (Inv & Hlen & Hloop).
  rewrite Hheap, Hout, (Hloop (length G0)) by lia.
  split; [|split].
  - intros d p u P U Hscan HP HU Hocc.
    assert (Hstep : PlaceStep h [root] G = Throw DuplicateNeighbor).
    { unfold PlaceStep. rewrite Hscan. cbn.
      rewrite (deref_Some _ _ _ HP), (deref_Some _ _ _ HU). cbn.
      change (ChooseAxis _ _ _) with (Target P U).
      destruct (Target P U) as [axis LeftRight]. cbn [fst snd] in Hocc.
      destruct (get_slot (Neighbor P axis) LeftRight); [reflexivity|congruence]. }
    split; [exact Hstep|].
    destruct G as [|g G'].
    { cbn in Hscan. discriminate. }
    replace (length G0 - k)%nat with (S (length G')) by (cbn in Hlen; lia).
    cbn [BuildLoop]. now rewrite Hstep.
  - intros h' G' Hstep.
    assert (Hne : G <> []).
    { intros ->. unfold PlaceStep in Hstep. cbn in Hstep. discriminate. }
    destruct (GridInv_nonempty_step root h G Inv)
      as [E|[[E _]|(u & R & U & Hu & Hur & HR & HU & Hfresh & Hfree & E & _)]];
      rewrite E in Hstep; [discriminate|discriminate|].
    injection Hstep as <- <-. split.
    + intros n a i v. now apply slot_linked_kept.
    + intros n a i. now apply slot_linked_changed.
  - intros n a i v Hs.
    now apply (BuildLoop_spec root (length G0 - k) h G Inv ltac:(lia)).
Qed.

(** C6, witness: the three files [shot_A], [shot_B], [shot_C].  After
    the first turn has linked B to the root A, the second turn finds the
    slot of A occupied, and the setter throws. *)
Lemma set_slot_never_overwritten_witness :
  LoopEntry Log_dyadic [shot_A; shot_B; shot_C]
  = Some (0%nat, map (new_GridNode Log_dyadic) [shot_A; shot_B; shot_C],
          [1%nat; 2%nat])
  /\ snd (load Log_dyadic [shot_A; shot_B; shot_C]) = Throw DuplicateNeighbor.
Proof.
  split; [vm_compute; reflexivity|].
  pose (heap0 := map (new_GridNode Log_dyadic) [shot_A; shot_B; shot_C]).
  assert (H : exists h d P U,
             Turns 1 heap0 [0%nat] [1%nat; 2%nat] = Ok (h, [2%nat])
             /\ ScanPlaced h [0%nat] [2%nat] None = Ok (Some (d, 0%nat, 2%nat))
             /\ h !! 0%nat = Some P /\ h !! 2%nat = Some U
             /\ get_slot (Neighbor P (fst (Target P U))) (snd (Target P U)) <> None).
  { vm_compute. do 4 eexists. repeat split; discriminate. }
  destruct H as (h & d & P & U & HT & Hscan & HP & HU & Hocc).
  refine (proj2 (proj1 (set_slot_never_overwritten Log_dyadic
                          [shot_A; shot_B; shot_C] 0%nat heap0 [1%nat; 2%nat]
                          1%nat h [2%nat] _ HT)
                   d 0%nat 2%nat P U Hscan HP HU Hocc)).
  vm_compute; reflexivity.
Defined.

(** ** Coincident samples (C7) *)

(** The number of nodes still unplaced when the loop is entered. *)
Lemma LoopEntry_length (Log : Q -> Q) (files : list CameraCalibration)
    (root : ref) (heap0 : Heap) (G0 : list ref) :
  LoopEntry Log files = Some (root, heap0, G0) ->
  S (length G0) = length (List.filter valid_file files).
Proof.
  intros Hentry.
  destruct (LoopEntry_inv Log files root heap0 G0 Hentry) as (_ & Hheap0 & _).
  assert (HG0 : S (length G0) = length heap0).
  { unfold LoopEntry in Hentry.
    destruct (LoadFiles_Loaded Log files load_start (Loaded_start Log))
      as (st & E & L & _).
    rewrite E in Hentry. destruct (ld_RootNode st) as [r|] eqn:Hr; [|discriminate].
    injection Hentry as <- <- <-.
    rewrite length_Remove; [now rewrite (ld_nodes _ _ L), length_seq|].
    rewrite (ld_nodes _ _ L). apply elem_of_seq.
    pose proof (ld_root _ _ L) as Hlt. rewrite Hr in Hlt. lia. }
  now rewrite Hheap0, length_map in HG0.
Qed.










(** ** The heap the setter leaves *)

Lemma made_by_data (Log : Q -> Q) (N N' : GridNode) :
  data N' = data N -> made_by Log N -> made_by Log N'.
Proof.
  intros Hd [H1 H2]. assert (Hc : m_CameraCalibration N' = m_CameraCalibration N).
  { unfold data in Hd. congruence. }
  split; rewrite Hc; congruence.
Qed.

(** When the setter has chosen a root, the loop was entered. *)
Lemma load_root_entry (Log : Q -> Q) (files : list CameraCalibration) (root : ref) :
  m_RootNode (fst (load Log files)) = Some root ->
  exists heap0 G0, LoopEntry Log files = Some (root, heap0, G0).
Proof.
  intros Hroot. destruct (LoopEntry Log files) as [[[r heap0] G0]|] eqn:E.
  - destruct (load_built Log files r heap0 G0 E) as (Hr & _).
    rewrite Hr in Hroot. injection Hroot as ->. eauto.
  - destruct (load_empty Log files E) as (Hr & _). congruence.
Qed.

(** The heap the setter leaves, whether the construction was completed or
    aborted: it satisfies the invariant of the loop, and each node is as
    its constructor made it, up to its neighbors. *)
Lemma load_heap (Log : Q -> Q) (files : list CameraCalibration) (root : ref) :
  m_RootNode (fst (load Log files)) = Some root ->
  (exists G, GridInv root (m_Heap (fst (load Log files))) G)
  /\ (forall n N, m_Heap (fst (load Log files)) !! n = Some N -> made_by Log N)
  /\ (snd (load Log files) = Ok tt
      \/ snd (load Log files) = Throw DuplicateNeighbor
      \/ snd (load Log files) = Throw NullReference).
Proof.
  intros Hroot.
  destruct (load_root_entry Log files root Hroot) as (heap0 & G0 & Hentry).
  destruct (LoopEntry_inv Log files root heap0 G0 Hentry) as (Inv0 & _ & Hmade).
  destruct (load_built Log files root heap0 G0 Hentry) as (_ & -> & -> & _).
  destruct (BuildLoop_spec root (length G0) heap0 G0 Inv0 (le_n _))
    as (Hout & HInv & _ & Hdata & _).
  split; [exact HInv|]. split; [|exact Hout].
  intros n N' HN'. destruct (Hdata n N' HN') as (N & HN & Hd).
  exact (made_by_data Log N N' Hd (proj2 (Hmade n N HN))).
Qed.

(** ** The walks of [FindStartNode] *)

Lemma Chain_end (heap : Heap) (axis : Axis) (target : Q) (c r : ref) :
  Chain heap axis target c r ->
  r = c \/ exists R, heap !! r = Some R /\ EV_on axis R <= target.
Proof.
  induction 1 as [c|c C next N r HC HCle Hnext HN HNle Hchain IH].
  - now left.
  - right. destruct IH as [->|IH]; [now exists N|exact IH].
Qed.

(** What a walk that returns has done. *)
Lemma Walk_Chain (heap : Heap) (axis : Axis) (target : Q) (fuel : nat) :
  forall c r, Walk fuel heap axis target c = Ok r ->
  Chain heap axis target c r /\ Stops heap axis target r.
Proof.
  induction fuel as [|fuel IH]; intros c r; cbn [Walk]; [discriminate|].
  unfold deref at 1. destruct (heap !! c) as [C|] eqn:HC; [|discriminate].
  cbn [bind].
  destruct (Qle_bool_spec (EV_on axis C) target) as [HCle|HCgt].
  - destruct (get_slot (Neighbor C axis) 1) as [next|] eqn:Hnext.
    + unfold deref. destruct (heap !! next) as [N|] eqn:HN; [|discriminate].
      cbn [bind].
      destruct (Qlt_bool_spec target (EV_on axis N)) as [HNgt|HNle].
      * intros [= <-]. split; [constructor|].
        exists C. split; [assumption|]. right. right. now exists next, N.
      * intros HW. destruct (IH next r HW) as [Hchain Hstop].
        split; [|assumption].
        apply (chain_next heap axis target c C next N r); try assumption.
        now apply Qnot_lt_le.
    + intros [= <-]. split; [constructor|].
      exists C. split; [assumption|]. now right; left.
  - intros [= <-]. split; [constructor|].
    exists C. split; [assumption|]. left. now apply Qnot_le_lt.
Qed.

Lemma Walk_S (heap : Heap) (axis : Axis) (target : Q) (fuel : nat) (c : ref) :
  Walk (S fuel) heap axis target c
  = letR C := deref heap c in
    if Qle_bool (EV_on axis C) target then
      match get_slot (Neighbor C axis) 1 with
      | None => Ok c
      | Some Next =>
          letR N := deref heap Next in
          if Qlt_bool target (EV_on axis N) then Ok c
          else Walk fuel heap axis target Next
      end
    else Ok c.
Proof. reflexivity. Qed.

(** A walk from a node without next neighbor stays there. *)
Lemma Walk_leaf (heap : Heap) (axis : Axis) (target : Q) (fuel : nat) (v : ref) :
  (v < length heap)%nat -> slot heap v axis 1 = None ->
  Walk (S fuel) heap axis target v = Ok v.
Proof.
  intros Hv Hs. destruct (lookup_lt_is_Some_2 heap v Hv) as [V HV].
  unfold slot in Hs. rewrite HV in Hs.
  rewrite Walk_S, (deref_Some _ _ _ HV). cbn [bind]. rewrite Hs.
  now destruct (Qle_bool (EV_on axis V) target).
Qed.

(** In the heap the setter leaves, a walk from the root returns the root
    or a next neighbor of the root, within two turns. *)
Lemma Walk_root (root : ref) (heap : Heap) (G : list ref) (axis : Axis)
    (target : Q) (fuel : nat) :
  GridInv root heap G ->
  exists r, Walk (S (S fuel)) heap axis target root = Ok r
    /\ (r = root \/ (r <> root /\ slot heap root axis 1 = Some r)).
Proof.
  intros Inv.
  destruct (lookup_lt_is_Some_2 heap root (inv_root _ _ _ Inv)) as [R HR].
  rewrite Walk_S, (deref_Some _ _ _ HR). cbn [bind].
  destruct (Qle_bool (EV_on axis R) target); [|exists root; auto].
  destruct (get_slot (Neighbor R axis) 1) as [v|] eqn:Hnext; [|exists root; auto].
  assert (Hs : slot heap root axis 1 = Some v) by (unfold slot; now rewrite HR).
  destruct (inv_star _ _ _ Inv axis v Hs) as (Hvr & _ & Hleaf).
  pose proof (inv_refs _ _ _ Inv root axis 1%nat v Hs) as Hv.
  destruct (lookup_lt_is_Some_2 heap v Hv) as [V HV].
  rewrite (deref_Some _ _ _ HV). cbn [bind].
  destruct (Qlt_bool target (EV_on axis V)); [exists root; auto|].
  exists v. split; [now apply Walk_leaf|].
  right. now split.
Qed.

(** In the heap the setter leaves, a walk from the root or from a next
    neighbor of the root returns such a node. *)
Lemma Walk_near_root (root : ref) (heap : Heap) (G : list ref) (axis : Axis)
    (target : Q) (fuel : nat) (c : ref) :
  GridInv root heap G ->
  c = root \/ (exists a, slot heap root a 1 = Some c) ->
  exists r, Walk (S (S fuel)) heap axis target c = Ok r
    /\ (r = root \/ exists a, slot heap root a 1 = Some r).
Proof.
  intros Inv [->|[a Hc]].
  - destruct (Walk_root root heap G axis target fuel Inv) as (r & Hr & [->|[_ Hs]]).
    + exists root. auto.
    + exists r. split; [assumption|]. right. now exists axis.
  - destruct (inv_star _ _ _ Inv a c Hc) as (_ & _ & Hleaf).
    pose proof (inv_refs _ _ _ Inv root a 1%nat c Hc) as Hlt.
    exists c. split; [now apply Walk_leaf|]. right. now exists a.
Qed.

(** [FindStartNode] returns on the heap the setter leaves. *)
Lemma FindStartNode_returns (Log : Q -> Q) (files : list CameraCalibration)
    (root : ref) (tx ty tz : Q) :
  let db := fst (load Log files) in
  m_RootNode db = Some root ->
  exists rx ry rz,
    Walk (S (length (m_Heap db))) (m_Heap db) AxisX tx root = Ok rx
    /\ Walk (S (length (m_Heap db))) (m_Heap db) AxisY ty rx = Ok ry
    /\ Walk (S (length (m_Heap db))) (m_Heap db) AxisZ tz ry = Ok rz
    /\ FindStartNode db tx ty tz = Ok rz
    /\ (rz < length (m_Heap db))%nat.
Proof.
  intros db Hroot.
  destruct (load_heap Log files root Hroot) as ((G & Inv) & _ & _).
  fold db in Inv.
  pose proof (inv_root _ _ _ Inv) as Hlt.
  destruct (length (m_Heap db)) as [|len] eqn:Hlen; [lia|].
  destruct (Walk_near_root root _ G AxisX tx len root Inv (or_introl eq_refl))
    as (rx & Hx & Hrx).
  destruct (Walk_near_root root _ G AxisY ty len rx Inv Hrx) as (ry & Hy & Hry).
  destruct (Walk_near_root root _ G AxisZ tz len ry Inv Hry) as (rz & Hz & Hrz).
  exists rx, ry, rz. repeat (split; [assumption|]). split.
  - unfold FindStartNode. rewrite Hroot, Hlen, Hx. cbn [bind].
    rewrite Hy. cbn [bind]. rewrite Hz. reflexivity.
  - destruct Hrz as [->|[a Hs]]; [lia|].
    rewrite <- Hlen. exact (inv_refs _ _ _ Inv root a 1%nat rz Hs).
Qed.

(** ** [FindStartNode] (C2) *)

(** C2, as the code has it: on the heap the setter leaves, [FindStartNode]
    returns; it walks from the root along "next" X neighbors, then from the
    node reached along "next" Y neighbors, then from the node reached along
    "next" Z neighbors, entering a next node only while its EV on the axis
    is at most the target.  Each walk stops at a node whose EV on the axis
    is above the target, or that has no next neighbor on the axis, or whose
    next neighbor has an EV above the target; the node a walk stops at is
    the node it started from or has an EV on the axis at most the target. *)
Theorem FindStartNode_sequential_walks (Log : Q -> Q)
    (files : list CameraCalibration) (root : ref) (tx ty tz : Q) :
  let db := fst (load Log files) in
  let h := m_Heap db in
  m_RootNode db = Some root ->
  exists rx ry rz,
    FindStartNode db tx ty tz = Ok rz
    /\ Chain h AxisX tx root rx /\ Stops h AxisX tx rx
    /\ Chain h AxisY ty rx ry /\ Stops h AxisY ty ry
    /\ Chain h AxisZ tz ry rz /\ Stops h AxisZ tz rz
    /\ (rx = root \/ exists R, h !! rx = Some R /\ EV_on AxisX R <= tx)
    /\ (ry = rx \/ exists R, h !! ry = Some R /\ EV_on AxisY R <= ty)
    /\ (rz = ry \/ exists R, h !! rz = Some R /\ EV_on AxisZ R <= tz).
Proof.
  intros db h Hroot.
  destruct (FindStartNode_returns Log files root tx ty tz Hroot)
    as (rx & ry & rz & Hx & Hy & Hz & Hfind & _).
  fold db in Hx, Hy, Hz, Hfind. fold h in Hx, Hy, Hz.
  destruct (Walk_Chain _ _ _ _ _ _ Hx) as [Cx Sx].
  destruct (Walk_Chain _ _ _ _ _ _ Hy) as [Cy Sy].
  destruct (Walk_Chain _ _ _ _ _ _ Hz) as [Cz Sz].
  exists rx, ry, rz. repeat (split; [assumption|]).
  split; [|split]; eapply Chain_end; eassumption.
Qed.

(** C2, witness: the files [shot_D] (the root, at EV (2,-1,-1)) and
    [shot_A] (its next X neighbor in the heap, at EV (0,0,0)), and the
    target (2,0,0): the X walk goes from the root to [shot_A]. *)
Lemma FindStartNode_sequential_walks_witness :
  m_RootNode (fst (load Log_dyadic [shot_D; shot_A])) = Some 0%nat
  /\ exists rx ry rz,
       FindStartNode (fst (load Log_dyadic [shot_D; shot_A])) 2 0 0 = Ok rz
       /\ Chain (m_Heap (fst (load Log_dyadic [shot_D; shot_A]))) AxisX 2 0 rx
       /\ Chain (m_Heap (fst (load Log_dyadic [shot_D; shot_A]))) AxisY 0 rx ry
       /\ Chain (m_Heap (fst (load Log_dyadic [shot_D; shot_A]))) AxisZ 0 ry rz.
Proof.
  split; [vm_compute; reflexivity|].
  destruct (FindStartNode_sequential_walks Log_dyadic [shot_D; shot_A] 0%nat
              2 0 0 ltac:(vm_compute; reflexivity))
    as (rx & ry & rz & Hf & Cx & _ & Cy & _ & Cz & _).
  exists rx, ry, rz. repeat split; assumption.
Defined.

(** C2, the claim as written fails: in the database of [shot_D] and
    [shot_A], the X walk for the target 1 stops at the root at once; the
    EV of the root on X is 2, above the target, and the root has a next X
    neighbor. *)
Lemma FindStartNode_stop_counterexample :
  let db := fst (load Log_dyadic [shot_D; shot_A]) in
  snd (load Log_dyadic [shot_D; shot_A]) = Ok tt
  /\ m_RootNode db = Some 0%nat
  /\ Walk (S (length (m_Heap db))) (m_Heap db) AxisX 1 0 = Ok 0%nat
  /\ FindStartNode db 1 0 (-3) = Ok 0%nat
  /\ ~ StopsAtOrBelow (m_Heap db) AxisX 1 0.
Proof.
  cbv zeta. repeat (split; [vm_compute; reflexivity|]).
  intros (R & HR & H).
  vm_compute in HR. injection HR as <-.
  destruct H as [H|H]; vm_compute in H.
  - apply H. reflexivity.
  - discriminate.
Qed.

(** ** The cell *)

Lemma NextOrSelf_spec (heap : Heap) (axis : Axis) (n : ref) :
  (n < length heap)%nat ->
  NextOrSelf heap axis n = Ok (default n (slot heap n axis 1)).
Proof.
  intros Hn. destruct (lookup_lt_is_Some_2 heap n Hn) as [N HN].
  unfold NextOrSelf, slot. rewrite (deref_Some _ _ _ HN), HN. cbn [bind].
  now destruct (get_slot (Neighbor N axis) 1).
Qed.

Lemma default_slot_valid (root : ref) (heap : Heap) (G : list ref) (axis : Axis)
    (n : ref) :
  GridInv root heap G -> (n < length heap)%nat ->
  (default n (slot heap n axis 1) < length heap)%nat.
Proof.
  intros Inv Hn. destruct (slot heap n axis 1) as [v|] eqn:Hs; cbn; [|assumption].
  exact (inv_refs _ _ _ Inv n axis 1%nat v Hs).
Qed.

(** The cell is assembled without a failure; a corner whose "next"
    neighbor is missing is the node itself. *)
Lemma BuildGrid_spec (root : ref) (heap : Heap) (G : list ref) (start : ref) :
  GridInv root heap G -> (start < length heap)%nat ->
  exists g, BuildGrid heap start = Ok g
    /\ G000 g = start
    /\ G100 g = default start (slot heap start AxisX 1)
    /\ G010 g = default start (slot heap start AxisY 1)
    /\ G001 g = default start (slot heap start AxisZ 1)
    /\ G110 g = default (G100 g) (slot heap (G100 g) AxisY 1)
    /\ G011 g = default (G010 g) (slot heap (G010 g) AxisZ 1)
    /\ G101 g = default (G001 g) (slot heap (G001 g) AxisX 1)
    /\ G111 g = default (G110 g) (slot heap (G110 g) AxisZ 1)
    /\ Forall (fun r => (r < length heap)%nat) (grid_refs g).
Proof.
  intros Inv Hs.
  pose proof (default_slot_valid root heap G AxisX start Inv Hs) as H100.
  pose proof (default_slot_valid root heap G AxisY start Inv Hs) as H010.
  pose proof (default_slot_valid root heap G AxisZ start Inv Hs) as H001.
  pose proof (default_slot_valid root heap G AxisY _ Inv H100) as H110.
  pose proof (default_slot_valid root heap G AxisZ _ Inv H010) as H011.
  pose proof (default_slot_valid root heap G AxisX _ Inv H001) as H101.
  pose proof (default_slot_valid root heap G AxisZ _ Inv H110) as H111.
  unfold BuildGrid.
  rewrite (NextOrSelf_spec heap AxisX start Hs). cbn [bind].
  rewrite (NextOrSelf_spec heap AxisY start Hs). cbn [bind].
  rewrite (NextOrSelf_spec heap AxisZ start Hs). cbn [bind].
  rewrite (NextOrSelf_spec heap AxisY _ H100). cbn [bind].
  rewrite (NextOrSelf_spec heap AxisZ _ H010). cbn [bind].
  rewrite (NextOrSelf_spec heap AxisX _ H001). cbn [bind].
  rewrite (NextOrSelf_spec heap AxisZ _ H110). cbn [bind].
  eexists. split; [reflexivity|]. cbn.
  repeat (split; [reflexivity|]).
  repeat (constructor; [assumption|]). constructor.
Qed.

Lemma deref_Grid_spec (heap : Heap) (g : Grid) :
  Forall (fun r => (r < length heap)%nat) (grid_refs g) ->
  exists c, deref_Grid heap g = Ok c
    /\ Forall2 (fun r N => heap !! r = Some N) (grid_refs g) (cell_nodes c).
Proof.
  unfold grid_refs. intros H.
  repeat match goal with
         | H : Forall _ (_ :: _) |- _ =>
             let Hr := fresh "Hr" in
             apply Forall_cons in H as [Hr H];
             apply lookup_lt_is_Some_2 in Hr as [? Hr]
         end.
  unfold deref_Grid.
  repeat match goal with
         | H : heap !! _ = Some _ |- _ =>
             rewrite (deref_Some _ _ _ H); cbn [bind]; revert H
         end.
  intros. eexists. split; [reflexivity|].
  unfold cell_nodes. cbn. repeat (constructor; [assumption|]). constructor.
Qed.

(** ** The interpolants are clamped *)

Lemma Interpolant_clamped (t lo hi : Q) : clamped (Interpolant t lo hi).
Proof.
  unfold clamped, Interpolant. split.
  - apply Q.le_max_l.
  - apply Q.max_lub; [lra|apply Q.le_min_l].
Qed.

Lemma ComputeInterpolants_clamped (c : Cell) (EVx EVy EVz : Q) :
  let t := ComputeInterpolants c EVx EVy EVz in
  clamped (x4 (tX t)) /\ clamped (y4 (tX t)) /\ clamped (z4 (tX t))
  /\ clamped (w4 (tX t)) /\ clamped (x2 (tY t)) /\ clamped (y2 (tY t))
  /\ clamped (tZ t).
Proof. cbn. repeat split; apply Interpolant_clamped. Qed.

(** ** The interpolated luminances *)

Lemma LuminanceMeasured_spec (N : GridNode) (i : nat) :
  has_probes N -> (i < REQUIRED_PROBES_COUNT)%nat ->
  exists l, LuminanceMeasured N i = Ok l
    /\ luminances (m_CameraCalibration N) !! i = Some l.
Proof.
  intros HN Hi. unfold has_probes in HN.
  destruct (lookup_lt_is_Some_2 (m_Reflectances (m_CameraCalibration N)) i)
    as [p Hp]; [lia|].
  exists (m_LuminanceMeasured p). unfold LuminanceMeasured, luminances.
  rewrite Hp, list_lookup_fmap, Hp. split; reflexivity.
Qed.

(** The luminance interpolated for a probe, when the cell has been
    dereferenced to nodes of six probes. *)
Lemma InterpolateProbe_spec (c : Cell) (t : Interpolants) (i : nat) :
  Forall has_probes (cell_nodes c) -> (i < REQUIRED_PROBES_COUNT)%nat ->
  exists L l, InterpolateProbe c t i = Ok L
    /\ luminances (m_CameraCalibration (N000 c)) !! i = Some l
    /\ (x4 (tX t) == 0 -> x2 (tY t) == 0 -> tZ t == 0 -> L == l).
Proof.
  unfold cell_nodes. intros H Hi.
  repeat match goal with
         | H : Forall _ (_ :: _) |- _ =>
             let Hp := fresh "Hp" in
             let lum := fresh "lum" in
             apply Forall_cons in H as [Hp H];
             apply (fun h => LuminanceMeasured_spec _ i h Hi) in Hp
               as (lum & Hp & ?)
         end.
  unfold InterpolateProbe.
  repeat match goal with
         | H : LuminanceMeasured _ i = Ok _ |- _ => rewrite H; cbn [bind]; clear H
         end.
  eexists. eexists. split; [reflexivity|]. split; [eassumption|].
  cbn [x2 y2]. intros HtX HtY HtZ. rewrite HtX, HtY, HtZ. ring.
Qed.

Lemma InterpolateProbes_spec (c : Cell) (t : Interpolants) (indices : list nat) :
  Forall has_probes (cell_nodes c) ->
  Forall (fun i => (i < REQUIRED_PROBES_COUNT)%nat) indices ->
  exists Ls, InterpolateProbes c t indices = (Ls, Ok tt)
    /\ Forall2 (fun L i => exists l,
                  luminances (m_CameraCalibration (N000 c)) !! i = Some l
                  /\ (x4 (tX t) == 0 -> x2 (tY t) == 0 -> tZ t == 0 -> L == l))
               Ls indices.
Proof.
  intros Hc. induction 1 as [|i indices Hi Hrest IH]; cbn [InterpolateProbes].
  - exists []. split; [reflexivity|constructor].
  - destruct (InterpolateProbe_spec c t i Hc Hi) as (L & l & -> & Hl & HL).
    destruct IH as (Ls & -> & HLs).
    exists (L :: Ls). split; [reflexivity|].
    constructor; [now exists l|assumption].
Qed.

(** ** [PrepareCalibrationFor] on a database that was built (C8) *)

Lemma load_fst_snd (Log : Q -> Q) (files : list CameraCalibration) (db : Database)
    (outcome : Result unit) :
  load Log files = (db, outcome) ->
  db = fst (load Log files) /\ outcome = snd (load Log files).
Proof. intros ->. split; reflexivity. Qed.

(** The cell that [PrepareCalibrationFor] locates, on the heap the setter
    leaves. *)
Lemma LocateCell_spec (Log : Q -> Q) (files : list CameraCalibration)
    (root : ref) (iso shutter aperture : Q) :
  let db := fst (load Log files) in
  m_RootNode db = Some root ->
  exists start g c,
    FindStartNode db iso shutter aperture = Ok start
    /\ BuildGrid (m_Heap db) start = Ok g
    /\ deref_Grid (m_Heap db) g = Ok c
    /\ LocateCell db iso shutter aperture = Ok c
    /\ G000 g = start
    /\ G100 g = default start (slot (m_Heap db) start AxisX 1)
    /\ G010 g = default start (slot (m_Heap db) start AxisY 1)
    /\ G001 g = default start (slot (m_Heap db) start AxisZ 1)
    /\ G110 g = default (G100 g) (slot (m_Heap db) (G100 g) AxisY 1)
    /\ G011 g = default (G010 g) (slot (m_Heap db) (G010 g) AxisZ 1)
    /\ G101 g = default (G001 g) (slot (m_Heap db) (G001 g) AxisX 1)
    /\ G111 g = default (G110 g) (slot (m_Heap db) (G110 g) AxisZ 1)
    /\ m_Heap db !! start = Some (N000 c)
    /\ Forall has_probes (cell_nodes c).
Proof.
  intros db Hroot.
  destruct (load_heap Log files root Hroot) as ((G & Inv) & Hmade & _).
  fold db in Inv, Hmade.
  destruct (FindStartNode_returns Log files root iso shutter aperture Hroot)
    as (_ & _ & start & _ & _ & _ & Hfind & Hstart).
  fold db in Hfind, Hstart.
  destruct (BuildGrid_spec root _ G start Inv Hstart)
    as (g & Hg & H000 & H100 & H010 & H001 & H110 & H011 & H101 & H111 & Hrefs).
  destruct (deref_Grid_spec _ g Hrefs) as (c & Hc & Hnodes).
  exists start, g, c. split; [assumption|]. split; [assumption|].
  split; [assumption|]. split.
  { unfold LocateCell. rewrite Hfind. cbn [bind]. rewrite Hg. exact Hc. }
  repeat (split; [assumption|]). split.
  - unfold grid_refs, cell_nodes in Hnodes.
    apply Forall2_cons in Hnodes as [H0 _]. now rewrite H000 in H0.
  - apply Forall_forall. intros N HN.
    apply list_elem_of_lookup in HN as [i Hi].
    destruct (Forall2_lookup_r _ _ _ _ _ Hnodes Hi) as (r & _ & Hr).
    exact (proj2 (Hmade r N Hr)).
Qed.

Lemma seq_probes_in_range :
  Forall (fun i => (i < REQUIRED_PROBES_COUNT)%nat) (seq 0 REQUIRED_PROBES_COUNT).
Proof. apply Forall_forall. intros i Hi. apply elem_of_seq in Hi. lia. Qed.

(** On a database that the setter has built without an exception,
    [PrepareCalibrationFor] with positive shot parameters returns normally:
    it finds a start node, assembles the cell, in which a corner whose
    "next" neighbor is missing is the node itself, computes interpolants
    that are all clamped to [0,1], and stores six luminances.  Which node
    the start node is, and so which luminances are stored for a target
    beyond the samples, it does not say. *)
Lemma PrepareCalibrationFor_returns (Log : Q -> Q)
    (files : list CameraCalibration) (db : Database) (root : ref)
    (iso shutter aperture : Q) :
  load Log files = (db, Ok tt) ->
  m_RootNode db = Some root ->
  0 < iso -> 0 < shutter -> 0 < aperture ->
  exists start g c Ls,
    FindStartNode db iso shutter aperture = Ok start
    /\ BuildGrid (m_Heap db) start = Ok g
    /\ deref_Grid (m_Heap db) g = Ok c
    /\ (G000 g = start
        /\ G100 g = default start (slot (m_Heap db) start AxisX 1)
        /\ G010 g = default start (slot (m_Heap db) start AxisY 1)
        /\ G001 g = default start (slot (m_Heap db) start AxisZ 1)
        /\ G110 g = default (G100 g) (slot (m_Heap db) (G100 g) AxisY 1)
        /\ G011 g = default (G010 g) (slot (m_Heap db) (G010 g) AxisZ 1)
        /\ G101 g = default (G001 g) (slot (m_Heap db) (G001 g) AxisX 1)
        /\ G111 g = default (G110 g) (slot (m_Heap db) (G110 g) AxisZ 1))
    /\ (forall t, InterpolantsFor Log db iso shutter aperture = Ok t ->
          clamped (x4 (tX t)) /\ clamped (y4 (tX t)) /\ clamped (z4 (tX t))
          /\ clamped (w4 (tX t)) /\ clamped (x2 (tY t)) /\ clamped (y2 (tY t))
          /\ clamped (tZ t))
    /\ (exists t, InterpolantsFor Log db iso shutter aperture = Ok t)
    /\ PrepareCalibrationFor Log db iso shutter aperture
       = (with_PreparedFor db iso shutter aperture (Some Ls), Ok tt)
    /\ length Ls = REQUIRED_PROBES_COUNT.
Proof.
  intros Hload Hroot _ _ _.
  apply load_fst_snd in Hload as [-> _].
  destruct (LocateCell_spec Log files root iso shutter aperture Hroot)
    as (start & g & c & Hfind & Hg & Hc & Hcell & H000 & H100 & H010 & H001
        & H110 & H011 & H101 & H111 & _ & Hprobes).
  set (db := fst (load Log files)) in *.
  destruct (Convert2EV Log iso shutter aperture) as [[EVx EVy] EVz] eqn:HEV.
  destruct (InterpolateProbes_spec c (ComputeInterpolants c EVx EVy EVz)
              (seq 0 REQUIRED_PROBES_COUNT) Hprobes seq_probes_in_range)
    as (Ls & HLs & HF).
  exists start, g, c, Ls.
  split; [assumption|]. split; [assumption|]. split; [assumption|].
  split; [repeat (split; [assumption|]); assumption|].
  split; [|split; [|split]].
  - unfold InterpolantsFor. rewrite HEV, Hcell. cbn [bind].
    intros t [= <-]. apply ComputeInterpolants_clamped.
  - unfold InterpolantsFor. rewrite HEV, Hcell. cbn [bind]. eauto.
  - unfold PrepareCalibrationFor. rewrite Hroot, HEV.
    change (LocateCell (with_PreparedFor db iso shutter aperture
                          (m_InterpolatedCalibration db)) iso shutter aperture)
      with (LocateCell db iso shutter aperture).
    rewrite Hcell, HLs. reflexivity.
  - apply Forall2_length in HF. rewrite HF. apply length_seq.
Qed.

(** ** Interpolation at a node (C1) *)

Lemma Interpolant_at_lo (t lo hi : Q) : lo == t -> Interpolant t lo hi == 0.
Proof.
  intros H. unfold Interpolant.
  assert (Hq : (t - lo) / Qmax float_1em6 (hi - lo) == 0).
  { assert (H0 : t - lo == 0) by lra. unfold Qdiv. rewrite H0. ring. }
  rewrite Q.max_l; [reflexivity|].
  rewrite Hq. apply Q.le_min_r.
Qed.

(** At the EV of the start node the interpolants on which the luminances
    depend are all 0. *)
Lemma ComputeInterpolants_at_start (c : Cell) (EVx EVy EVz : Q) :
  m_EV_ISOSpeed (N000 c) == EVx ->
  m_EV_ShutterSpeed (N000 c) == EVy ->
  m_EV_Aperture (N000 c) == EVz ->
  let t := ComputeInterpolants c EVx EVy EVz in
  x4 (tX t) == 0 /\ x2 (tY t) == 0 /\ tZ t == 0.
Proof.
  intros Hx Hy Hz.
  assert (HtX : Interpolant EVx (m_EV_ISOSpeed (N000 c)) (m_EV_ISOSpeed (N100 c))
                == 0) by now apply Interpolant_at_lo.
  cbn. split; [exact HtX|].
  set (tXx := Interpolant EVx (m_EV_ISOSpeed (N000 c)) (m_EV_ISOSpeed (N100 c)))
    in *.
  assert (HtY : Interpolant EVy
                  ((1 - tXx) * m_EV_ShutterSpeed (N000 c)
                   + tXx * m_EV_ShutterSpeed (N100 c))
                  ((1 - Interpolant EVx (m_EV_ISOSpeed (N010 c))
                          (m_EV_ISOSpeed (N110 c)))
                   * m_EV_ShutterSpeed (N010 c)
                   + Interpolant EVx (m_EV_ISOSpeed (N010 c))
                       (m_EV_ISOSpeed (N110 c))
                     * m_EV_ShutterSpeed (N110 c)) == 0).
  { apply Interpolant_at_lo. rewrite HtX, <- Hy. ring. }
  split; [exact HtY|].
  apply Interpolant_at_lo. rewrite HtY, HtX, <- Hz. ring.
Qed.

(** The calibrations the database keeps are those of the nodes, in the
    order of the heap. *)
Lemma load_calibrations (Log : Q -> Q) (files : list CameraCalibration)
    (k : ref) (N : GridNode) :
  m_Heap (fst (load Log files)) !! k = Some N ->
  m_RootNode (fst (load Log files)) <> None ->
  m_CameraClibrations (fst (load Log files)) !! k = Some (m_CameraCalibration N).
Proof.
  intros HN Hroot.
  destruct (m_RootNode (fst (load Log files))) as [root|] eqn:Hr; [|congruence].
  destruct (load_root_entry Log files root Hr) as (heap0 & G0 & Hentry).
  destruct (LoopEntry_inv Log files root heap0 G0 Hentry) as (Inv0 & Hheap0 & _).
  destruct (load_built Log files root heap0 G0 Hentry)
    as (_ & Hheap & _ & _ & _ & _ & _ & ->).
  rewrite Hheap in HN.
  destruct (BuildLoop_spec root (length G0) heap0 G0 Inv0 (le_n _))
    as (_ & _ & _ & Hdata & _).
  destruct (Hdata k N HN) as (N0 & HN0 & Hd).
  rewrite Hheap0, list_lookup_fmap in HN0.
  destruct (List.filter valid_file files !! k) as [CC|]; [|discriminate].
  injection HN0 as <-. unfold data in Hd. cbn in Hd. congruence.
Qed.

(** C1, as the code has it: on a database that the setter has built
    without an exception, for a node of the heap, whose calibration is one
    of the stored samples, if [FindStartNode] for the shot parameters of
    that sample returns this node, then [PrepareCalibrationFor] with these
    parameters stores the six measured luminances of the sample. *)
Theorem PrepareCalibrationFor_exact_at_start_node (Log : Q -> Q)
    (files : list CameraCalibration) (db : Database) (k : ref) (N : GridNode) :
  load Log files = (db, Ok tt) ->
  m_Heap db !! k = Some N ->
  FindStartNode db
    (m_ISOSpeed (m_CameraShotInfos (m_CameraCalibration N)))
    (m_ShutterSpeed (m_CameraShotInfos (m_CameraCalibration N)))
    (m_Aperture (m_CameraShotInfos (m_CameraCalibration N))) = Ok k ->
  m_CameraClibrations db !! k = Some (m_CameraCalibration N)
  /\ exists Ls,
       PrepareCalibrationFor Log db
         (m_ISOSpeed (m_CameraShotInfos (m_CameraCalibration N)))
         (m_ShutterSpeed (m_CameraShotInfos (m_CameraCalibration N)))
         (m_Aperture (m_CameraShotInfos (m_CameraCalibration N)))
       = (with_PreparedFor db
            (m_ISOSpeed (m_CameraShotInfos (m_CameraCalibration N)))
            (m_ShutterSpeed (m_CameraShotInfos (m_CameraCalibration N)))
            (m_Aperture (m_CameraShotInfos (m_CameraCalibration N)))
            (Some Ls), Ok tt)
       /\ Forall2 Qeq Ls (luminances (m_CameraCalibration N)).
Proof.
  intros Hload HN Hfind.
  apply load_fst_snd in Hload as [-> _].
  set (db := fst (load Log files)) in *.
  set (iso := m_ISOSpeed (m_CameraShotInfos (m_CameraCalibration N))) in *.
  set (shutter := m_ShutterSpeed (m_CameraShotInfos (m_CameraCalibration N))) in *.
  set (aperture := m_Aperture (m_CameraShotInfos (m_CameraCalibration N))) in *.
  destruct (m_RootNode db) as [root|] eqn:Hroot;
    [|unfold FindStartNode in Hfind; rewrite Hroot in Hfind; discriminate].
  split.
  { apply load_calibrations; [assumption|]. fold db. congruence. }
  destruct (load_heap Log files root Hroot) as (_ & Hmade & _). fold db in Hmade.
  destruct (LocateCell_spec Log files root iso shutter aperture Hroot)
    as (start & g & c & Hfind' & _ & _ & Hcell & _ & _ & _ & _ & _ & _ & _ & _
        & H000 & Hprobes).
  fold db in Hfind', Hcell, H000.
  assert (start = k) as -> by congruence.
  assert (N000 c = N) as HN000 by congruence.
  destruct (Convert2EV Log iso shutter aperture) as [[EVx EVy] EVz] eqn:HEV.
  assert (Hev : m_EV_ISOSpeed N = EVx /\ m_EV_ShutterSpeed N = EVy
                /\ m_EV_Aperture N = EVz).
  { destruct (Hmade k N HN) as [Hd _]. unfold data, new_GridNode in Hd.
    fold iso shutter aperture in Hd. rewrite HEV in Hd. cbn in Hd.
    injection Hd as -> -> ->. auto. }
  destruct Hev as (Hx & Hy & Hz).
  destruct (InterpolateProbes_spec c (ComputeInterpolants c EVx EVy EVz)
              (seq 0 REQUIRED_PROBES_COUNT) Hprobes seq_probes_in_range)
    as (Ls & HLs & HF).
  exists Ls. split.
  - unfold PrepareCalibrationFor. rewrite Hroot, HEV.
    change (LocateCell (with_PreparedFor db iso shutter aperture
                          (m_InterpolatedCalibration db)) iso shutter aperture)
      with (LocateCell db iso shutter aperture).
    rewrite Hcell, HLs. reflexivity.
  - destruct (ComputeInterpolants_at_start c EVx EVy EVz)
      as (HtX & HtY & HtZ); [rewrite HN000, Hx; reflexivity
                            |rewrite HN000, Hy; reflexivity
                            |rewrite HN000, Hz; reflexivity|].
    rewrite HN000 in HF.
    assert (Hlen : length (luminances (m_CameraCalibration N))
                   = REQUIRED_PROBES_COUNT).
    { unfold luminances. rewrite length_map. exact (proj2 (Hmade k N HN)). }
    apply Forall2_same_length_lookup_2.
    + apply Forall2_length in HF. rewrite HF, length_seq. now rewrite Hlen.
    + intros i L l HL Hl.
      destruct (Forall2_lookup_l _ _ _ _ _ HF HL) as (j & Hj & l' & Hl' & HLl).
      apply lookup_seq in Hj as [-> _]. cbn in Hl'.
      assert (l' = l) as -> by congruence.
      now apply HLl.
Qed.

(** C1, witness: the database of [shot_A] and [shot_B] and the sample
    [shot_A], whose node is the root. *)
Lemma PrepareCalibrationFor_exact_at_start_node_witness :
  exists Ls,
    PrepareCalibrationFor Log_dyadic (fst (load Log_dyadic [shot_A; shot_B]))
      100 1 1
    = (with_PreparedFor (fst (load Log_dyadic [shot_A; shot_B])) 100 1 1 (Some Ls),
       Ok tt)
    /\ Forall2 Qeq Ls (luminances shot_A).
Proof.
  exact (proj2 (PrepareCalibrationFor_exact_at_start_node Log_dyadic
                  [shot_A; shot_B] (fst (load Log_dyadic [shot_A; shot_B]))
                  0%nat
                  (set_Neighbor (new_GridNode Log_dyadic shot_A) AxisX 0 (Some 1%nat))
                  ltac:(vm_compute; reflexivity)
                  ltac:(vm_compute; reflexivity)
                  ltac:(vm_compute; reflexivity))).
Defined.

(** C1, the claim as written fails: in the database of [shot_A] and
    [shot_B], built without an exception, [PrepareCalibrationFor] with the
    shot parameters of the stored sample [shot_B] stores the luminances of
    [shot_A], which are not those of [shot_B]. *)
Lemma PrepareCalibrationFor_roundtrip_counterexample :
  let db := fst (load Log_dyadic [shot_A; shot_B]) in
  load Log_dyadic [shot_A; shot_B] = (db, Ok tt)
  /\ m_CameraClibrations db !! 1%nat = Some shot_B
  /\ exists Ls,
       PrepareCalibrationFor Log_dyadic db 200 1 1
       = (with_PreparedFor db 200 1 1 (Some Ls), Ok tt)
       /\ Forall2 Qeq Ls (luminances shot_A)
       /\ ~ Forall2 Qeq Ls (luminances shot_B).
Proof.
  cbv zeta. split; [vm_compute; reflexivity|]. split; [vm_compute; reflexivity|].
  vm_compute. eexists. split; [reflexivity|]. split.
  - repeat (constructor; [reflexivity|]). constructor.
  - intros H. apply Forall2_cons in H as [H _]. discriminate H.
Qed.

(** ** The direction of a link (C3) and the two-sample scenario (C4) *)

(** The index the placement step writes on the placed node is 0 when the
    delta on the chosen axis (placed minus unplaced) is negative, and 1
    otherwise. *)
Lemma ChooseAxis_LeftRight (DeltaX DeltaY DeltaZ : Q) :
  snd (ChooseAxis DeltaX DeltaY DeltaZ)
  = if Qlt_bool (pick (fst (ChooseAxis DeltaX DeltaY DeltaZ)) DeltaX DeltaY DeltaZ) 0
    then 0%nat else 1%nat.
Proof.
  unfold ChooseAxis.
  destruct (Qlt_bool (Qabs DeltaY) (Qabs DeltaX)),
    (Qlt_bool (Qabs DeltaZ) (Qabs DeltaX)),
    (Qlt_bool (Qabs DeltaZ) (Qabs DeltaY)); reflexivity.
Qed.

(** A degenerate cell edge (both corners at the same EV) with the target
    at least [1e-6] above it gives the interpolant 1. *)
Lemma Interpolant_degenerate_above (t lo : Q) :
  float_1em6 <= t - lo -> Interpolant t lo lo == 1.
Proof.
  intros H. unfold Interpolant.
  assert (Hpos : 0 < float_1em6) by reflexivity.
  assert (Hd : Qmax float_1em6 (lo - lo) == float_1em6).
  { apply Q.max_l. lra. }
  assert (Hq : 1 <= (t - lo) / Qmax float_1em6 (lo - lo)).
  { rewrite Hd. apply Qle_shift_div_l; lra. }
  rewrite (Q.min_l _ _ Hq). apply Q.max_r. lra.
Qed.

(** C3, the code at the failing input: in the database of [shot_A] (the
    root, at EV (0,0,0)) and [shot_B] (at EV (1,0,0)) the delta of the pair
    on X, the chosen axis, is negative, and the unplaced node B is stored
    in the "previous" slot (index 0) of A, with A stored in the "next" slot
    (index 1) of B; the "next" slot of A stays empty.  In general the step
    writes index 0 exactly when the delta on the chosen axis is negative. *)
Theorem link_direction_two_samples :
  (forall DeltaX DeltaY DeltaZ,
      snd (ChooseAxis DeltaX DeltaY DeltaZ)
      = if Qlt_bool (pick (fst (ChooseAxis DeltaX DeltaY DeltaZ))
                       DeltaX DeltaY DeltaZ) 0
        then 0%nat else 1%nat)
  /\ let db := fst (load Log_dyadic [shot_A; shot_B]) in
     load Log_dyadic [shot_A; shot_B] = (db, Ok tt)
     /\ m_RootNode db = Some 0%nat
     /\ exists A B,
          m_Heap db !! 0%nat = Some A /\ m_Heap db !! 1%nat = Some B
          /\ m_CameraCalibration A = shot_A /\ m_CameraCalibration B = shot_B
          /\ fst (Target A B) = AxisX /\ Delta AxisX A B < 0
          /\ slot (m_Heap db) 0 AxisX 0 = Some 1%nat
          /\ slot (m_Heap db) 0 AxisX 1 = None
          /\ slot (m_Heap db) 1 AxisX 1 = Some 0%nat
          /\ slot (m_Heap db) 1 AxisX 0 = None.
Proof.
  split; [exact ChooseAxis_LeftRight|].
  cbv zeta. split; [vm_compute; reflexivity|]. split; [vm_compute; reflexivity|].
  vm_compute. do 2 eexists. repeat split.
Qed.

(** C4, the code at the failing input: for the two samples A (ISO 100, 1 s,
    f/1.0) and B (ISO 200, 1 s, f/1.0) the root is A, at EV (0,0,0), and B
    is at EV (1,0,0); but B is in the "previous" X slot of A and A in the
    "next" X slot of B, so that for (150, 1, 1.0) the start node is A, all
    corners of the cell are A, and the four X interpolants are 1. *)
Theorem two_sample_scenario :
  let db := fst (load Log_dyadic [shot_A; shot_B]) in
  load Log_dyadic [shot_A; shot_B] = (db, Ok tt)
  /\ m_RootNode db = Some 0%nat
  /\ (exists A B,
        m_Heap db !! 0%nat = Some A /\ m_Heap db !! 1%nat = Some B
        /\ m_CameraCalibration A = shot_A /\ m_CameraCalibration B = shot_B
        /\ (m_EV_ISOSpeed A == 0 /\ m_EV_ShutterSpeed A == 0 /\ m_EV_Aperture A == 0)
        /\ (m_EV_ISOSpeed B == 1 /\ m_EV_ShutterSpeed B == 0 /\ m_EV_Aperture B == 0))
  /\ slot (m_Heap db) 0 AxisX 1 = None
  /\ slot (m_Heap db) 0 AxisX 0 = Some 1%nat
  /\ slot (m_Heap db) 1 AxisX 0 = None
  /\ slot (m_Heap db) 1 AxisX 1 = Some 0%nat
  /\ FindStartNode db 150 1 1 = Ok 0%nat
  /\ BuildGrid (m_Heap db) 0
     = Ok {| G000 := 0; G100 := 0; G010 := 0; G001 := 0;
             G110 := 0; G011 := 0; G101 := 0; G111 := 0 |}%nat
  /\ exists t,
       InterpolantsFor Log_dyadic db 150 1 1 = Ok t
       /\ x4 (tX t) == 1 /\ y4 (tX t) == 1 /\ z4 (tX t) == 1 /\ w4 (tX t) == 1.
Proof.
  cbv zeta. split; [vm_compute; reflexivity|]. split; [vm_compute; reflexivity|].
  split.
  { vm_compute. do 2 eexists. repeat split. }
  repeat (split; [vm_compute; reflexivity|]).
  vm_compute. eexists. split; [reflexivity|]. repeat split.
Qed.

(** C8, the code at the failing input: the database of the two samples A
    (ISO 100, at EV 0 on X) and B (ISO 200, at EV 1 on X) is built without
    an exception, and [PrepareCalibrationFor] for ISO 800 (EV 3 on X,
    beyond B, the sample at the boundary), 1 s, f/1.0 returns normally.
    But B is in the "previous" X slot of the root A and the "next" X slot
    of A is empty, so the walk of [FindStartNode] stays on A, the eight
    corners of the cell are A, and the six luminances stored are those
    measured for A, the sample farthest from the target, not those of B. *)
Theorem PrepareCalibrationFor_beyond_extent :
  let db := fst (load Log_dyadic [shot_A; shot_B]) in
  load Log_dyadic [shot_A; shot_B] = (db, Ok tt)
  /\ m_RootNode db = Some 0%nat
  /\ (exists A B,
        m_Heap db !! 0%nat = Some A /\ m_Heap db !! 1%nat = Some B
        /\ m_CameraCalibration A = shot_A /\ m_CameraCalibration B = shot_B
        /\ m_EV_ISOSpeed A == 0 /\ m_EV_ISOSpeed B == 1)
  /\ fst (fst (Convert2EV Log_dyadic 800 1 1)) == 3
  /\ slot (m_Heap db) 0 AxisX 1 = None
  /\ slot (m_Heap db) 0 AxisX 0 = Some 1%nat
  /\ FindStartNode db 800 1 1 = Ok 0%nat
  /\ BuildGrid (m_Heap db) 0
     = Ok {| G000 := 0; G100 := 0; G010 := 0; G001 := 0;
             G110 := 0; G011 := 0; G101 := 0; G111 := 0 |}%nat
  /\ exists Ls,
       PrepareCalibrationFor Log_dyadic db 800 1 1
       = (with_PreparedFor db 800 1 1 (Some Ls), Ok tt)
       /\ Forall2 Qeq Ls (luminances shot_A)
       /\ ~ Forall2 Qeq Ls (luminances shot_B).
Proof.
  cbv zeta. split; [vm_compute; reflexivity|]. split; [vm_compute; reflexivity|].
  split.
  { vm_compute. do 2 eexists. repeat split. }
  repeat (split; [vm_compute; reflexivity|]).
  eexists. split; [vm_compute; reflexivity|]. split.
  - repeat (constructor; [vm_compute; reflexivity|]). constructor.
  - intros H. apply Forall2_cons in H as [H _]. vm_compute in H. discriminate.
Qed.

(** ** The out-of-sequence errors (C9, C10) *)

Lemma deref_no_Throw (heap : Heap) (r : ref) (e : Exn) : deref heap r <> Throw e.
Proof. unfold deref. destruct (heap !! r); discriminate. Qed.

Lemma Walk_no_Throw (heap : Heap) (axis : Axis) (target : Q) (fuel : nat) :
  forall c e, Walk fuel heap axis target c <> Throw e.
Proof.
  induction fuel as [|fuel IH]; intros c e; [discriminate|].
  rewrite Walk_S. unfold deref.
  destruct (heap !! c) as [C|]; cbn [bind]; [|discriminate].
  destruct (Qle_bool (EV_on axis C) target); [|discriminate].
  destruct (get_slot (Neighbor C axis) 1) as [next|]; [|discriminate].
  destruct (heap !! next) as [N|]; cbn [bind]; [|discriminate].
  destruct (Qlt_bool target (EV_on axis N)); [discriminate|apply IH].
Qed.

Lemma NextOrSelf_no_Throw (heap : Heap) (axis : Axis) (n : ref) (e : Exn) :
  NextOrSelf heap axis n <> Throw e.
Proof.
  unfold NextOrSelf, deref. destruct (heap !! n) as [N|]; cbn [bind]; [|discriminate].
  destruct (get_slot (Neighbor N axis) 1); discriminate.
Qed.

Lemma bind_no_Throw {A B : Type} (c : Result A) (k : A -> Result B) (e : Exn) :
  c <> Throw e -> (forall a, k a <> Throw e) -> bind c k <> Throw e.
Proof.
  intros Hc Hk. destruct c as [a|e'|]; cbn; [apply Hk| |discriminate].
  intros [= ->]. now apply Hc.
Qed.

Ltac no_Throw :=
  repeat (apply bind_no_Throw;
          [first [apply Walk_no_Throw | apply NextOrSelf_no_Throw
                 | apply deref_no_Throw]
          |intro]);
  discriminate.

Lemma FindStartNode_no_Throw (db : Database) (tx ty tz : Q) (e : Exn) :
  m_RootNode db <> None -> FindStartNode db tx ty tz <> Throw e.
Proof.
  intros Hroot. unfold FindStartNode.
  destruct (m_RootNode db) as [root|]; [|congruence].
  cbv zeta. no_Throw.
Qed.

Lemma BuildGrid_no_Throw (heap : Heap) (start : ref) (e : Exn) :
  BuildGrid heap start <> Throw e.
Proof. unfold BuildGrid. no_Throw. Qed.

Lemma deref_Grid_no_Throw (heap : Heap) (g : Grid) (e : Exn) :
  deref_Grid heap g <> Throw e.
Proof. unfold deref_Grid. no_Throw. Qed.

(** With a root, the search of the cell throws nothing. *)
Lemma LocateCell_no_Throw (db : Database) (iso shutter aperture : Q) (e : Exn) :
  m_RootNode db <> None -> LocateCell db iso shutter aperture <> Throw e.
Proof.
  intros Hroot. unfold LocateCell.
  apply bind_no_Throw; [now apply FindStartNode_no_Throw|intros start].
  apply bind_no_Throw; [apply BuildGrid_no_Throw|intros g].
  apply deref_Grid_no_Throw.
Qed.

(** The loop over the probes throws nothing but the index exception. *)
Lemma InterpolateProbes_Throw (c : Cell) (t : Interpolants) (indices : list nat)
    (e : Exn) :
  snd (InterpolateProbes c t indices) = Throw e -> e = IndexOutOfRange.
Proof.
  induction indices as [|i indices IH]; cbn [InterpolateProbes]; [discriminate|].
  destruct (InterpolateProbe c t i) as [L|e'|] eqn:HP.
  - destruct (InterpolateProbes c t indices) as [Ls outcome]. exact IH.
  - cbn. intros [= <-]. unfold InterpolateProbe, LuminanceMeasured in HP.
    repeat match type of HP with
           | context [m_Reflectances ?cc !! i] =>
               destruct (m_Reflectances cc !! i); cbn [bind] in HP
           end; congruence.
  - discriminate.
Qed.

(** C9, as the code has it: [PrepareCalibrationFor] throws the
    grid-not-built exception exactly when no root node is set; on a new
    database whose [DatabasePath] has been set this is the case exactly
    when no file had the six probes, whether or not the construction was
    then aborted.  [Calibrate] throws the not-prepared exception when a
    root node is set and no interpolated calibration has been stored, as
    it is after the setter. *)
Theorem GraphNotBuilt_iff_no_root (Log : Q -> Q)
    (CameraCalibration_Calibrate : list Q -> Q -> Q) (db : Database)
    (files : list CameraCalibration) (iso shutter aperture luminance : Q) :
  (snd (PrepareCalibrationFor Log db iso shutter aperture) = Throw GraphNotBuilt
   <-> m_RootNode db = None)
  /\ (m_RootNode (fst (load Log files)) = None
      <-> List.filter valid_file files = [])
  /\ (m_RootNode db <> None -> m_InterpolatedCalibration db = None ->
      Calibrate CameraCalibration_Calibrate db luminance = Throw NotPrepared)
  /\ (m_RootNode (fst (load Log files)) <> None ->
      Calibrate CameraCalibration_Calibrate (fst (load Log files)) luminance
      = Throw NotPrepared).
Proof.
  split; [|split; [|split]].
  - unfold PrepareCalibrationFor.
    destruct (m_RootNode db) as [root|] eqn:Hroot; [|split; reflexivity].
    split; [|discriminate]. intros H. exfalso.
    destruct (Convert2EV Log iso shutter aperture) as [[EVx EVy] EVz].
    set (db' := with_PreparedFor db iso shutter aperture
                  (m_InterpolatedCalibration db)) in H.
    assert (Hroot' : m_RootNode db' <> None) by (cbn; congruence).
    pose proof (LocateCell_no_Throw db' iso shutter aperture GraphNotBuilt Hroot')
      as Hno.
    destruct (LocateCell db' iso shutter aperture) as [c|e|].
    + destruct (InterpolateProbes c _ _) as [Ls outcome] eqn:HP. cbn in H.
      pose proof (InterpolateProbes_Throw c (ComputeInterpolants c EVx EVy EVz)
                    (seq 0 REQUIRED_PROBES_COUNT) GraphNotBuilt) as HT.
      rewrite HP in HT. specialize (HT H). discriminate.
    + cbn in H. congruence.
    + discriminate.
  - destruct (LoopEntry Log files) as [[[root heap0] G0]|] eqn:E.
    + destruct (load_built Log files root heap0 G0 E) as (-> & _).
      destruct (LoopEntry_inv Log files root heap0 G0 E) as (Inv & Hheap & _).
      split; [discriminate|]. intros Hnil. exfalso.
      rewrite Hnil in Hheap. subst heap0.
      pose proof (inv_root _ _ _ Inv) as Hr. cbn in Hr. lia.
    + destruct (load_empty Log files E) as (-> & _ & ->). split; reflexivity.
  - unfold Calibrate. intros Hroot ->.
    destruct (m_RootNode db); [reflexivity|congruence].
  - intros Hroot. unfold Calibrate.
    destruct (m_RootNode (fst (load Log files))) as [root|] eqn:Hr; [|congruence].
    destruct (load_root_entry Log files root Hr) as (heap0 & G0 & E).
    destruct (load_built Log files root heap0 G0 E) as (_ & _ & _ & -> & _).
    reflexivity.
Qed.

(** C9, witness: the database of [shot_A], [shot_B], [shot_C], whose
    construction was aborted but whose root is set. *)
Lemma GraphNotBuilt_iff_no_root_witness :
  m_RootNode (fst (load Log_dyadic [shot_A; shot_B; shot_C])) <> None
  /\ Calibrate Calibrate_scale (fst (load Log_dyadic [shot_A; shot_B; shot_C])) 1
     = Throw NotPrepared.
Proof.
  assert (H : m_RootNode (fst (load Log_dyadic [shot_A; shot_B; shot_C])) <> None)
    by (vm_compute; discriminate).
  split; [exact H|].
  exact (proj2 (proj2 (proj2
           (GraphNotBuilt_iff_no_root Log_dyadic Calibrate_scale
              (fst (load Log_dyadic [shot_A; shot_B; shot_C]))
              [shot_A; shot_B; shot_C] 100 1 1 1))) H).
Defined.

(** C9, the claim as written fails: the construction of the database of
    [shot_A], [shot_B], [shot_C] is aborted by the duplicate-neighbor
    exception, so that no graph was ever built successfully, and yet
    [PrepareCalibrationFor] does not throw the grid-not-built exception: it
    returns normally. *)
Lemma GraphNotBuilt_counterexample :
  let db := fst (load Log_dyadic [shot_A; shot_B; shot_C]) in
  snd (load Log_dyadic [shot_A; shot_B; shot_C]) = Throw DuplicateNeighbor
  /\ snd (PrepareCalibrationFor Log_dyadic db 100 1 1) = Ok tt
  /\ snd (PrepareCalibrationFor Log_dyadic db 100 1 1) <> Throw GraphNotBuilt.
Proof.
  cbv zeta. split; [vm_compute; reflexivity|].
  assert (H : snd (PrepareCalibrationFor Log_dyadic
                     (fst (load Log_dyadic [shot_A; shot_B; shot_C])) 100 1 1)
              = Ok tt) by (vm_compute; reflexivity).
  split; [exact H|]. rewrite H. discriminate.
Qed.

(** C10: on a database that the setter has built without an exception and
    on which [PrepareCalibrationFor] has not been called,
    [IsPreparedFor (0, 0, 0)] is true, the last-prepared triple being
    initialised to zeros, and [Calibrate] throws the not-prepared
    exception. *)
Theorem IsPreparedFor_zero_on_fresh_database (Log : Q -> Q)
    (CameraCalibration_Calibrate : list Q -> Q -> Q)
    (files : list CameraCalibration) (db : Database) (luminance : Q) :
  load Log files = (db, Ok tt) ->
  IsValid db = true ->
  IsPreparedFor db 0 0 0 = true
  /\ Calibrate CameraCalibration_Calibrate db luminance = Throw NotPrepared.
Proof.
  intros Hload Hvalid. apply load_fst_snd in Hload as [-> _].
  unfold IsValid in Hvalid.
  destruct (m_RootNode (fst (load Log files))) as [root|] eqn:Hr; [|discriminate].
  destruct (load_root_entry Log files root Hr) as (heap0 & G0 & E).
  destruct (load_built Log files root heap0 G0 E)
    as (_ & _ & _ & Hint & Hi & Hs & Ha & _).
  split.
  - unfold IsPreparedFor. rewrite Hi, Hs, Ha. reflexivity.
  - unfold Calibrate. rewrite Hr, Hint. reflexivity.
Qed.

(** C10, witness: the database of [shot_A] and [shot_B]. *)
Lemma IsPreparedFor_zero_on_fresh_database_witness :
  IsPreparedFor (fst (load Log_dyadic [shot_A; shot_B])) 0 0 0 = true
  /\ Calibrate Calibrate_scale (fst (load Log_dyadic [shot_A; shot_B])) 1
     = Throw NotPrepared.
Proof.
  apply (IsPreparedFor_zero_on_fresh_database Log_dyadic Calibrate_scale
           [shot_A; shot_B]).
  - vm_compute; reflexivity.
  - vm_compute; reflexivity.
Defined.

(** * Further properties of the construction *)

(** ** An induction principle for the construction loop *)

(** A property of the heap and of the unplaced nodes that holds when the
    loop is entered and that every link keeps, holds when the loop is
    left; if the loop is left normally, no node is left unplaced. *)
Lemma BuildLoop_invariant (root : ref) (P : Heap -> list ref -> Prop) :
  (forall heap G u R U,
      GridInv root heap G -> P heap G ->
      u ∈ G -> u <> root -> heap !! root = Some R -> heap !! u = Some U ->
      untouched U ->
      get_slot (Neighbor R (fst (Target R U))) (snd (Target R U)) = None ->
      P (linked heap root u R U) (Remove u G)) ->
  forall fuel heap G,
    GridInv root heap G -> P heap G -> (length G <= fuel)%nat ->
    exists G',
      P (fst (BuildLoop fuel heap [root] G)) G'
      /\ GridInv root (fst (BuildLoop fuel heap [root] G)) G'
      /\ (snd (BuildLoop fuel heap [root] G) = Ok tt -> G' = []).
Proof.
  intros Hstep. induction fuel as [|fuel IH]; intros heap G Inv HP Hlen.
  - destruct G; [|cbn in Hlen; lia]. cbn. exists []. auto.
  - destruct G as [|g G'] eqn:HG.
    { cbn. exists []. auto. }
    rewrite <- HG in *. assert (Hne : G <> []) by (subst; discriminate).
    assert (Hunfold : BuildLoop (S fuel) heap [root] G
              = match PlaceStep heap [root] G with
                | Ok (heap', GridNodes') => BuildLoop fuel heap' [root] GridNodes'
                | Throw e => (heap, Throw e)
                | Stuck => (heap, Stuck)
                end).
    { rewrite HG. reflexivity. }
    rewrite Hunfold. clear Hunfold.
    destruct (GridInv_nonempty_step root heap G Inv)
      as [->|[[-> _]|(u & R & U & Hu & Hur & HR & HU & Hfresh & Hfree & -> & Inv')]].
    + cbn. exists G. split; [assumption|]. split; [assumption|discriminate].
    + cbn. exists G. split; [assumption|]. split; [assumption|discriminate].
    + apply IH; [assumption| |].
      * now apply (Hstep heap G u R U).
      * pose proof (length_Remove u G Hu). lia.
Qed.

(** ** Links are symmetric and all go through the root *)

Lemma same_index_opposite_l (i j : nat) :
  same_index (1 - i) j = negb (same_index i j).
Proof. destruct i, j; reflexivity. Qed.

(** X1.  Every link of the heap the setter leaves has its opposite: if slot
    [i] of [n] on an axis holds [m], then the other slot of [m] on that
    axis holds [n].  And every link has the root at one end: the
    construction never links two nodes other than the root. *)
Theorem links_symmetric_through_root (Log : Q -> Q)
    (files : list CameraCalibration) (root : ref) (n m : ref) (a : Axis)
    (i : nat) :
  let db := fst (load Log files) in
  m_RootNode db = Some root ->
  slot (m_Heap db) n a i = Some m ->
  slot (m_Heap db) m a (1 - i) = Some n /\ (n = root \/ m = root) /\ n <> m.
Proof.
  intros db Hroot.
  destruct (load_root_entry Log files root Hroot) as (heap0 & G0 & Hentry).
  destruct (LoopEntry_inv Log files root heap0 G0 Hentry) as (Inv0 & _ & Hfresh0).
  destruct (load_built Log files root heap0 G0 Hentry) as (_ & Hheap & _).
  unfold db. rewrite Hheap. clear db Hheap Hroot.
  set (P := fun (heap : Heap) (G : list ref) =>
              forall n a i m, slot heap n a i = Some m ->
                slot heap m a (1 - i) = Some n /\ (n = root \/ m = root) /\ n <> m).
  assert (HP : exists G', P (fst (BuildLoop (length G0) heap0 [root] G0)) G').
  { destruct (BuildLoop_invariant root P) with (fuel := length G0) (heap := heap0)
        (G := G0) as (G' & HP & _); [|assumption| |lia|now exists G'].
    - clear. intros heap G u R U Inv HP Hu Hur HR HU Hfresh Hfree n a i m.
      rewrite (slot_linked heap root u R U HR HU Hur).
      pose proof (slot_linked_kept heap root u R U HR HU Hur Hfresh Hfree) as Hkept.
      destruct (decide (n = u)) as [->|Hnu].
      + destruct (decide (a = fst (Target R U))) as [->|];
          [|rewrite Hfresh; discriminate].
        destruct (same_index i (snd (Target R U))) eqn:E;
          [rewrite Hfresh; discriminate|].
        intros [= <-]. split; [|split; [now right|assumption]].
        rewrite (slot_linked heap root u R U HR HU Hur).
        rewrite decide_False by congruence. rewrite !decide_True by reflexivity.
        now rewrite same_index_opposite_l, E.
      + destruct (decide (n = root)) as [->|Hnr].
        * assert (Hold : slot heap root a i = Some m ->
                         slot (linked heap root u R U) m a (1 - i) = Some root
                         /\ (root = root \/ m = root) /\ root <> m).
          { intros Hs. destruct (HP root a i m Hs) as (H1 & H2 & H3).
            split; [now apply Hkept|]. split; assumption. }
          unfold slot in Hold. rewrite HR in Hold.
          destruct (decide (a = fst (Target R U))) as [->|]; [|exact Hold].
          destruct (same_index i (snd (Target R U))) eqn:E; [|exact Hold].
          intros [= <-]. split; [|split; [now left|congruence]].
          rewrite (slot_linked heap root u R U HR HU Hur).
          rewrite !decide_True by reflexivity.
          now rewrite same_index_opposite_l, E.
        * intros Hs. destruct (HP n a i m Hs) as (H1 & H2 & H3).
          split; [now apply Hkept|]. split; assumption.
    - intros n' a' i' m'. unfold slot.
      destruct (heap0 !! n') as [N|] eqn:HN; [|discriminate].
      rewrite (proj1 (Hfresh0 n' N HN)). discriminate. }
  destruct HP as [G' HP]. apply HP.
Qed.

(** Witness: the database of [shot_A] and [shot_B], where B is in slot 0
    of A on X. *)
Lemma links_symmetric_through_root_witness :
  slot (m_Heap (fst (load Log_dyadic [shot_A; shot_B]))) 1 AxisX (1 - 0)
  = Some 0%nat.
Proof.
  exact (proj1 (links_symmetric_through_root Log_dyadic [shot_A; shot_B]
                  0%nat 0%nat 1%nat AxisX 0%nat
                  ltac:(vm_compute; reflexivity) ltac:(vm_compute; reflexivity))).
Defined.

(** ** The root has six slots *)

Lemma occupied_le_6 (N : GridNode) : (occupied N <= 6)%nat.
Proof.
  unfold occupied. etransitivity; [apply List.filter_length_le|]. reflexivity.
Qed.

Lemma occupied_untouched (N : GridNode) : untouched N -> occupied N = 0%nat.
Proof.
  intros H. unfold occupied, all_slots. cbn [List.filter fst snd].
  now rewrite !H.
Qed.

(** Writing an empty slot occupies one slot more. *)
Lemma occupied_set_Neighbor (N : GridNode) (a : Axis) (i : nat) (v : ref) :
  get_slot (Neighbor N a) i = None ->
  occupied (set_Neighbor N a i (Some v)) = S (occupied N).
Proof.
  destruct N as [cc x y z [x0 x1] [y0 y1] [z0 z1]].
  destruct a, i as [|i]; cbn; intros ->;
    unfold occupied; cbn;
    repeat match goal with
           | |- context [match ?o with Some _ => _ | None => _ end] =>
               is_var o; destruct o
           end; reflexivity.
Qed.

(** When the loop is left normally, the root has as many occupied slots
    more as there were unplaced nodes. *)
Lemma BuildLoop_occupied_count (root : ref) (heap : Heap) (G : list ref)
    (R R' : GridNode) :
  GridInv root heap G ->
  heap !! root = Some R ->
  fst (BuildLoop (length G) heap [root] G) !! root = Some R' ->
  snd (BuildLoop (length G) heap [root] G) = Ok tt ->
  occupied R' = (occupied R + length G)%nat.
Proof.
  intros Inv HR HR' Hok.
  remember (occupied R + length G)%nat as total eqn:Htotal.
  set (P := fun (h : Heap) (G1 : list ref) =>
              exists R1, h !! root = Some R1
                /\ (occupied R1 + length G1)%nat = total).
  destruct (BuildLoop_invariant root P) with (fuel := length G) (heap := heap)
      (G := G) as (G' & (R1 & HR1 & Hcount) & _ & Hdone);
    [|assumption|now exists R|lia|].
  - clear. intros h G1 u R1 U Inv1 (R2 & HR2 & Hcount) Hu Hur HR1 HU _ Hfree.
    assert (R2 = R1) as -> by congruence.
    exists (set_Neighbor R1 (fst (Target R1 U)) (snd (Target R1 U)) (Some u)).
    split; [now apply lookup_linked_root|].
    rewrite (occupied_set_Neighbor _ _ _ _ Hfree).
    pose proof (length_Remove u G1 Hu). lia.
  - rewrite (Hdone Hok) in Hcount. cbn [length] in Hcount.
    assert (R1 = R') as -> by congruence. lia.
Qed.

Lemma SqDistance_set_Neighbor_l (R U : GridNode) (a : Axis) (i : nat)
    (v : option ref) :
  SqDistance (set_Neighbor R a i v) U = SqDistance R U.
Proof. destruct a; reflexivity. Qed.

(** The construction throws the null-reference exception only at a turn
    where no unplaced node is at a squared distance below [float.MaxValue]
    from the root. *)
Lemma BuildLoop_NullReference (root : ref) :
  forall (fuel : nat) (heap : Heap) (G : list ref),
    GridInv root heap G ->
    (forall R u U, heap !! root = Some R -> u ∈ G -> heap !! u = Some U ->
                   SqDistance R U < float_MaxValue) ->
    snd (BuildLoop fuel heap [root] G) <> Throw NullReference.
Proof.
  induction fuel as [|fuel IH]; intros heap G Inv Hfin.
  - destruct G; cbn; discriminate.
  - destruct G as [|g G'] eqn:HG; [cbn; discriminate|].
    rewrite <- HG in *.
    assert (Hunfold : BuildLoop (S fuel) heap [root] G
              = match PlaceStep heap [root] G with
                | Ok (heap', GridNodes') => BuildLoop fuel heap' [root] GridNodes'
                | Throw e => (heap, Throw e)
                | Stuck => (heap, Stuck)
                end).
    { rewrite HG. reflexivity. }
    rewrite Hunfold. clear Hunfold.
    destruct (GridInv_nonempty_step root heap G Inv)
      as [->|[[_ (R & HR & Hfar)]|(u & R & U & Hu & Hur & HR & HU & Hfresh & Hfree & -> & Inv')]].
    + cbn. discriminate.
    + exfalso. assert (Hg : g ∈ G) by (rewrite HG; left).
      destruct (inv_unplaced _ _ _ Inv g Hg) as (Ug & HUg & _).
      exact (Hfar g Ug Hg HUg (Hfin R g Ug HR Hg HUg)).
    + apply IH; [assumption|].
      intros R1 u1 U1 HR1 Hu1 HU1.
      apply (elem_of_Remove _ _ _ (inv_nodup _ _ _ Inv)) in Hu1 as [Hu1 Hne1].
      rewrite (lookup_linked_root heap root u R U HR Hur) in HR1.
      injection HR1 as <-.
      assert (Hr1 : u1 <> root).
      { intros ->. exact (inv_root_placed _ _ _ Inv Hu1). }
      rewrite (lookup_linked_other heap root u R U) in HU1 by assumption.
      rewrite SqDistance_set_Neighbor_l. exact (Hfin R u1 U1 HR Hu1 HU1).
Qed.

(** The nodes with which the loop is entered are at squared distances
    below [float.MaxValue] from the root when the files are. *)
Lemma LoopEntry_finite (Log : Q -> Q) (files : list CameraCalibration)
    (root : ref) (heap0 : Heap) (G0 : list ref) :
  LoopEntry Log files = Some (root, heap0, G0) ->
  finite_EV_distances Log files ->
  forall R u U, heap0 !! root = Some R -> u ∈ G0 -> heap0 !! u = Some U ->
                SqDistance R U < float_MaxValue.
Proof.
  intros Hentry Hfin R u U HR _ HU.
  destruct (LoopEntry_inv Log files root heap0 G0 Hentry) as (_ & Hheap0 & _).
  rewrite Hheap0 in HR, HU.
  apply list_lookup_fmap_Some in HR as (CC1 & -> & H1).
  apply list_lookup_fmap_Some in HU as (CC2 & -> & H2).
  unfold finite_EV_distances in Hfin.
  rewrite Forall_forall in Hfin.
  specialize (Hfin CC1 (list_elem_of_lookup_2 _ _ _ H1)).
  rewrite Forall_forall in Hfin.
  exact (Hfin CC2 (list_elem_of_lookup_2 _ _ _ H2)).
Qed.

(** X2.  The root takes at most six neighbors, and every node is linked to
    the root: when more than seven files have the six probes, the setter
    does not complete the construction.  It throws the duplicate-neighbor
    exception, or the null-reference exception at a turn where no unplaced
    node is at a squared distance below [float.MaxValue] from the root;
    for files of positive shot values whose nodes are at squared distances
    below [float.MaxValue] from each other it is the duplicate-neighbor
    exception.  (Floats idealised as rationals.) *)
Theorem more_than_seven_samples_throw (Log : Q -> Q)
    (files : list CameraCalibration) :
  (7 < length (List.filter valid_file files))%nat ->
  (snd (load Log files) = Throw DuplicateNeighbor
   \/ snd (load Log files) = Throw NullReference)
  /\ (positive_shots files -> finite_EV_distances Log files ->
      snd (load Log files) = Throw DuplicateNeighbor).
Proof.
  intros Hlen.
  destruct (LoopEntry Log files) as [[[root heap0] G0]|] eqn:Hentry.
  - destruct (LoopEntry_inv Log files root heap0 G0 Hentry) as (Inv0 & Hheap0 & Hfresh).
    pose proof (LoopEntry_length Log files root heap0 G0 Hentry) as HG0.
    pose proof (LoopEntry_finite Log files root heap0 G0 Hentry) as Hfinite.
    destruct (load_built Log files root heap0 G0 Hentry) as (_ & _ & -> & _).
    pose proof (BuildLoop_NullReference root (length G0) heap0 G0 Inv0) as Hnull.
    destruct (BuildLoop_spec root (length G0) heap0 G0 Inv0 (le_n _))
      as ([Hok|[Hthrow|Hthrow]] & (G' & Inv') & _).
    2:{ split; [now left|]. intros _ _. exact Hthrow. }
    2:{ split; [now right|]. intros _ Hfin. exfalso. now apply Hnull; [apply Hfinite|]. }
    exfalso.
    destruct (lookup_lt_is_Some_2 heap0 root (inv_root _ _ _ Inv0)) as [R HR].
    destruct (lookup_lt_is_Some_2 _ root (inv_root _ _ _ Inv')) as [R' HR'].
    pose proof (BuildLoop_occupied_count root heap0 G0 R R' Inv0 HR HR' Hok) as Hc.
    pose proof (occupied_le_6 R') as H6.
    lia.
  - destruct (load_empty Log files Hentry) as (_ & _ & Hnil).
    rewrite Hnil in Hlen. cbn in Hlen. lia.
Qed.

(** Witness: eight copies of [shot_A]. *)
Lemma more_than_seven_samples_throw_witness :
  snd (load Log_dyadic (repeat shot_A 8)) = Throw DuplicateNeighbor.
Proof.
  apply (proj2 (more_than_seven_samples_throw Log_dyadic (repeat shot_A 8)
                  ltac:(vm_compute; lia))).
  - repeat constructor.
  - repeat (constructor; [repeat (constructor; [vm_compute; reflexivity|]);
                          constructor|]); constructor.
Defined.

(** X3.  Up to two files with the six probes never make the setter throw
    the duplicate-neighbor exception: the construction is completed, or,
    with two files whose nodes are not at a squared distance below
    [float.MaxValue], left by the null-reference exception.  For files of
    positive shot values whose nodes are at squared distances below
    [float.MaxValue] from each other it is completed.  (Floats idealised
    as rationals.) *)
Theorem up_to_two_samples_no_duplicate_neighbor (Log : Q -> Q)
    (files : list CameraCalibration) :
  (length (List.filter valid_file files) <= 2)%nat ->
  (snd (load Log files) = Ok tt \/ snd (load Log files) = Throw NullReference)
  /\ (positive_shots files -> finite_EV_distances Log files ->
      snd (load Log files) = Ok tt).
Proof.
  intros Hlen.
  destruct (LoopEntry Log files) as [[[root heap0] G0]|] eqn:Hentry.
  2:{ pose proof (proj1 (proj2 (load_empty Log files Hentry))) as Hok.
      split; [now left|]. intros _ _. exact Hok. }
  destruct (LoopEntry_inv Log files root heap0 G0 Hentry) as (Inv0 & Hheap0 & Hfresh).
  pose proof (LoopEntry_length Log files root heap0 G0 Hentry) as HG0.
  pose proof (LoopEntry_finite Log files root heap0 G0 Hentry) as Hfinite.
  destruct (load_built Log files root heap0 G0 Hentry) as (_ & _ & -> & _).
  destruct G0 as [|g [|g' G0]]; [|clear HG0 Hlen|cbn in HG0; lia].
  { split; [now left|]. intros _ _. reflexivity. }
  destruct (PlaceStep_cases root heap0 [g] Inv0)
    as [(Hstep & R & HR & Hfar)|(u & R & U & Hu & _ & HR & _ & _ & Hstep)].
  - cbn [length BuildLoop]. rewrite Hstep. cbn. split; [now right|].
    intros _ Hfin. exfalso.
    destruct (inv_unplaced _ _ _ Inv0 g ltac:(left)) as (Ug & HUg & _).
    exact (Hfar g Ug ltac:(left) HUg (Hfinite Hfin R g Ug HR ltac:(left) HUg)).
  - rewrite (proj1 (Hfresh root R HR)) in Hstep.
    cbn [length BuildLoop]. rewrite Hstep.
    apply list_elem_of_singleton in Hu as ->. cbn. rewrite Nat.eqb_refl.
    split; [now left|]. intros _ _. reflexivity.
Qed.

(** Witness: [shot_C] and [shot_D]. *)
Lemma up_to_two_samples_no_duplicate_neighbor_witness :
  snd (load Log_dyadic [shot_C; shot_D]) = Ok tt.
Proof.
  apply (proj2 (up_to_two_samples_no_duplicate_neighbor Log_dyadic
                  [shot_C; shot_D] ltac:(vm_compute; lia))).
  - repeat constructor.
  - repeat (constructor; [repeat (constructor; [vm_compute; reflexivity|]);
                          constructor|]); constructor.
Defined.

(** ** Every node is placed next to the root *)

(** X4.  When the setter returns normally, every node other than the root is
    in a slot of the root, and has the root in its opposite slot on the
    same axis. *)
Theorem built_nodes_are_neighbors_of_root (Log : Q -> Q)
    (files : list CameraCalibration) (db : Database) (root n : ref) :
  load Log files = (db, Ok tt) ->
  m_RootNode db = Some root ->
  (n < length (m_Heap db))%nat -> n <> root ->
  exists a i, slot (m_Heap db) root a i = Some n
    /\ slot (m_Heap db) n a (1 - i) = Some root.
Proof.
  intros Hload Hroot Hn Hnr.
  apply load_fst_snd in Hload as [-> Hok]. symmetry in Hok.
  destruct (load_root_entry Log files root Hroot) as (heap0 & G0 & Hentry).
  destruct (LoopEntry_inv Log files root heap0 G0 Hentry) as (Inv0 & _ & _).
  destruct (load_built Log files root heap0 G0 Hentry) as (_ & Hheap & Hout & _).
  rewrite Hheap in *. rewrite Hout in Hok. clear Hheap Hout Hroot.
  assert (HG0 : forall k, (k < length heap0)%nat -> k <> root -> k ∈ G0).
  { unfold LoopEntry in Hentry.
    destruct (LoadFiles_Loaded Log files load_start (Loaded_start Log))
      as (st & E & L & _).
    rewrite E in Hentry. destruct (ld_RootNode st); [|discriminate].
    injection Hentry as <- <- <-.
    intros k Hk Hkr. apply elem_of_Remove.
    - rewrite (ld_nodes _ _ L). apply NoDup_seq.
    - split; [|assumption]. rewrite (ld_nodes _ _ L). apply elem_of_seq. lia. }
  set (P := fun (heap : Heap) (G : list ref) =>
              length heap = length heap0
              /\ forall k, (k < length heap)%nat -> k <> root ->
                   k ∈ G
                   \/ exists a i, slot heap root a i = Some k
                        /\ slot heap k a (1 - i) = Some root).
  destruct (BuildLoop_invariant root P) with (fuel := length G0) (heap := heap0)
      (G := G0) as (G' & (Hlen & HP) & _ & Hdone); [|assumption| |lia|].
  - clear. intros heap G u R U Inv (Hlen & HP) Hu Hur HR HU Hfresh Hfree.
    split; [now rewrite length_linked|].
    intros k Hk Hkr. rewrite length_linked in Hk.
    pose proof (slot_linked_kept heap root u R U HR HU Hur Hfresh Hfree) as Hkept.
    destruct (decide (k = u)) as [->|Hku].
    + right. exists (fst (Target R U)), (snd (Target R U)).
      rewrite !(slot_linked heap root u R U HR HU Hur).
      rewrite (decide_False (P := root = u)) by congruence.
      rewrite !decide_True by reflexivity.
      rewrite same_index_opposite_l.
      assert (E : same_index (snd (Target R U)) (snd (Target R U)) = true)
        by (now destruct (snd (Target R U))).
      now rewrite E.
    + destruct (HP k Hk Hkr) as [HkG|(a & i & H1 & H2)].
      * left. apply elem_of_Remove; [apply (inv_nodup _ _ _ Inv)|now split].
      * right. exists a, i. split; now apply Hkept.
  - split; [reflexivity|]. intros k Hk Hkr. left. now apply HG0.
  - rewrite (Hdone Hok) in HP. destruct (HP n Hn Hnr) as [H|H]; [inversion H|exact H].
Qed.

(** Witness: the database of [shot_A] and [shot_D] and the node of
    [shot_D]. *)
Lemma built_nodes_are_neighbors_of_root_witness :
  exists a i,
    slot (m_Heap (fst (load Log_dyadic [shot_A; shot_D]))) 0 a i = Some 1%nat
    /\ slot (m_Heap (fst (load Log_dyadic [shot_A; shot_D]))) 1 a (1 - i)
       = Some 0%nat.
Proof.
  apply (built_nodes_are_neighbors_of_root Log_dyadic [shot_A; shot_D]
           (fst (load Log_dyadic [shot_A; shot_D])) 0%nat 1%nat).
  - vm_compute; reflexivity.
  - vm_compute; reflexivity.
  - vm_compute; lia.
  - lia.
Defined.

(** ** [SqDistance] *)

(** X5.  The squared distance is symmetric, is not negative, and is zero
    exactly between two nodes at the same EV on the three axes. *)
Theorem SqDistance_metric (N M : GridNode) :
  SqDistance N M == SqDistance M N
  /\ 0 <= SqDistance N M
  /\ (SqDistance N M == 0 <-> forall a, EV_on a N == EV_on a M).
Proof.
  unfold SqDistance. cbv zeta.
  set (dx := m_EV_ISOSpeed M - m_EV_ISOSpeed N).
  set (dy := m_EV_ShutterSpeed M - m_EV_ShutterSpeed N).
  set (dz := m_EV_Aperture M - m_EV_Aperture N).
  assert (Hx : 0 <= dx * dx) by nra.
  assert (Hy : 0 <= dy * dy) by nra.
  assert (Hz : 0 <= dz * dz) by nra.
  split; [unfold dx, dy, dz; ring|]. split; [lra|]. split.
  - intros H0.
    assert (Hx0 : dx * dx == 0) by lra.
    assert (Hy0 : dy * dy == 0) by lra.
    assert (Hz0 : dz * dz == 0) by lra.
    apply Qmult_integral in Hx0, Hy0, Hz0.
    intros a; destruct a; cbn; unfold dx, dy, dz in *; lra.
  - intros H. pose proof (H AxisX) as Hx'. pose proof (H AxisY) as Hy'.
    pose proof (H AxisZ) as Hz'. cbn in Hx', Hy', Hz'.
    assert (dx == 0) as -> by (unfold dx; lra).
    assert (dy == 0) as -> by (unfold dy; lra).
    assert (dz == 0) as -> by (unfold dz; lra).
    ring.
Qed.

(** ** The nearest pair *)

Lemma closer_true (d : Q) (Best : BestPair) :
  closer d Best = true ->
  match Best with Some (d', _, _) => d < d' | None => d < float_MaxValue end.
Proof.
  destruct Best as [[[d' p] u]|]; cbn; apply Qlt_bool_iff.
Qed.

Lemma closer_false (d : Q) (Best : BestPair) :
  closer d Best = false ->
  match Best with Some (d', _, _) => d' <= d | None => float_MaxValue <= d end.
Proof.
  destruct Best as [[[d' p] u]|]; cbn; apply Qlt_bool_false_iff.
Qed.

Lemma best_of_ext (heap : Heap) (PL GL : list ref) (seen seen' : ref -> ref -> Prop)
    (Best : BestPair) :
  (forall p u, seen' p u -> seen p u) ->
  best_of heap PL GL seen Best -> best_of heap PL GL seen' Best.
Proof.
  intros Hsub. destruct Best as [[[d p] u]|]; cbn.
  - intros (Hp & Hu & P & U & HP & HU & Hd & Hlt & Hmin).
    split; [assumption|]. split; [assumption|].
    exists P, U. repeat (split; [assumption|]).
    intros p' u' P' U' Hs. apply Hmin. now apply Hsub.
  - intros Hnone p u P U Hs. exact (Hnone p u P U (Hsub p u Hs)).
Qed.

Lemma ScanUnPlaced_best (heap : Heap) (PL GL : list ref) (p0 : ref) (G : list ref) :
  forall (seen : ref -> ref -> Prop) (Best b : BestPair),
  best_of heap PL GL seen Best ->
  p0 ∈ PL -> (forall u, u ∈ G -> u ∈ GL) ->
  ScanUnPlaced heap p0 G Best = Ok b ->
  best_of heap PL GL (fun p u => seen p u \/ (p = p0 /\ u ∈ G)) b.
Proof.
  induction G as [|u0 G IH]; intros seen Best b HBest Hp0 HG; cbn [ScanUnPlaced].
  - intros [= <-]. apply (best_of_ext heap PL GL seen); [|assumption].
    intros p u [H|[_ H]]; [assumption|inversion H].
  - unfold deref. destruct (heap !! p0) as [P|] eqn:HP; [|discriminate].
    destruct (heap !! u0) as [U|] eqn:HU; [|discriminate]. cbn [bind].
    intros Hscan.
    apply (IH (fun p u => seen p u \/ (p = p0 /\ u = u0))) in Hscan;
      [|clear Hscan|assumption|intros u Hu; apply HG; now right].
    + apply (best_of_ext heap PL GL
               (fun p u => (seen p u \/ (p = p0 /\ u = u0)) \/ (p = p0 /\ u ∈ G)));
        [|exact Hscan].
      cbn. intros p u [H|[-> H]]; [now left; left|].
      apply elem_of_cons in H as [->|H]; [left; right; now split|right; now split].
    + destruct (closer (SqDistance P U) Best) eqn:Hc.
      * apply closer_true in Hc. cbn.
        split; [assumption|]. split; [apply HG; left|].
        exists P, U. repeat (split; [assumption || reflexivity|]).
        destruct Best as [[[d' p] u]|]; cbn in HBest.
        -- destruct HBest as (_ & _ & P1 & U1 & _ & _ & -> & Hlt & Hmin).
           split; [now apply (Qlt_trans _ _ _ Hc)|].
           intros p' u' P' U' [Hs|[-> ->]] HP' HU'.
           ++ apply Qlt_le_weak. eapply Qlt_le_trans; [exact Hc|].
              now apply (Hmin p' u').
           ++ assert (P' = P) as -> by congruence.
              assert (U' = U) as -> by congruence. apply Qle_refl.
        -- split; [exact Hc|].
           intros p' u' P' U' [Hs|[-> ->]] HP' HU'.
           ++ apply Qlt_le_weak. eapply Qlt_le_trans; [exact Hc|].
              now apply (HBest p' u').
           ++ assert (P' = P) as -> by congruence.
              assert (U' = U) as -> by congruence. apply Qle_refl.
      * apply closer_false in Hc.
        destruct Best as [[[d' p] u]|]; cbn in HBest |- *.
        -- destruct HBest as (Hp & Hu & P1 & U1 & HP1 & HU1 & Hd & Hlt & Hmin).
           split; [assumption|]. split; [assumption|].
           exists P1, U1. repeat (split; [assumption|]).
           intros p' u' P' U' [Hs|[-> ->]] HP' HU'; [now apply (Hmin p' u')|].
           assert (P' = P) as -> by congruence.
           assert (U' = U) as -> by congruence. exact Hc.
        -- intros p' u' P' U' [Hs|[-> ->]] HP' HU'; [now apply (HBest p' u')|].
           assert (P' = P) as -> by congruence.
           assert (U' = U) as -> by congruence. exact Hc.
Qed.

Lemma ScanPlaced_best (heap : Heap) (PL GL : list ref) (G : list ref)
    (L : list ref) :
  forall (seen : ref -> ref -> Prop) (Best b : BestPair),
  best_of heap PL GL seen Best ->
  (forall p, p ∈ L -> p ∈ PL) -> (forall u, u ∈ G -> u ∈ GL) ->
  ScanPlaced heap L G Best = Ok b ->
  best_of heap PL GL (fun p u => seen p u \/ (p ∈ L /\ u ∈ G)) b.
Proof.
  induction L as [|p0 L IH]; intros seen Best b HBest HL HG; cbn [ScanPlaced].
  - intros [= <-]. apply (best_of_ext heap PL GL seen); [|assumption].
    intros p u [H|[H _]]; [assumption|inversion H].
  - destruct (ScanUnPlaced heap p0 G Best) as [Best'| |] eqn:Hrow;
      cbn [bind]; [|discriminate|discriminate].
    intros Hscan.
    pose proof (ScanUnPlaced_best heap PL GL p0 G seen Best Best' HBest
                  (HL p0 ltac:(left)) HG Hrow) as HBest'.
    apply (IH _ _ _ HBest') in Hscan;
      [|intros p Hp; apply HL; now right|assumption].
    apply (best_of_ext heap PL GL
             (fun p u => (seen p u \/ (p = p0 /\ u ∈ G)) \/ (p ∈ L /\ u ∈ G)));
      [|exact Hscan].
    cbn. intros p u [H|[Hp Hu]]; [now left; left|].
    apply elem_of_cons in Hp as [->|Hp]; [left; right; now split|right; now split].
Qed.

(** X6.  The scan for the nearest pair, over any two lists of nodes: the pair
    it finds is a placed and an unplaced node of the lists, with its
    squared distance, which is below [float.MaxValue], and no pair of the
    lists is at a smaller squared distance; it finds no pair only when no
    pair of the lists is at a squared distance below [float.MaxValue]
    (so also when one of the lists is empty).  Squared distances are
    exact rationals here: a distance that the floats of the code round
    to infinity or that is NaN is not below [float.MaxValue] either. *)
Theorem ScanPlaced_nearest (heap : Heap) (PlacedNodes GridNodes : list ref)
    (b : BestPair) :
  ScanPlaced heap PlacedNodes GridNodes None = Ok b ->
  match b with
  | None =>
      forall p u P U,
        p ∈ PlacedNodes -> u ∈ GridNodes ->
        heap !! p = Some P -> heap !! u = Some U ->
        float_MaxValue <= SqDistance P U
  | Some (d, p, u) =>
      p ∈ PlacedNodes /\ u ∈ GridNodes
      /\ exists P U, heap !! p = Some P /\ heap !! u = Some U
           /\ d = SqDistance P U
           /\ d < float_MaxValue
           /\ forall p' u' P' U',
                p' ∈ PlacedNodes -> u' ∈ GridNodes ->
                heap !! p' = Some P' -> heap !! u' = Some U' ->
                d <= SqDistance P' U'
  end.
Proof.
  intros Hscan.
  pose proof (ScanPlaced_best heap PlacedNodes GridNodes GridNodes PlacedNodes
                (fun _ _ => False) None b ltac:(cbn; tauto)
                ltac:(auto) ltac:(auto) Hscan) as HB.
  destruct b as [[[d p] u]|]; cbn in HB.
  - destruct HB as (Hp & Hu & P & U & HP & HU & Hd & Hlt & Hmin).
    split; [assumption|]. split; [assumption|].
    exists P, U. repeat (split; [assumption|]).
    intros p' u' P' U' Hp' Hu'. apply Hmin. right. now split.
  - intros p u P U Hp Hu. apply (HB p u P U). right. now split.
Qed.

(** Witness: the heap at the entry of the loop for [shot_A], [shot_C],
    [shot_B]; the nearest pair of the root and the two others is the root
    and the node of [shot_B]. *)
Lemma ScanPlaced_nearest_witness :
  SqDistance (new_GridNode Log_dyadic shot_A) (new_GridNode Log_dyadic shot_B)
  <= SqDistance (new_GridNode Log_dyadic shot_A) (new_GridNode Log_dyadic shot_C).
Proof.
  destruct (ScanPlaced_nearest
              (map (new_GridNode Log_dyadic) [shot_A; shot_C; shot_B])
              [0%nat] [1%nat; 2%nat]
              (Some (SqDistance (new_GridNode Log_dyadic shot_A)
                       (new_GridNode Log_dyadic shot_B), 0%nat, 2%nat))
              ltac:(vm_compute; reflexivity))
    as (_ & _ & P & U & HP & HU & Hd & _ & Hmin).
  apply (Hmin 0%nat 1%nat); [left|left|reflexivity|reflexivity].
Defined.

(** ** The choice of the root *)






(** ** Files that are skipped *)

Lemma LoadFiles_log (Log : Q -> Q) (files : list CameraCalibration) :
  forall st st',
  LoadFiles Log st files = Ok st' ->
  length (ld_ErrorLog st')
  = (length (ld_ErrorLog st)
     + length (List.filter (fun CC => negb (valid_file CC)) files))%nat.
Proof.
  induction files as [|CC files IH]; intros st st'; cbn [LoadFiles].
  - intros [= <-]. cbn. lia.
  - destruct (LoadFile Log st CC) as [st1| |] eqn:E; cbn [bind]; try discriminate.
    intros H. rewrite (IH _ _ H). clear IH H.
    unfold LoadFile in E. fold (valid_file CC) in E. cbn [List.filter].
    destruct (valid_file CC); cbn [negb] in *.
    + destruct (deref _ _); cbn [bind] in E; try discriminate.
      destruct (match ld_RootNode st with Some _ => _ | None => _ end);
        cbn [bind] in E; try discriminate.
      injection E as <-. cbn. lia.
    + injection E as <-. cbn. rewrite length_app. cbn. lia.
Qed.

(** X8.  A file without the six probes is skipped: the database keeps the
    calibrations of the files with six probes, in their order, and has one
    node for each of them, in the same order, whether or not the
    construction is then aborted; the error log has one line for each file
    skipped, and one more when no file is left. *)
Theorem invalid_files_skipped_and_logged (Log : Q -> Q)
    (files : list CameraCalibration) :
  let db := fst (load Log files) in
  m_CameraClibrations db = List.filter valid_file files
  /\ map m_CameraCalibration (m_Heap db) = List.filter valid_file files
  /\ length (m_ErrorLog db)
     = (length (List.filter (fun CC => negb (valid_file CC)) files)
        + match List.filter valid_file files with [] => 1 | _ :: _ => 0 end)%nat.
Proof.
  cbv zeta.
  destruct (LoadFiles_Loaded Log files load_start (Loaded_start Log))
    as (st & E & L & Hheap).
  pose proof (LoadFiles_log Log files load_start st E) as Hlog.
  cbn in Hheap, Hlog.
  destruct (LoopEntry Log files) as [[[root heap0] G0]|] eqn:Hentry.
  - destruct (LoopEntry_inv Log files root heap0 G0 Hentry) as (Inv0 & Hheap0 & _).
    destruct (load_built Log files root heap0 G0 Hentry)
      as (_ & Hh & _ & _ & _ & _ & _ & Hcc).
    split; [exact Hcc|].
    destruct (BuildLoop_spec root (length G0) heap0 G0 Inv0 (le_n _))
      as (_ & _ & Hlen & Hdata & _).
    split.
    + rewrite Hh. transitivity (map m_CameraCalibration heap0).
      * apply list_eq. intros k. rewrite !list_lookup_fmap.
        destruct (fst (BuildLoop (length G0) heap0 [root] G0) !! k) as [N'|] eqn:HN'.
        -- destruct (Hdata k N' HN') as (N & -> & Hd). cbn.
           unfold data in Hd. congruence.
        -- apply lookup_ge_None in HN'. rewrite Hlen in HN'.
           apply lookup_ge_None in HN'. now rewrite HN'.
      * rewrite Hheap0, map_map. cbn. apply map_id.
    + assert (Hne : List.filter valid_file files <> []).
      { intros Hnil. rewrite Hnil in Hheap0. subst heap0.
        pose proof (inv_root _ _ _ Inv0) as Hr. cbn in Hr. lia. }
      destruct (List.filter valid_file files) eqn:Hf; [congruence|].
      rewrite Nat.add_0_r, <- Hlog.
      unfold LoopEntry in Hentry. rewrite E in Hentry.
      destruct (ld_RootNode st) as [r|] eqn:Hr; [|discriminate].
      unfold load, set_DatabasePath. cbn.
      change {| ld_RootNode := None; ld_ErrorLog := [];
                ld_CameraCalibrations := []; ld_GridNodes := [];
                ld_Heap := [] |} with load_start.
      rewrite E.
      assert (Hn0 : Nat.eqb (length (ld_CameraCalibrations st)) 0 = false).
      { rewrite (ld_calibrations _ _ L), length_map, Hheap, length_map.
        reflexivity. }
      rewrite Hn0. cbn. rewrite Hr.
      now destruct (BuildLoop (length (Remove r (ld_GridNodes st))) (ld_Heap st)
                      [r] (Remove r (ld_GridNodes st))).
  - destruct (load_empty Log files Hentry) as (_ & _ & Hnil).
    rewrite Hnil in *. cbn in Hheap.
    unfold LoopEntry in Hentry. rewrite E in Hentry.
    unfold load, set_DatabasePath. cbn.
    change {| ld_RootNode := None; ld_ErrorLog := [];
              ld_CameraCalibrations := []; ld_GridNodes := [];
              ld_Heap := [] |} with load_start.
    rewrite E.
    assert (Hn0 : Nat.eqb (length (ld_CameraCalibrations st)) 0 = true).
    { rewrite (ld_calibrations _ _ L), Hheap. reflexivity. }
    rewrite Hn0. cbn.
    rewrite (ld_calibrations _ _ L), Hheap, length_app, Hlog. cbn.
    repeat split; lia.
Qed.

(** * Further properties of the interpolation *)

(** ** Preparing twice *)

Lemma IsPreparedFor_iff (db : Database) (iso shutter aperture : Q) :
  IsPreparedFor db iso shutter aperture = true
  <-> Qabs (iso - m_PreparedForISOSpeed db) < float_1em6
      /\ Qabs (shutter - m_PreparedForShutterSpeed db) < float_1em6
      /\ Qabs (aperture - m_PreparedForAperture db) < float_1em6.
Proof.
  unfold IsPreparedFor. rewrite !andb_true_iff, !Qlt_bool_iff. tauto.
Qed.

Lemma Qabs_diag_small (x : Q) : Qabs (x - x) < float_1em6.
Proof.
  assert (H : x - x == 0) by ring. rewrite H. reflexivity.
Qed.

(** What [PrepareCalibrationFor] stores on a database that has a root. *)
Lemma PrepareCalibrationFor_built (Log : Q -> Q) (files : list CameraCalibration)
    (root : ref) (iso shutter aperture : Q) :
  let db := fst (load Log files) in
  m_RootNode db = Some root ->
  exists c Ls,
    LocateCell db iso shutter aperture = Ok c
    /\ InterpolateProbes c
         (let '(EVx, EVy, EVz) := Convert2EV Log iso shutter aperture in
          ComputeInterpolants c EVx EVy EVz)
         (seq 0 REQUIRED_PROBES_COUNT) = (Ls, Ok tt)
    /\ PrepareCalibrationFor Log db iso shutter aperture
       = (with_PreparedFor db iso shutter aperture (Some Ls), Ok tt).
Proof.
  intros db Hroot.
  destruct (LocateCell_spec Log files root iso shutter aperture Hroot)
    as (start & g & c & _ & _ & _ & Hcell & _ & _ & _ & _ & _ & _ & _ & _ & _
        & Hprobes).
  fold db in Hcell.
  destruct (Convert2EV Log iso shutter aperture) as [[EVx EVy] EVz] eqn:HEV.
  destruct (InterpolateProbes_spec c (ComputeInterpolants c EVx EVy EVz)
              (seq 0 REQUIRED_PROBES_COUNT) Hprobes seq_probes_in_range)
    as (Ls & HLs & _).
  exists c, Ls. split; [assumption|]. split; [assumption|].
  unfold PrepareCalibrationFor. rewrite Hroot, HEV.
  change (LocateCell (with_PreparedFor db iso shutter aperture
                        (m_InterpolatedCalibration db)) iso shutter aperture)
    with (LocateCell db iso shutter aperture).
  rewrite Hcell, HLs. reflexivity.
Qed.

(** X9.  On a database that has a root, [PrepareCalibrationFor] returns
    normally; afterwards [IsPreparedFor] is true for the same parameters
    (and for exactly those at a distance below the literal [1e-6f], which
    is [float_1em6], from them on each axis, the differences being exact),
    a second call with the same parameters changes nothing, and
    [Calibrate] returns the calibration curve of the stored luminances
    applied to its argument. *)
Theorem PrepareCalibrationFor_idempotent (Log : Q -> Q)
    (CameraCalibration_Calibrate : list Q -> Q -> Q)
    (files : list CameraCalibration) (root : ref) (iso shutter aperture : Q) :
  let db := fst (load Log files) in
  let db1 := fst (PrepareCalibrationFor Log db iso shutter aperture) in
  m_RootNode db = Some root ->
  PrepareCalibrationFor Log db iso shutter aperture = (db1, Ok tt)
  /\ IsPreparedFor db1 iso shutter aperture = true
  /\ (forall iso' shutter' aperture',
        IsPreparedFor db1 iso' shutter' aperture' = true
        <-> Qabs (iso' - iso) < float_1em6
            /\ Qabs (shutter' - shutter) < float_1em6
            /\ Qabs (aperture' - aperture) < float_1em6)
  /\ PrepareCalibrationFor Log db1 iso shutter aperture = (db1, Ok tt)
  /\ exists Ls, m_InterpolatedCalibration db1 = Some Ls
       /\ forall luminance,
            Calibrate CameraCalibration_Calibrate db1 luminance
            = Ok (CameraCalibration_Calibrate Ls luminance).
Proof.
  intros db db1 Hroot.
  destruct (PrepareCalibrationFor_built Log files root iso shutter aperture Hroot)
    as (c & Ls & Hcell & HLs & Hprep).
  fold db in Hcell, Hprep. unfold db1. rewrite Hprep. cbn [fst].
  split; [reflexivity|]. split; [|split; [|split]].
  - apply IsPreparedFor_iff. cbn. repeat split; apply Qabs_diag_small.
  - intros iso' shutter' aperture'. apply IsPreparedFor_iff.
  - unfold PrepareCalibrationFor. cbn [m_RootNode with_PreparedFor]. rewrite Hroot.
    destruct (Convert2EV Log iso shutter aperture) as [[EVx EVy] EVz].
    change (LocateCell _ iso shutter aperture)
      with (LocateCell db iso shutter aperture).
    rewrite Hcell, HLs. reflexivity.
  - exists Ls. split; [reflexivity|]. intros luminance.
    unfold Calibrate. cbn. now rewrite Hroot.
Qed.

(** Witness: the database of [shot_A] and [shot_B], prepared twice for
    ISO 150, 1 s, f/1.0. *)
Lemma PrepareCalibrationFor_idempotent_witness :
  IsPreparedFor
    (fst (PrepareCalibrationFor Log_dyadic (fst (load Log_dyadic [shot_A; shot_B]))
            150 1 1)) 150 1 1 = true.
Proof.
  exact (proj1 (proj2 (PrepareCalibrationFor_idempotent Log_dyadic Calibrate_scale
                         [shot_A; shot_B] 0%nat 150 1 1
                         ltac:(vm_compute; reflexivity)))).
Defined.

(** ** The interpolated luminance lies between the corner luminances *)

Lemma lerp_between (t a b lo hi : Q) :
  clamped t -> lo <= a <= hi -> lo <= b <= hi ->
  lo <= (1 - t) * a + t * b <= hi.
Proof. unfold clamped. intros [Ht0 Ht1] [Ha0 Ha1] [Hb0 Hb1]. split; nra. Qed.

Lemma InterpolateProbe_between (c : Cell) (t : Interpolants) (k : nat) (L lo hi : Q) :
  InterpolateProbe c t k = Ok L ->
  clamped (x4 (tX t)) -> clamped (x2 (tY t)) -> clamped (y2 (tY t)) ->
  clamped (tZ t) ->
  (forall N l, N ∈ cell_nodes c ->
     luminances (m_CameraCalibration N) !! k = Some l -> lo <= l <= hi) ->
  lo <= L <= hi.
Proof.
  intros HL HtX HtYx HtYy HtZ Hbound.
  assert (Hlum : forall N l, N ∈ cell_nodes c -> LuminanceMeasured N k = Ok l ->
                   lo <= l <= hi).
  { intros N l HN Hl. apply (Hbound N l HN). unfold LuminanceMeasured in Hl.
    unfold luminances. rewrite list_lookup_fmap.
    destruct (m_Reflectances (m_CameraCalibration N) !! k); [|discriminate].
    now injection Hl as <-. }
  unfold InterpolateProbe in HL.
  destruct (LuminanceMeasured (N000 c) k) as [l000| |] eqn:E000; try discriminate.
  destruct (LuminanceMeasured (N100 c) k) as [l100| |] eqn:E100; try discriminate.
  destruct (LuminanceMeasured (N010 c) k) as [l010| |] eqn:E010; try discriminate.
  destruct (LuminanceMeasured (N110 c) k) as [l110| |] eqn:E110; try discriminate.
  destruct (LuminanceMeasured (N001 c) k) as [l001| |] eqn:E001; try discriminate.
  destruct (LuminanceMeasured (N101 c) k) as [l101| |] eqn:E101; try discriminate.
  destruct (LuminanceMeasured (N011 c) k) as [l011| |] eqn:E011; try discriminate.
  destruct (LuminanceMeasured (N111 c) k) as [l111| |] eqn:E111; try discriminate.
  cbn in HL. injection HL as <-.
  assert (Hin : forall N, In N (cell_nodes c) -> N ∈ cell_nodes c)
    by (intros N; apply list_elem_of_In).
  repeat apply lerp_between; try assumption;
    match goal with
    | E : LuminanceMeasured ?N k = Ok ?l |- _ <= ?l <= _ =>
        apply (Hlum N l); [apply Hin; cbn; tauto|exact E]
    end.
Qed.

(** The nodes of the cell are nodes of the heap. *)
Lemma LocateCell_nodes (db : Database) (iso shutter aperture : Q) (c : Cell)
    (N : GridNode) :
  LocateCell db iso shutter aperture = Ok c -> N ∈ cell_nodes c ->
  exists r, m_Heap db !! r = Some N.
Proof.
  unfold LocateCell.
  destruct (FindStartNode db iso shutter aperture) as [start| |]; try discriminate.
  cbn [bind].
  destruct (BuildGrid (m_Heap db) start) as [g| |]; try discriminate. cbn [bind].
  unfold deref_Grid, deref.
  repeat match goal with
         | |- context [m_Heap db !! ?r] =>
             let E := fresh "E" in
             destruct (m_Heap db !! r) eqn:E; cbn [bind]; [|discriminate]
         end.
  intros [= <-] HN. unfold cell_nodes in HN. cbn in HN.
  repeat (apply elem_of_cons in HN as [->|HN]; [eauto|]).
  inversion HN.
Qed.

(** The luminances that [PrepareCalibrationFor] stores on a database that
    has a root: one for each probe, interpolated in the cell. *)
Lemma PrepareCalibrationFor_probes (Log : Q -> Q) (files : list CameraCalibration)
    (root : ref) (iso shutter aperture : Q) :
  let db := fst (load Log files) in
  m_RootNode db = Some root ->
  exists c EVx EVy EVz Ls,
    LocateCell db iso shutter aperture = Ok c
    /\ PrepareCalibrationFor Log db iso shutter aperture
       = (with_PreparedFor db iso shutter aperture (Some Ls), Ok tt)
    /\ Forall2 (fun L i => InterpolateProbe c (ComputeInterpolants c EVx EVy EVz) i
                           = Ok L)
         Ls (seq 0 REQUIRED_PROBES_COUNT).
Proof.
  intros db Hroot.
  destruct (PrepareCalibrationFor_built Log files root iso shutter aperture Hroot)
    as (c & Ls & Hcell & HLs & Hprep).
  fold db in Hcell, Hprep.
  destruct (Convert2EV Log iso shutter aperture) as [[EVx EVy] EVz].
  exists c, EVx, EVy, EVz, Ls. split; [assumption|]. split; [assumption|].
  set (t := ComputeInterpolants c EVx EVy EVz) in *.
  assert (Hall : forall indices Ms,
            InterpolateProbes c t indices = (Ms, Ok tt) ->
            Forall2 (fun M i => InterpolateProbe c t i = Ok M) Ms indices).
  { induction indices as [|i indices IH]; intros Ms; cbn [InterpolateProbes].
    - intros [= <-]. constructor.
    - destruct (InterpolateProbe c t i) as [M| |] eqn:EM; try discriminate.
      destruct (InterpolateProbes c t indices) as [Ms' o].
      intros [= <- ->]. constructor; [assumption|now apply IH]. }
  now apply Hall.
Qed.

(** X10.  On a database that has a root and whose files have positive shot
    values, each luminance that [PrepareCalibrationFor] stores for positive
    shot parameters lies between any two bounds of the luminances that the
    nodes of the heap have for this probe: the interpolation does not
    leave the range of the measured luminances.  (Floats idealised as
    rationals: the EVs are finite and no product is rounded.) *)
Theorem interpolated_luminance_within_measured (Log : Q -> Q)
    (files : list CameraCalibration) (root : ref) (iso shutter aperture : Q)
    (k : nat) (lo hi : Q) :
  let db := fst (load Log files) in
  m_RootNode db = Some root ->
  positive_shots files ->
  0 < iso -> 0 < shutter -> 0 < aperture ->
  (forall n N l, m_Heap db !! n = Some N ->
     luminances (m_CameraCalibration N) !! k = Some l -> lo <= l <= hi) ->
  exists Ls,
    m_InterpolatedCalibration
      (fst (PrepareCalibrationFor Log db iso shutter aperture)) = Some Ls
    /\ length Ls = REQUIRED_PROBES_COUNT
    /\ forall L, Ls !! k = Some L -> lo <= L <= hi.
Proof.
  intros db Hroot _ _ _ _ Hbound.
  destruct (PrepareCalibrationFor_probes Log files root iso shutter aperture Hroot)
    as (c & EVx & EVy & EVz & Ls & Hcell & Hprep & HF).
  fold db in Hcell, Hprep. rewrite Hprep. cbn [fst].
  exists Ls. split; [reflexivity|]. split.
  { apply Forall2_length in HF. rewrite HF. apply length_seq. }
  intros L HL.
  destruct (Forall2_lookup_l _ _ _ _ _ HF HL) as (i & Hi & HLi).
  apply lookup_seq in Hi as [-> _]. cbn in HLi.
  destruct (ComputeInterpolants_clamped c EVx EVy EVz)
    as (H1 & _ & _ & _ & H5 & H6 & H7).
  apply (InterpolateProbe_between c _ k L lo hi HLi H1 H5 H6 H7).
  intros N l HN Hl.
  destruct (LocateCell_nodes db iso shutter aperture c N Hcell HN) as [r Hr].
  exact (Hbound r N l Hr Hl).
Qed.

(** Witness: the database of [shot_A] and [shot_B], whose luminances are
    between 1/10 and 2/10, prepared for ISO 150, 1 s, f/1.0. *)
Lemma interpolated_luminance_within_measured_witness :
  exists Ls,
    m_InterpolatedCalibration
      (fst (PrepareCalibrationFor Log_dyadic
              (fst (load Log_dyadic [shot_A; shot_B])) 150 1 1)) = Some Ls
    /\ length Ls = REQUIRED_PROBES_COUNT.
Proof.
  destruct (interpolated_luminance_within_measured Log_dyadic [shot_A; shot_B]
              0%nat 150 1 1 0%nat (1 # 10) (2 # 10)) as (Ls & HLs & Hlen & _).
  - vm_compute; reflexivity.
  - repeat constructor.
  - reflexivity.
  - reflexivity.
  - reflexivity.
  - intros [|[|n]] N l HN Hl; vm_compute in HN; [| |discriminate];
      injection HN as <-; vm_compute in Hl; injection Hl as <-;
      split; discriminate.
  - exists Ls. split; assumption.
Defined.

(** ** A database of one sample *)

(** X11.  When exactly one file has the six probes, the setter returns
    normally; when the shot values of that file are positive,
    [PrepareCalibrationFor] stores its six measured luminances for all
    positive shot parameters.  (Floats idealised as rationals: the EVs
    are finite and no product is rounded.) *)
Theorem single_sample_database (Log : Q -> Q) (files : list CameraCalibration)
    (CC : CameraCalibration) (iso shutter aperture : Q) :
  List.filter valid_file files = [CC] ->
  let db := fst (load Log files) in
  snd (load Log files) = Ok tt
  /\ (positive_shot CC -> 0 < iso -> 0 < shutter -> 0 < aperture ->
      exists Ls,
        PrepareCalibrationFor Log db iso shutter aperture
        = (with_PreparedFor db iso shutter aperture (Some Ls), Ok tt)
        /\ Forall2 Qeq Ls (luminances CC)).
Proof.
  intros Hone db.
  destruct (LoopEntry Log files) as [[[root heap0] G0]|] eqn:Hentry.
  2:{ destruct (load_empty Log files Hentry) as (_ & _ & Hnil). congruence. }
  destruct (LoopEntry_inv Log files root heap0 G0 Hentry) as (Inv0 & Hheap0 & Hmade).
  destruct (load_built Log files root heap0 G0 Hentry)
    as (Hroot & Hheap & Hout & _).
  fold db in Hroot, Hheap. rewrite Hone in Hheap0. cbn in Hheap0.
  assert (HG0 : G0 = []).
  { unfold LoopEntry in Hentry.
    destruct (LoadFiles_Loaded Log files load_start (Loaded_start Log))
      as (st & E & L & Hst).
    rewrite E in Hentry. destruct (ld_RootNode st) as [r|] eqn:Hr; [|discriminate].
    injection Hentry as <- <- <-.
    rewrite (ld_nodes _ _ L), Hheap0. cbn.
    pose proof (ld_root _ _ L) as Hlt. rewrite Hr, Hheap0 in Hlt. cbn in Hlt.
    now replace r with 0%nat by lia. }
  subst G0. cbn in Hheap, Hout. split; [exact Hout|]. intros _ _ _ _.
  destruct (PrepareCalibrationFor_probes Log files root iso shutter aperture Hroot)
    as (c & EVx & EVy & EVz & Ls & Hcell & Hprep & HF).
  fold db in Hcell, Hprep.
  exists Ls. split; [exact Hprep|].
  assert (Hlen : length (luminances CC) = REQUIRED_PROBES_COUNT).
  { unfold luminances. rewrite length_map.
    destruct (Hmade 0%nat (new_GridNode Log CC)) as (_ & _ & H6);
      [now rewrite Hheap0|exact H6]. }
  apply Forall2_same_length_lookup_2.
  - apply Forall2_length in HF. now rewrite HF, length_seq, Hlen.
  - intros k L l HL Hl.
    destruct (Forall2_lookup_l _ _ _ _ _ HF HL) as (i & Hi & HLi).
    apply lookup_seq in Hi as [-> _]. cbn in HLi.
    destruct (ComputeInterpolants_clamped c EVx EVy EVz)
      as (H1 & _ & _ & _ & H5 & H6 & H7).
    assert (Hb : l <= L <= l).
    { apply (InterpolateProbe_between c _ k L l l HLi H1 H5 H6 H7).
      intros N m HN Hm.
      destruct (LocateCell_nodes db iso shutter aperture c N Hcell HN) as [r Hr].
      rewrite Hheap, Hheap0 in Hr.
      destruct r as [|r]; [|destruct r; discriminate].
      injection Hr as <-. cbn in Hm.
      assert (m = l) as -> by congruence.
      split; apply Qle_refl. }
    destruct Hb as [Hb1 Hb2]. now apply Qle_antisym.
Qed.

(** Witness: [shot_C] alone, prepared for ISO 100, 2 s, f/4. *)
Lemma single_sample_database_witness :
  exists Ls,
    PrepareCalibrationFor Log_dyadic (fst (load Log_dyadic [shot_C])) 100 2 4
    = (with_PreparedFor (fst (load Log_dyadic [shot_C])) 100 2 4 (Some Ls), Ok tt)
    /\ Forall2 Qeq Ls (luminances shot_C).
Proof.
  apply (proj2 (single_sample_database Log_dyadic [shot_C] shot_C 100 2 4
                  ltac:(reflexivity))).
  - repeat constructor.
  - reflexivity.
  - reflexivity.
  - reflexivity.
Defined.

(** ** A start node other than the root *)

(** On the heap the setter leaves, the node [FindStartNode] returns is the
    root or a "next" neighbor of the root. *)
Lemma FindStartNode_near_root (Log : Q -> Q) (files : list CameraCalibration)
    (root : ref) (tx ty tz : Q) (start : ref) :
  let db := fst (load Log files) in
  m_RootNode db = Some root ->
  FindStartNode db tx ty tz = Ok start ->
  start = root \/ exists a, slot (m_Heap db) root a 1 = Some start.
Proof.
  intros db Hroot Hfind.
  destruct (load_heap Log files root Hroot) as ((G & Inv) & _ & _).
  fold db in Inv.
  pose proof (inv_root _ _ _ Inv) as Hlt.
  unfold FindStartNode in Hfind. rewrite Hroot in Hfind.
  destruct (length (m_Heap db)) as [|len] eqn:Hlen; [lia|].
  destruct (Walk_near_root root _ G AxisX tx len root Inv (or_introl eq_refl))
    as (rx & Hx & Hrx).
  destruct (Walk_near_root root _ G AxisY ty len rx Inv Hrx) as (ry & Hy & Hry).
  destruct (Walk_near_root root _ G AxisZ tz len ry Inv Hry) as (rz & Hz & Hrz).
  rewrite Hx in Hfind. cbn [bind] in Hfind.
  rewrite Hy in Hfind. cbn [bind] in Hfind.
  rewrite Hz in Hfind. cbn [bind] in Hfind.
  injection Hfind as <-. exact Hrz.
Qed.

(** X12.  On a database whose files have positive shot values, when
    [FindStartNode] returns a node other than the root for positive shot
    parameters, the eight corners of the cell are that node, and
    [PrepareCalibrationFor] stores the measured luminances of that node:
    nothing is interpolated.  (Floats idealised as rationals: the EVs are
    finite and no product is rounded.) *)
Theorem start_node_off_root_not_interpolated (Log : Q -> Q)
    (files : list CameraCalibration) (root : ref) (iso shutter aperture : Q)
    (start : ref) :
  let db := fst (load Log files) in
  m_RootNode db = Some root ->
  positive_shots files ->
  0 < iso -> 0 < shutter -> 0 < aperture ->
  FindStartNode db iso shutter aperture = Ok start ->
  start <> root ->
  exists St Ls,
    m_Heap db !! start = Some St
    /\ BuildGrid (m_Heap db) start
       = Ok {| G000 := start; G100 := start; G010 := start; G001 := start;
               G110 := start; G011 := start; G101 := start; G111 := start |}
    /\ PrepareCalibrationFor Log db iso shutter aperture
       = (with_PreparedFor db iso shutter aperture (Some Ls), Ok tt)
    /\ Forall2 Qeq Ls (luminances (m_CameraCalibration St)).
Proof.
  intros db Hroot _ _ _ _ Hfind Hne.
  destruct (load_heap Log files root Hroot) as ((G & Inv) & Hmade & _).
  fold db in Inv, Hmade.
  destruct (FindStartNode_near_root Log files root iso shutter aperture start
              Hroot Hfind) as [->|[a Hs]]; [contradiction|].
  fold db in Hs.
  destruct (inv_star _ _ _ Inv a start Hs) as (_ & _ & Hleaf).
  pose proof (inv_refs _ _ _ Inv root a 1%nat start Hs) as Hlt.
  destruct (lookup_lt_is_Some_2 _ _ Hlt) as [St HSt].
  assert (Hnext : forall a', NextOrSelf (m_Heap db) a' start = Ok start).
  { intros a'. rewrite (NextOrSelf_spec _ a' start Hlt), (Hleaf a'). reflexivity. }
  assert (Hgrid : BuildGrid (m_Heap db) start
                  = Ok {| G000 := start; G100 := start; G010 := start;
                          G001 := start; G110 := start; G011 := start;
                          G101 := start; G111 := start |}).
  { unfold BuildGrid. rewrite !Hnext. cbn [bind]. rewrite !Hnext. cbn [bind].
    rewrite !Hnext. reflexivity. }
  destruct (PrepareCalibrationFor_probes Log files root iso shutter aperture Hroot)
    as (c & EVx & EVy & EVz & Ls & Hcell & Hprep & HF).
  fold db in Hcell, Hprep.
  assert (Hc : forall N, N ∈ cell_nodes c -> N = St).
  { unfold LocateCell in Hcell. rewrite Hfind in Hcell. cbn [bind] in Hcell.
    rewrite Hgrid in Hcell. cbn [bind] in Hcell.
    unfold deref_Grid in Hcell. cbn [G000 G100 G010 G001 G110 G011 G101 G111] in Hcell.
    rewrite (deref_Some _ _ _ HSt) in Hcell. cbn [bind] in Hcell.
    injection Hcell as <-. unfold cell_nodes. cbn.
    intros N HN. repeat (apply elem_of_cons in HN as [->|HN]; [reflexivity|]).
    inversion HN. }
  exists St, Ls. split; [exact HSt|]. split; [exact Hgrid|]. split; [exact Hprep|].
  assert (Hlen : length (luminances (m_CameraCalibration St)) = REQUIRED_PROBES_COUNT).
  { unfold luminances. rewrite length_map. exact (proj2 (Hmade start St HSt)). }
  apply Forall2_same_length_lookup_2.
  - apply Forall2_length in HF. now rewrite HF, length_seq, Hlen.
  - intros k L l HL Hl.
    destruct (Forall2_lookup_l _ _ _ _ _ HF HL) as (i & Hi & HLi).
    apply lookup_seq in Hi as [-> _]. cbn in HLi.
    destruct (ComputeInterpolants_clamped c EVx EVy EVz)
      as (H1 & _ & _ & _ & H5 & H6 & H7).
    assert (Hb : l <= L <= l).
    { apply (InterpolateProbe_between c _ k L l l HLi H1 H5 H6 H7).
      intros N m HN Hm. rewrite (Hc N HN) in Hm.
      assert (m = l) as -> by congruence.
      split; apply Qle_refl. }
    destruct Hb as [Hb1 Hb2]. now apply Qle_antisym.
Qed.

(** Witness: the database of [shot_D] (the root) and [shot_A], prepared for
    the raw parameters (2, 1, 1): the start node is [shot_A], and the
    luminances stored are those of [shot_A]. *)
Lemma start_node_off_root_not_interpolated_witness :
  FindStartNode (fst (load Log_dyadic [shot_D; shot_A])) 2 1 1 = Ok 1%nat
  /\ exists Ls,
       m_InterpolatedCalibration
         (fst (PrepareCalibrationFor Log_dyadic
                 (fst (load Log_dyadic [shot_D; shot_A])) 2 1 1)) = Some Ls
       /\ Forall2 Qeq Ls (luminances shot_A).
Proof.
  split; [vm_compute; reflexivity|].
  destruct (start_node_off_root_not_interpolated Log_dyadic [shot_D; shot_A]
              0%nat 2 1 1 1%nat)
    as (St & Ls & HSt & _ & Hprep & HLs).
  - vm_compute; reflexivity.
  - repeat constructor.
  - reflexivity.
  - reflexivity.
  - reflexivity.
  - vm_compute; reflexivity.
  - discriminate.
  - exists Ls. split; [now rewrite Hprep|].
    vm_compute in HSt. injection HSt as <-. exact HLs.
Defined.

(** ** The fields of a database, in every state an object can reach *)

(** The loop over the files, from any arena: it returns, keeps the
    calibrations of the files with six probes, and has a root exactly when
    it had one or has kept a file. *)
Lemma LoadFiles_any (Log : Q -> Q) (files : list CameraCalibration) :
  forall st,
  match ld_RootNode st with
  | Some r => (r < length (ld_Heap st))%nat
  | None => True
  end ->
  exists st', LoadFiles Log st files = Ok st'
    /\ ld_CameraCalibrations st'
       = ld_CameraCalibrations st ++ List.filter valid_file files
    /\ match ld_RootNode st' with
       | Some r => (r < length (ld_Heap st'))%nat
       | None => True
       end
    /\ (ld_RootNode st' = None
        <-> ld_RootNode st = None /\ List.filter valid_file files = []).
Proof.
  induction files as [|CC files IH]; intros st Hr; cbn [LoadFiles List.filter].
  - exists st. rewrite app_nil_r. tauto.
  - unfold LoadFile at 1. fold (valid_file CC).
    destruct (valid_file CC) eqn:Hv; cbn [negb].
    + set (New := new_GridNode Log CC).
      assert (Hnew : (ld_Heap st ++ [New]) !! length (ld_Heap st) = Some New).
      { rewrite lookup_app_r by lia. now rewrite Nat.sub_diag. }
      rewrite (deref_Some _ _ _ Hnew). cbn [bind].
      assert (Hb : exists better,
                match ld_RootNode st with
                | Some root =>
                    letR R := deref (ld_Heap st ++ [New]) root in
                    Ok (Qlt_bool (EV New) (EV R))
                | None => Ok true
                end = Ok better
                /\ (ld_RootNode st = None -> better = true)).
      { destruct (ld_RootNode st) as [r|]; [|now exists true].
        destruct (lookup_lt_is_Some_2 (ld_Heap st ++ [New]) r) as [R HR].
        { rewrite length_app. cbn. lia. }
        rewrite (deref_Some _ _ _ HR). cbn [bind]. eexists. split; [reflexivity|].
        discriminate. }
      destruct Hb as (better & -> & Hbetter). cbn [bind].
      match goal with
      | |- exists st', LoadFiles Log ?s files = _ /\ _ => destruct (IH s) as (st' & HL & Hc & Hr' & Hnone)
      end.
      { cbn. rewrite length_app. cbn.
        destruct better; [lia|]. destruct (ld_RootNode st); [lia|exact I]. }
      exists st'. split; [exact HL|]. split.
      { rewrite Hc. cbn. now rewrite <- app_assoc. }
      split; [exact Hr'|]. rewrite Hnone. cbn. split.
      * intros [H _]. destruct better; [discriminate|].
        destruct (ld_RootNode st); [discriminate|]. now specialize (Hbetter eq_refl).
      * intros [_ H]. discriminate.
    + match goal with
      | |- exists st', bind (Ok ?s) _ = _ /\ _ => destruct (IH s) as (st' & HL & Hc & Hr' & Hnone)
      end.
      { exact Hr. }
      exists st'. cbn [bind]. split; [exact HL|]. split; [exact Hc|].
      split; [exact Hr'|]. exact Hnone.
Qed.

Lemma Consistent_new : Consistent new_CameraCalibrationDatabase.
Proof.
  split; cbn.
  - auto.
  - split; [discriminate|congruence].
  - congruence.
  - congruence.
Qed.

(** The setter keeps the fields consistent, whatever the value and however
    it is left. *)
Lemma Consistent_set_DatabasePath (Log : Q -> Q) (db : Database)
    (value : option DirectoryInfo) :
  Consistent db -> Consistent (fst (set_DatabasePath Log db value)).
Proof.
  intros C. unfold set_DatabasePath.
  set (pre := match m_DatabasePath db with
              | Some _ => CleanUp db
              | None => db
              end).
  assert (Hpre : m_RootNode pre = None /\ m_CameraClibrations pre = []
                 /\ m_ErrorLog pre = [] /\ m_InterpolatedCalibration pre = None).
  { unfold pre. destruct (m_DatabasePath db) eqn:Hp.
    - cbn. auto.
    - exact (cons_no_path db C Hp). }
  destruct Hpre as (Hroot & Hcals & Hlog & Hint).
  assert (Hclean : forall v, Consistent (with_DatabasePath pre v)).
  { intros v. split; cbn; unfold IsValid; cbn; rewrite ?Hroot, ?Hcals, ?Hint.
    - auto.
    - split; [discriminate|congruence].
    - congruence.
    - congruence. }
  destruct value as [dir|]; [|apply Hclean].
  destruct (Exists dir) eqn:Hex; cbn [negb]; [|apply Hclean].
  cbn [m_RootNode m_ErrorLog m_Heap with_DatabasePath].
  match goal with
  | |- context [LoadFiles Log ?s _] =>
      destruct (LoadFiles_any Log (GetFiles dir) s) as (st & -> & Hc & _ & Hnone)
  end.
  { cbn. now rewrite Hroot. }
  cbn in Hc, Hnone. rewrite Hroot in Hnone.
  destruct (Nat.eqb_spec (length (ld_CameraCalibrations st)) 0) as [Hlen|Hlen].
  - apply length_zero_iff_nil in Hlen. rewrite Hlen in Hc.
    assert (Hr : ld_RootNode st = None) by (apply Hnone; auto).
    split; cbn; unfold IsValid; cbn; rewrite ?Hr, ?Hlen, ?Hint.
    + discriminate.
    + split; [discriminate|congruence].
    + congruence.
    + congruence.
  - cbn [m_RootNode with_Loaded].
    destruct (ld_RootNode st) as [root|] eqn:Hr.
    2:{ exfalso. apply Hlen. rewrite Hc.
        now rewrite (proj2 (proj1 Hnone eq_refl)). }
    destruct (BuildLoop _ _ _ _) as [heap outcome].
    split; cbn; unfold IsValid; cbn; rewrite ?Hr, ?Hint.
    + discriminate.
    + split; [|reflexivity]. intros _ E. rewrite E in Hlen. now apply Hlen.
    + intros _. exists dir. auto.
    + congruence.
Qed.

(** [PrepareCalibrationFor] keeps the fields consistent, however it is
    left. *)
Lemma Consistent_PrepareCalibrationFor (Log : Q -> Q) (db : Database)
    (iso shutter aperture : Q) :
  Consistent db ->
  Consistent (fst (PrepareCalibrationFor Log db iso shutter aperture)).
Proof.
  intros C. unfold PrepareCalibrationFor.
  destruct (m_RootNode db) as [root|] eqn:Hroot; [|exact C].
  assert (Hv : IsValid db = true) by (unfold IsValid; now rewrite Hroot).
  assert (H : forall i, Consistent (with_PreparedFor db iso shutter aperture i)).
  { intros i. split; cbn; unfold IsValid; cbn; rewrite ?Hroot.
    - intros Hp. destruct (cons_no_path db C Hp) as (E & _). congruence.
    - split; [intros _|reflexivity]. now apply (cons_valid db C).
    - apply (cons_files db C).
    - reflexivity. }
  destruct (Convert2EV Log iso shutter aperture) as [[EVx EVy] EVz].
  destruct (LocateCell _ iso shutter aperture) as [c| |]; cbn [fst]; try apply H.
  destruct (InterpolateProbes _ _ _) as [Ls outcome]. cbn [fst].
  assert (H' := H (Some Ls)). destruct H' as [H1 H2 H3 H4].
  split; assumption.
Qed.

(** X13.  In every state a database object can reach through the setter and
    [PrepareCalibrationFor]: without a path, the root, the calibrations,
    the error log and the interpolated calibration are those of a new
    object; [IsValid] is true exactly when some calibration is kept; the
    calibrations kept are those of the files with six probes of the
    directory of the path, which exists; and there is an interpolated
    calibration only when [IsValid] is true. *)
Theorem reachable_database_consistent (Log : Q -> Q) (db : Database) :
  Reachable Log db -> Consistent db.
Proof.
  induction 1 as [|db value _ IH|db iso shutter aperture _ IH].
  - exact Consistent_new.
  - now apply Consistent_set_DatabasePath.
  - now apply Consistent_PrepareCalibrationFor.
Qed.

(** Witness: a database loaded with [shot_A], prepared, and then given a
    directory that does not exist. *)
Lemma reachable_database_consistent_witness :
  Consistent
    (fst (set_DatabasePath Log_dyadic
            (fst (PrepareCalibrationFor Log_dyadic
                    (fst (set_DatabasePath Log_dyadic new_CameraCalibrationDatabase
                            (Some (directory [shot_A])))) 100 1 1))
            (Some {| Exists := false; GetFiles := [] |}))).
Proof.
  apply (reachable_database_consistent Log_dyadic).
  apply reach_set, reach_prepare, reach_set, reach_new.
Defined.

(** * [Dictionary<T>] *)

Section DictionaryFacts.
Local Open Scope Z_scope.
Import Dictionary.
Context {T : Type}.
Implicit Types (d : Dictionary T) (k : Z) (v : T) (b : list (Node T)).

Lemma Dictionary_index_wf d k :
  wf d ->
  index d k = Some (Z.to_nat (k mod m_Size d))
  /\ (Z.to_nat (k mod m_Size d) < length (m_ppTable d))%nat.
Proof.
  intros W. destruct (wf_size d W) as [H0 H1]. unfold INT_MAX in H1.
  unfold index, to_U32. rewrite (Z.mod_small (m_Size d)) by lia.
  destruct (Z.eqb_spec (m_Size d) 0) as [E|_]; [lia|]. split; [reflexivity|].
  rewrite (wf_table d W). pose proof (Z.mod_pos_bound k (m_Size d) H0). lia.
Qed.

(** The chain of a key. *)
Lemma Dictionary_chain d k :
  wf d ->
  exists idx b, index d k = Some idx /\ m_ppTable d !! idx = Some b.
Proof.
  intros W. destruct (Dictionary_index_wf d k W) as [Hi Hlt].
  destruct (lookup_lt_is_Some_2 _ _ Hlt) as [b Hb]. eauto.
Qed.

Lemma Dictionary_nodes_insert (table : list (list (Node T))) (idx : nat) b b' :
  table !! idx = Some b ->
  (length (concat (<[idx := b']> table)) + length b
   = length (concat table) + length b')%nat.
Proof.
  intros Hb. pose proof (lookup_lt_Some _ _ _ Hb) as Hlt.
  rewrite insert_take_drop by exact Hlt.
  rewrite <- (take_drop_middle table idx b Hb) at 3.
  rewrite !concat_app, !concat_cons, !length_app. lia.
Qed.

Lemma Dictionary_chain_in_nodes (table : list (list (Node T))) (idx : nat) b
    (n : Node T) :
  table !! idx = Some b -> n ∈ b -> n ∈ concat table.
Proof.
  intros Hb Hn. apply list_elem_of_In, in_concat. exists b.
  split; apply list_elem_of_In; [|exact Hn].
  now apply (list_elem_of_lookup_2 _ idx).
Qed.

Lemma Dictionary_Find_None b k :
  Find b k = None <-> forall n, n ∈ b -> Key n <> k.
Proof.
  induction b as [|n b IH]; cbn [Find].
  - split; [|reflexivity]. intros _ n Hn. inversion Hn.
  - destruct (Z.eqb_spec k (Key n)) as [E|E].
    + split; [discriminate|]. intros H. exfalso. apply (H n); [left|congruence].
    + rewrite IH. split.
      * intros H m Hm. apply elem_of_cons in Hm as [->|Hm]; [congruence|now apply H].
      * intros H m Hm. apply H. now right.
Qed.

Lemma Dictionary_Find_Some b k v :
  Find b k = Some v -> exists n, n ∈ b /\ Key n = k /\ Value n = v.
Proof.
  induction b as [|n b IH]; cbn [Find]; [discriminate|].
  destruct (Z.eqb_spec k (Key n)) as [E|E].
  - intros [= <-]. exists n. split; [left|auto].
  - intros H. destruct (IH H) as (m & Hm & Hk & Hv). exists m. split; [now right|auto].
Qed.

(** [Get] looks the key up in its chain, whatever [m_EntriesCount] is. *)
Lemma Dictionary_Get_chain d k (idx : nat) b :
  wf d -> index d k = Some idx -> m_ppTable d !! idx = Some b ->
  Get d k = Some (Find b k).
Proof.
  intros W Hi Hb. unfold Get. rewrite Hi, Hb.
  destruct (Z.eqb_spec (m_EntriesCount d) 0) as [E|_]; [|reflexivity].
  f_equal. symmetry. apply Dictionary_Find_None. intros n Hn.
  pose proof (Dictionary_chain_in_nodes _ _ _ _ Hb Hn) as Hin.
  pose proof (wf_count d W) as [Hc _]. fold (nodes d) in Hin.
  destruct (nodes d); [inversion Hin|]. cbn [length] in Hc. lia.
Qed.

(** The dictionary [Add] returns. *)
Lemma Dictionary_Add_spec (new_Value : T) d k v (idx : nat) b :
  wf d -> m_EntriesCount d < INT_MAX ->
  index d k = Some idx -> m_ppTable d !! idx = Some b ->
  Add new_Value d k v
  = Some {| m_ppTable := <[idx := {| Key := k; Value := v |} :: b]> (m_ppTable d);
            m_Size := m_Size d;
            m_EntriesCount := m_EntriesCount d + 1 |}.
Proof.
  intros W Hlt Hi Hb. unfold Add, Add_key. rewrite Hi, Hb.
  destruct (Z.eqb_spec (m_EntriesCount d) INT_MAX) as [E|_]; [lia|].
  unfold set_Value. cbn [m_ppTable m_Size m_EntriesCount].
  rewrite list_lookup_insert_eq by (now apply lookup_lt_Some in Hb).
  cbn [Key]. now rewrite list_insert_insert_eq.
Qed.

Lemma Dictionary_wf_insert d (idx : nat) b b' (count : Z) :
  wf d -> m_ppTable d !! idx = Some b ->
  (forall n, n ∈ b' -> index d (Key n) = Some idx) ->
  Z.of_nat (length (nodes d)) + Z.of_nat (length b') - Z.of_nat (length b)
    <= count <= INT_MAX ->
  wf {| m_ppTable := <[idx := b']> (m_ppTable d);
        m_Size := m_Size d;
        m_EntriesCount := count |}.
Proof.
  intros W Hb Hkeys Hcount. split; cbn [m_ppTable m_Size m_EntriesCount].
  - exact (wf_size d W).
  - rewrite length_insert. exact (wf_table d W).
  - intros i pNode n Hp Hn.
    change (index d (Key n) = Some i).
    destruct (decide (i = idx)) as [->|Hne].
    + rewrite list_lookup_insert_eq in Hp by (now apply lookup_lt_Some in Hb).
      injection Hp as <-. now apply Hkeys.
    + rewrite list_lookup_insert_ne in Hp by congruence.
      exact (wf_chain d W i pNode n Hp Hn).
  - unfold nodes. cbn [m_ppTable].
    pose proof (Dictionary_nodes_insert (m_ppTable d) idx b b' Hb) as H.
    unfold nodes in Hcount. lia.
Qed.

(** The loop of [Remove] finds a node exactly when the loop of [Get]
    does; the chain it leaves has one node less and answers the other keys
    as before. *)
Lemma Dictionary_Unlink_None b k : Unlink b k = None <-> Find b k = None.
Proof.
  induction b as [|n b IH]; cbn [Unlink Find]; [tauto|].
  destruct (k =? Key n); [split; discriminate|].
  destruct (Unlink b k); [|tauto]. split; [discriminate|].
  intros H. apply IH in H. discriminate.
Qed.

Lemma Dictionary_Unlink_Some b k (chain : list (Node T)) :
  Unlink b k = Some chain ->
  (length chain + 1 = length b)%nat
  /\ (forall n, n ∈ chain -> n ∈ b)
  /\ forall k', k' <> k -> Find chain k' = Find b k'.
Proof.
  revert chain. induction b as [|n b IH]; intros chain; cbn [Unlink]; [discriminate|].
  destruct (Z.eqb_spec k (Key n)) as [E|E].
  - intros [= <-]. split; [cbn; lia|]. split; [now right|].
    intros k' Hk'. cbn [Find]. destruct (Z.eqb_spec k' (Key n)); [congruence|reflexivity].
  - destruct (Unlink b k) as [rest|]; [|discriminate]. intros [= <-].
    destruct (IH rest eq_refl) as (Hlen & Hin & Hfind). split; [cbn; lia|]. split.
    + intros m Hm. apply elem_of_cons in Hm as [->|Hm]; [left|right; now apply Hin].
    + intros k' Hk'. cbn [Find]. now rewrite (Hfind k' Hk').
Qed.

(** ** The constructor *)

(** X14.  The constructor fails on a negative size.  Otherwise the dictionary is
    empty: [Get] returns [NULL] for every key.  With the size zero, [Add]
    and [Remove] divide by zero; with a positive size, the invariant
    holds. *)
Theorem Dictionary_new_is_empty (new_Value : T) (_Size : Z) :
  (_Size < 0 -> new_Dictionary (T := T) _Size = None)
  /\ (0 <= _Size ->
      exists d, new_Dictionary _Size = Some d
        /\ nodes d = []
        /\ (forall k, Get d k = Some None)
        /\ (_Size = 0 ->
            forall k v, Add new_Value d k v = None /\ Remove d k = None)
        /\ (0 < _Size <= INT_MAX -> wf d)).
Proof.
  unfold new_Dictionary. split.
  - intros H. destruct (Z.ltb_spec _Size 0); [reflexivity|lia].
  - intros H. destruct (Z.ltb_spec _Size 0); [lia|].
    eexists. split; [reflexivity|].
    assert (Hnodes : forall n : nat, concat (replicate n ([] : list (Node T))) = []).
    { induction n as [|n IH]; [reflexivity|exact IH]. }
    split; [apply Hnodes|]. split; [reflexivity|]. split.
    + intros -> k v. unfold Add, Add_key, Remove, index. cbn. auto.
    + intros Hs. split; cbn [m_ppTable m_Size m_EntriesCount].
      * exact Hs.
      * apply length_replicate.
      * intros idx pNode n Hp Hn. apply lookup_replicate in Hp as [-> _].
        inversion Hn.
      * unfold nodes. cbn [m_ppTable]. rewrite Hnodes. cbn. unfold INT_MAX. lia.
Qed.

(** ** [Add] and [Get] *)

(** X15.  On a dictionary that satisfies the invariant and has room for one more
    entry, [Add] returns, keeps the invariant and counts the entry; [Get]
    then returns the value added for the key, also when the key was in the
    dictionary before, and what it returned before for every other key. *)
Theorem Dictionary_Get_after_Add (new_Value : T) d k v :
  wf d -> m_EntriesCount d < INT_MAX ->
  exists d', Add new_Value d k v = Some d'
    /\ wf d'
    /\ m_EntriesCount d' = m_EntriesCount d + 1
    /\ Get d' k = Some (Some v)
    /\ forall k', k' <> k -> Get d' k' = Get d k'.
Proof.
  intros W Hlt. destruct (Dictionary_chain d k W) as (idx & b & Hi & Hb).
  pose proof (lookup_lt_Some _ _ _ Hb) as Hidx.
  rewrite (Dictionary_Add_spec new_Value d k v idx b W Hlt Hi Hb).
  eexists. split; [reflexivity|].
  assert (W' : wf {| m_ppTable := <[idx := {| Key := k; Value := v |} :: b]> (m_ppTable d);
                     m_Size := m_Size d;
                     m_EntriesCount := m_EntriesCount d + 1 |}).
  { apply (Dictionary_wf_insert d idx b); [exact W|exact Hb| |].
    - intros n Hn. apply elem_of_cons in Hn as [->|Hn]; [exact Hi|].
      exact (wf_chain d W idx b n Hb Hn).
    - pose proof (wf_count d W). cbn [length]. lia. }
  split; [exact W'|]. split; [reflexivity|]. split.
  - rewrite (Dictionary_Get_chain _ k idx ({| Key := k; Value := v |} :: b) W' Hi).
    + cbn [Find Key Value]. now rewrite Z.eqb_refl.
    + cbn [m_ppTable]. now apply list_lookup_insert_eq.
  - intros k' Hk'. destruct (Dictionary_chain d k' W) as (idx' & b' & Hi' & Hb').
    rewrite (Dictionary_Get_chain d k' idx' b' W Hi' Hb').
    destruct (decide (idx' = idx)) as [->|Hne].
    + assert (b' = b) as -> by congruence.
      rewrite (Dictionary_Get_chain _ k' idx ({| Key := k; Value := v |} :: b) W' Hi').
      * cbn [Find Key]. destruct (Z.eqb_spec k' k); [contradiction|reflexivity].
      * cbn [m_ppTable]. now apply list_lookup_insert_eq.
    + apply (Dictionary_Get_chain _ k' idx' b' W' Hi').
      cbn [m_ppTable]. rewrite list_lookup_insert_ne by congruence. exact Hb'.
Qed.

(** ** [Remove] *)

(** X16.  [Remove] of the key just added gives back the dictionary as it was
    before [Add]: the table and the count of the entries.  The value the
    key had before [Add], if any, is found again. *)
Theorem Dictionary_Remove_undoes_Add (new_Value : T) d d' k v :
  wf d -> Add new_Value d k v = Some d' -> Remove d' k = Some d.
Proof.
  intros W HA. destruct (Dictionary_chain d k W) as (idx & b & Hi & Hb).
  pose proof (lookup_lt_Some _ _ _ Hb) as Hidx.
  assert (Hlt : m_EntriesCount d < INT_MAX).
  { unfold Add, Add_key in HA. rewrite Hi, Hb in HA.
    destruct (Z.eqb_spec (m_EntriesCount d) INT_MAX); [discriminate|].
    pose proof (wf_count d W). lia. }
  rewrite (Dictionary_Add_spec new_Value d k v idx b W Hlt Hi Hb) in HA.
  injection HA as <-. unfold Remove.
  change (index _ k) with (index d k). rewrite Hi. cbn [m_ppTable m_Size m_EntriesCount].
  rewrite list_lookup_insert_eq by exact Hidx. cbn [Unlink Key].
  rewrite Z.eqb_refl.
  destruct (Z.eqb_spec (m_EntriesCount d + 1) INT_MIN) as [E|_].
  { pose proof (wf_count d W). unfold INT_MIN in E. lia. }
  rewrite list_insert_insert_eq, (list_insert_id _ _ _ Hb).
  replace (m_EntriesCount d + 1 - 1) with (m_EntriesCount d) by lia.
  now destruct d.
Qed.

(** X17.  [Remove] returns and keeps the invariant.  For a key [Get] does not
    find, it changes nothing.  For a key [Get] finds, it removes one node,
    the one [Get] found, and counts one entry less.  [Get] returns for
    every other key what it returned before. *)
Theorem Dictionary_Remove_one_entry d k :
  wf d ->
  exists d', Remove d k = Some d'
    /\ wf d'
    /\ (Get d k = Some None -> d' = d)
    /\ (Get d k <> Some None ->
        m_EntriesCount d' = m_EntriesCount d - 1
        /\ (length (nodes d') + 1 = length (nodes d))%nat)
    /\ forall k', k' <> k -> Get d' k' = Get d k'.
Proof.
  intros W. destruct (Dictionary_chain d k W) as (idx & b & Hi & Hb).
  pose proof (lookup_lt_Some _ _ _ Hb) as Hidx.
  rewrite (Dictionary_Get_chain d k idx b W Hi Hb).
  unfold Remove. rewrite Hi, Hb.
  destruct (Unlink b k) as [chain|] eqn:HU.
  - destruct (Dictionary_Unlink_Some b k chain HU) as (Hlen & Hin & Hfind).
    pose proof (Dictionary_nodes_insert (m_ppTable d) idx b chain Hb) as Hn.
    fold (nodes d) in Hn. pose proof (wf_count d W) as Hc.
    destruct (Z.eqb_spec (m_EntriesCount d) INT_MIN) as [E|_].
    { unfold INT_MIN in E. lia. }
    eexists. split; [reflexivity|].
    assert (W' : wf {| m_ppTable := <[idx := chain]> (m_ppTable d);
                       m_Size := m_Size d;
                       m_EntriesCount := m_EntriesCount d - 1 |}).
    { apply (Dictionary_wf_insert d idx b); [exact W|exact Hb| |lia].
      intros n Hn'. exact (wf_chain d W idx b n Hb (Hin n Hn')). }
    split; [exact W'|]. split.
    { intros [= H]. apply Dictionary_Unlink_None in H. congruence. }
    split.
    { intros _. split; [reflexivity|]. unfold nodes at 1. cbn [m_ppTable]. lia. }
    intros k' Hk'. destruct (Dictionary_chain d k' W) as (idx' & b' & Hi' & Hb').
    rewrite (Dictionary_Get_chain d k' idx' b' W Hi' Hb').
    destruct (decide (idx' = idx)) as [->|Hne].
    + assert (b' = b) as -> by congruence.
      rewrite (Dictionary_Get_chain _ k' idx chain W' Hi').
      * now rewrite (Hfind k' Hk').
      * cbn [m_ppTable]. now apply list_lookup_insert_eq.
    + apply (Dictionary_Get_chain _ k' idx' b' W' Hi').
      cbn [m_ppTable]. rewrite list_lookup_insert_ne by congruence. exact Hb'.
  - exists d. split; [reflexivity|]. split; [exact W|]. split; [reflexivity|].
    split; [|reflexivity].
    intros H. exfalso. apply H. f_equal. now apply Dictionary_Unlink_None.
Qed.

(** ** [Get] looks in one chain only, and misses no key *)

(** X18.  [Get] returns [NULL] exactly when no node of the dictionary has the
    key, and otherwise the value of a node that has it. *)
Theorem Dictionary_Get_misses_no_key d k :
  wf d ->
  (Get d k = Some None <-> forall n, n ∈ nodes d -> Key n <> k)
  /\ forall v, Get d k = Some (Some v) ->
       exists n, n ∈ nodes d /\ Key n = k /\ Value n = v.
Proof.
  intros W. destruct (Dictionary_chain d k W) as (idx & b & Hi & Hb).
  rewrite (Dictionary_Get_chain d k idx b W Hi Hb). split; [split|].
  - intros [= H] n Hn E.
    apply list_elem_of_In, in_concat in Hn as (b' & Hb' & Hn).
    apply list_elem_of_In, list_elem_of_lookup in Hb' as [idx' Hb'].
    apply list_elem_of_In in Hn.
    pose proof (wf_chain d W idx' b' n Hb' Hn) as Hi'. rewrite E, Hi in Hi'.
    injection Hi' as <-. assert (b' = b) as -> by congruence.
    exact (proj1 (Dictionary_Find_None b k) H n Hn E).
  - intros H. f_equal. apply Dictionary_Find_None. intros n Hn.
    apply H. exact (Dictionary_chain_in_nodes _ _ _ _ Hb Hn).
  - intros v [= H]. destruct (Dictionary_Find_Some b k v H) as (n & Hn & Hk & Hv).
    exists n. split; [|auto]. exact (Dictionary_chain_in_nodes _ _ _ _ Hb Hn).
Qed.

(** ** [Clear] *)

(** X19.  [Clear] removes every node and keeps the invariant, and [Get] then
    returns [NULL] for every key; it leaves [m_EntriesCount] as it was, so
    that after [Clear] the count is no longer the number of the nodes when
    it was positive. *)
Theorem Dictionary_Clear_keeps_count d :
  wf d ->
  wf (Clear d)
  /\ nodes (Clear d) = []
  /\ (forall k, Get (Clear d) k = Some None)
  /\ m_EntriesCount (Clear d) = m_EntriesCount d.
Proof.
  intros W.
  assert (Hnodes : forall n : nat, concat (replicate n ([] : list (Node T))) = []).
  { induction n as [|n IH]; [reflexivity|exact IH]. }
  assert (Htable : m_ppTable (Clear d) = replicate (Z.to_nat (m_Size d)) []).
  { unfold Clear. cbn [m_ppTable]. rewrite drop_ge by (rewrite (wf_table d W); lia).
    apply app_nil_r. }
  assert (W' : wf (Clear d)).
  { split.
    - exact (wf_size d W).
    - rewrite Htable. apply length_replicate.
    - intros idx pNode n Hp Hn. rewrite Htable in Hp.
      apply lookup_replicate in Hp as [-> _]. inversion Hn.
    - unfold nodes. rewrite Htable, Hnodes. cbn.
      pose proof (wf_count d W). lia. }
  split; [exact W'|]. split; [unfold nodes; now rewrite Htable, Hnodes|].
  split; [|reflexivity].
  intros k. destruct (Dictionary_chain (Clear d) k W') as (idx & b & Hi & Hb).
  rewrite (Dictionary_Get_chain _ k idx b W' Hi Hb).
  rewrite Htable in Hb. apply lookup_replicate in Hb as [-> _]. reflexivity.
Qed.
End DictionaryFacts.


(** ** The dictionary of the examples *)

Lemma Dictionary_sample_wf : Dictionary.wf Dictionary_sample.
Proof.
  split.
  - cbn. unfold Dictionary.INT_MAX. lia.
  - reflexivity.
  - intros idx pNode n Hp Hn.
    destruct idx as [|[|[|[|idx]]]]; cbn in Hp; try discriminate;
      injection Hp as <-; try (now inversion Hn).
    apply elem_of_cons in Hn as [->|Hn]; [reflexivity|].
    apply list_elem_of_singleton in Hn as ->. reflexivity.
  - cbn. unfold Dictionary.INT_MAX. lia.
Qed.

(** Witness: the key 9, of the chain of 5 and 1, is added. *)
Lemma Dictionary_Get_after_Add_witness :
  exists d', Dictionary.Add 0%Z Dictionary_sample 9 90%Z = Some d'
    /\ Dictionary.Get d' 9 = Some (Some 90%Z)
    /\ Dictionary.Get d' 5 = Dictionary.Get Dictionary_sample 5.
Proof.
  destruct (Dictionary_Get_after_Add 0%Z Dictionary_sample 9 90%Z
              Dictionary_sample_wf ltac:(reflexivity))
    as (d' & HA & _ & _ & HG & Hother).
  exists d'. split; [exact HA|]. split; [exact HG|].
  apply Hother. discriminate.
Defined.

(** Witness: the key 5 is added a second time and removed once. *)
Lemma Dictionary_Remove_undoes_Add_witness :
  exists d', Dictionary.Add 0%Z Dictionary_sample 5 51%Z = Some d'
    /\ Dictionary.Remove d' 5 = Some Dictionary_sample.
Proof.
  eexists. split; [reflexivity|].
  apply (Dictionary_Remove_undoes_Add 0%Z Dictionary_sample _ 5 51%Z
           Dictionary_sample_wf).
  reflexivity.
Defined.

(** Witness: the key 1, the second node of its chain, is removed. *)
Lemma Dictionary_Remove_one_entry_witness :
  exists d', Dictionary.Remove Dictionary_sample 1 = Some d'
    /\ Dictionary.m_EntriesCount d' = 1%Z
    /\ Dictionary.Get d' 5 = Dictionary.Get Dictionary_sample 5.
Proof.
  destruct (Dictionary_Remove_one_entry Dictionary_sample 1 Dictionary_sample_wf)
    as (d' & HR & _ & _ & Hcount & Hother).
  exists d'. split; [exact HR|]. split.
  - apply Hcount. discriminate.
  - apply Hother. discriminate.
Defined.

(** Witness: the key 9 is in no node. *)
Lemma Dictionary_Get_misses_no_key_witness :
  Dictionary.Get Dictionary_sample 9 = Some None
  <-> forall n, n ∈ Dictionary.nodes Dictionary_sample -> Dictionary.Key n <> 9%Z.
Proof.
  exact (proj1 (Dictionary_Get_misses_no_key Dictionary_sample 9
                  Dictionary_sample_wf)).
Defined.

(** Witness: after [Clear] the count is still 2. *)
Lemma Dictionary_Clear_keeps_count_witness :
  Dictionary.nodes (Dictionary.Clear Dictionary_sample) = []
  /\ Dictionary.m_EntriesCount (Dictionary.Clear Dictionary_sample) = 2%Z.
Proof.
  destruct (Dictionary_Clear_keeps_count Dictionary_sample Dictionary_sample_wf)
    as (_ & Hn & _ & Hc).
  split; [exact Hn|exact Hc].
Defined.

(** * [float3], [float4] and [float4x4] *)

Section RendererManagedFacts.
Import RendererManaged.
Import RendererManaged.float4x4.

(** The indices are evaluated, the arithmetic of the components is left. *)
Ltac float4x4_eval :=
  cbv -[Qplus Qmult Qminus Qopp Qdiv Qeq Qinv Qlt_bool Qabs Single_Epsilon].

Ltac float4x4_destruct M :=
  let a00 := fresh M "00" in let a01 := fresh M "01" in
  let a02 := fresh M "02" in let a03 := fresh M "03" in
  let a10 := fresh M "10" in let a11 := fresh M "11" in
  let a12 := fresh M "12" in let a13 := fresh M "13" in
  let a20 := fresh M "20" in let a21 := fresh M "21" in
  let a22 := fresh M "22" in let a23 := fresh M "23" in
  let a30 := fresh M "30" in let a31 := fresh M "31" in
  let a32 := fresh M "32" in let a33 := fresh M "33" in
  destruct M as [[a00 a01 a02 a03] [a10 a11 a12 a13]
                 [a20 a21 a22 a23] [a30 a31 a32 a33]].

Lemma land_3_cases (i : Z) :
  Z.land i 3 = 0%Z \/ Z.land i 3 = 1%Z \/ Z.land i 3 = 2%Z \/ Z.land i 3 = 3%Z.
Proof.
  change 3%Z with (Z.ones 2). rewrite Z.land_ones by lia.
  change (2 ^ 2)%Z with 4%Z.
  pose proof (Z.mod_pos_bound i 4 ltac:(lia)) as H.
  assert (H' : forall m : Z, (0 <= m < 4 -> m = 0 \/ m = 1 \/ m = 2 \/ m = 3)%Z)
    by (intros m; lia).
  now apply H'.
Qed.

(** ** [SetRow] *)

(** X20.  [SetRow] writes the row of the index and every row after it: a row is
    kept only if its index, reduced to its two lowest bits, is below the
    index given.  Rows set in the order 0, 1, 2, 3, as [Inverse] does, are
    each as given; a row set before a row above it is lost. *)
Theorem SetRow_falls_through (M : float4x4) (i j : Z) (v : float4.float4) :
  GetRow (SetRow M i v) j
  = (if (Z.land j 3 <? Z.land i 3)%Z then GetRow M j else v)
  /\ (forall a b c d : float4.float4,
        SetRow (SetRow (SetRow (SetRow M 0 a) 1 b) 2 c) 3 d
        = {| r0 := a; r1 := b; r2 := c; r3 := d |})
  /\ (forall a b : float4.float4,
        SetRow (SetRow M 1 b) 0 a = {| r0 := a; r1 := a; r2 := a; r3 := a |}).
Proof.
  split; [|split; reflexivity].
  unfold GetRow, SetRow.
  destruct (land_3_cases i) as [-> | [-> | [-> | ->]]];
    destruct (land_3_cases j) as [-> | [-> | [-> | ->]]]; reflexivity.
Qed.

(** ** The indexer *)

(** X21.  The component read after a component is written is the value written
    when the two row indices and the two column indices agree on their two
    lowest bits, and the component as it was otherwise. *)
Theorem float4x4_indexer_set_get (M : float4x4) (r c r' c' : Z) (value : Q) :
  get (set M r c value) r' c'
  = if ((Z.land r' 3 =? Z.land r 3) && (Z.land c' 3 =? Z.land c 3))%Z
    then value else get M r' c'.
Proof.
  unfold get, set, GetRow, float4.get, float4.set.
  destruct (land_3_cases r) as [-> | [-> | [-> | ->]]];
    destruct (land_3_cases r') as [-> | [-> | [-> | ->]]];
    destruct (land_3_cases c) as [-> | [-> | [-> | ->]]];
    destruct (land_3_cases c') as [-> | [-> | [-> | ->]]]; reflexivity.
Qed.

(** ** The products *)

(** X22.  The product of matrices is associative and has [Identity] as its
    neutral element; the product of a vector and a matrix is compatible
    with it. *)
Theorem float4x4_product_laws (a b c : float4x4) (v : float4.float4) :
  float4x4_eq (mul (mul a b) c) (mul a (mul b c))
  /\ float4x4_eq (mul a Identity) a
  /\ float4x4_eq (mul Identity a) a
  /\ float4_eq (vmul (vmul v a) b) (vmul v (mul a b))
  /\ float4_eq (vmul v Identity) v.
Proof.
  float4x4_destruct a. float4x4_destruct b. float4x4_destruct c.
  destruct v as [v0 v1 v2 v3].
  float4x4_eval. repeat split; ring.
Qed.

(** X23.  [Determinant] is the determinant: it is multiplicative, and it is 1 on
    [Identity]. *)
Theorem Determinant_multiplicative (a b : float4x4) :
  Determinant (mul a b) == Determinant a * Determinant b
  /\ Determinant Identity == 1.
Proof.
  float4x4_destruct a. float4x4_destruct b.
  float4x4_eval. split; ring.
Qed.

(** X24.  The product of a number and a matrix has four equal rows.  When
    the products of the number and the components of the matrix are at
    most [2^40] in absolute value, its determinant is zero and [Inverse]
    throws on it.  (The components are exact rationals here.  Under the
    bound binary32 agrees on the guard: with four equal rows the two sums
    of three triple products of every cofactor are the same finite number,
    so every cofactor and the determinant are computed as zero.  Without
    the bound the sums may overflow, and the code returns a matrix of
    NaN.) *)
Theorem scalar_product_is_singular (a : Q) (b : float4x4) :
  r1 (smul a b) = r0 (smul a b)
  /\ r2 (smul a b) = r0 (smul a b)
  /\ r3 (smul a b) = r0 (smul a b)
  /\ (scaled_below a b ->
      Determinant (smul a b) == 0 /\ Inverse (smul a b) = None).
Proof.
  assert (Hdet : Determinant (smul a b) == 0).
  { float4x4_destruct b. float4x4_eval. ring. }
  repeat (split; [reflexivity|]). intros _. split; [exact Hdet|].
  unfold Inverse.
  destruct (Qlt_bool_spec (Qabs (Determinant (smul a b))) Single_Epsilon)
    as [Hlt|Hge]; [reflexivity|].
  exfalso. apply Hge. rewrite Hdet. reflexivity.
Qed.

(** ** [Inverse] *)

Lemma integral_inject_Z (k : Z) : integral (inject_Z k).
Proof. now exists k. Qed.

Lemma integral_plus (p q : Q) : integral p -> integral q -> integral (p + q).
Proof.
  intros [i Hi] [j Hj]. exists (i + j)%Z. rewrite inject_Z_plus, Hi, Hj. reflexivity.
Qed.

Lemma integral_mult (p q : Q) : integral p -> integral q -> integral (p * q).
Proof.
  intros [i Hi] [j Hj]. exists (i * j)%Z. rewrite inject_Z_mult, Hi, Hj. reflexivity.
Qed.

Lemma integral_opp (p : Q) : integral p -> integral (- p).
Proof.
  intros [i Hi]. exists (- i)%Z. rewrite inject_Z_opp, Hi. reflexivity.
Qed.

Lemma integral_minus (p q : Q) : integral p -> integral q -> integral (p - q).
Proof. intros Hp Hq. apply integral_plus; [assumption|now apply integral_opp]. Qed.

Lemma small_integer_integral (e : Q) : small_integer e -> integral e.
Proof.
  intros [Hden _]. exists (Qnum e). destruct e as [n d]. cbn in *. now subst d.
Qed.

(** A whole number below [Single::Epsilon] in absolute value is zero. *)
Lemma integral_below_Epsilon (q : Q) :
  integral q -> Qabs q < Single_Epsilon -> q == 0.
Proof.
  intros [k Hk] Hlt. rewrite Hk in Hlt |- *.
  destruct (Z.eq_dec k 0%Z) as [->|Hne]; [reflexivity|exfalso].
  assert (H1 : 1 <= Qabs (inject_Z k)).
  { unfold Qabs, inject_Z, Qle. cbn. lia. }
  assert (H2 : Single_Epsilon < 1) by reflexivity.
  apply (Qlt_irrefl 1). eapply Qle_lt_trans; [exact H1|].
  eapply Qlt_trans; [exact Hlt|exact H2].
Qed.

(** The determinant of a matrix of whole numbers is a whole number. *)
Lemma integral_Determinant (M : float4x4) :
  Forall integral (entries M) -> integral (Determinant M).
Proof.
  float4x4_destruct M. unfold entries. cbn [r0 r1 r2 r3 float4.x float4.y float4.z float4.w].
  intros H. repeat (apply Forall_cons in H as [? H]). clear H.
  float4x4_eval.
  repeat first [ assumption
               | apply integral_plus | apply integral_minus
               | apply integral_mult | apply integral_opp
               | apply (integral_inject_Z 1) ].
Qed.

Lemma small_integers_Determinant (M : float4x4) :
  small_integers M -> Qabs (Determinant M) < Single_Epsilon ->
  Determinant M == 0.
Proof.
  intros Hsmall. apply integral_below_Epsilon, integral_Determinant.
  eapply Forall_impl; [exact Hsmall|]. exact small_integer_integral.
Qed.

(** X25.  On a matrix of integers of absolute value at most 16, when
    [Inverse] returns, the matrix it returns is the inverse, on both
    sides, and it throws exactly when the determinant is zero.  (On such
    a matrix binary32 computes the determinant exactly, so the guard is
    that of the code; the quotient [1 / fDet] and the products with the
    cofactors are exact rationals here, where the code rounds them.) *)
Theorem Inverse_is_inverse (M : float4x4) :
  small_integers M ->
  (Inverse M = None <-> Determinant M == 0)
  /\ forall R, Inverse M = Some R ->
       float4x4_eq (mul M R) Identity /\ float4x4_eq (mul R M) Identity.
Proof.
  intros Hsmall. split.
  - unfold Inverse.
    destruct (Qlt_bool_spec (Qabs (Determinant M)) Single_Epsilon) as [Hlt|Hge].
    + split; [intros _|reflexivity].
      apply (small_integers_Determinant M Hsmall Hlt).
    + split; [discriminate|]. intros E. exfalso. apply Hge. rewrite E. reflexivity.
  - intros R. unfold Inverse.
    destruct (Qlt_bool_spec (Qabs (Determinant M)) Single_Epsilon) as [Hlt|Hge];
      [discriminate|].
    assert (Hdet : ~ Determinant M == 0).
    { intros E. apply Hge. rewrite E. reflexivity. }
    intros [= <-]. revert Hdet. clear Hge Hsmall. float4x4_destruct M.
    float4x4_eval. intros Hdet.
    repeat split; field; intros E; apply Hdet; rewrite <- E; ring.
Qed.
End RendererManagedFacts.

(** Witness: four times the sample matrix. *)
Lemma scalar_product_is_singular_witness :
  RendererManaged.float4x4.Inverse
    (RendererManaged.float4x4.smul 4 float4x4_sample) = None.
Proof.
  apply (proj2 (proj2 (proj2 (scalar_product_is_singular 4 float4x4_sample)))).
  repeat (constructor; [vm_compute; discriminate|]). constructor.
Defined.

(** Witness: a matrix of determinant 2. *)
Lemma Inverse_is_inverse_witness :
  exists R, RendererManaged.float4x4.Inverse float4x4_sample = Some R
    /\ RendererManaged.float4x4_eq
         (RendererManaged.float4x4.mul float4x4_sample R)
         RendererManaged.float4x4.Identity.
Proof.
  eexists. split; [vm_compute; reflexivity|].
  refine (proj1 (proj2 (Inverse_is_inverse float4x4_sample _) _ _)).
  - repeat (constructor; [split; [reflexivity|vm_compute; discriminate]|]).
    constructor.
  - vm_compute; reflexivity.
Defined.

(** ** [float3] *)

(** X26.  The cross product is orthogonal to its two arguments and
    antisymmetric, and its squared length is the product of the squared
    lengths of the arguments minus the square of their dot product. *)
Theorem float3_Cross_orthogonal (a b : RendererManaged.float3.float3) :
  RendererManaged.float3.Dot a (RendererManaged.float3.Cross a b) == 0
  /\ RendererManaged.float3.Dot b (RendererManaged.float3.Cross a b) == 0
  /\ RendererManaged.float3_eq
       (RendererManaged.float3.Cross a b)
       (RendererManaged.float3.neg (RendererManaged.float3.Cross b a))
  /\ RendererManaged.float3.LengthSquared (RendererManaged.float3.Cross a b)
     == RendererManaged.float3.LengthSquared a
        * RendererManaged.float3.LengthSquared b
        - RendererManaged.float3.Dot a b * RendererManaged.float3.Dot a b.
Proof.
  destruct a as [ax ay az], b as [bx by' bz].
  cbv -[Qplus Qmult Qminus Qopp Qeq]. repeat split; ring.
Qed.

(** * [half] *)

Section HalfFacts.
Import half.
Local Open Scope Z_scope.

(** ** Checking a property of every half *)

Lemma all_bits_spec (n : nat) (p : Z -> bool) :
  forall prefix x,
  all_bits n prefix p = true ->
  prefix * 2 ^ Z.of_nat n <= x < (prefix + 1) * 2 ^ Z.of_nat n ->
  p x = true.
Proof.
  induction n as [|n IH]; intros prefix x; cbn [all_bits].
  - intros H Hx. replace x with prefix by (cbn in Hx; lia). exact H.
  - rewrite andb_true_iff. intros [H0 H1] Hx.
    rewrite Nat2Z.inj_succ, Z.pow_succ_r in Hx by lia.
    destruct (Z_lt_le_dec x ((2 * prefix + 1) * 2 ^ Z.of_nat n)) as [Hlt|Hge].
    + apply (IH (2 * prefix)); [exact H0|]. lia.
    + apply (IH (2 * prefix + 1)); [exact H1|]. lia.
Qed.

Lemma all_halves (p : Z -> bool) (raw : Z) :
  all_bits 16 0 p = true -> 0 <= raw < 65536 -> p raw = true.
Proof.
  intros H Hraw. apply (all_bits_spec 16 p 0 raw H). cbn. lia.
Qed.

(** ** The fields *)

(** The three fields the constructor reads from the bits of the float. *)
Lemma float_fields (f32 : Z) :
  0 <= f32 < 2 ^ 32 ->
  Z.land (Z.shiftr f32 16) 0x8000 = (if Z.testbit f32 31 then 32768 else 0)
  /\ Z.land (Z.shiftr f32 23) 0xff = exponent_field f32
  /\ Z.land f32 0x007fffff = fraction_field f32.
Proof.
  intros Hf. split; [|split].
  - assert (Hx : 0 <= Z.shiftr f32 16 < 65536).
    { rewrite Z.shiftr_div_pow2 by lia. Z.div_mod_to_equations. lia. }
    pose proof (all_halves
                  (fun x => Z.land x 0x8000
                            =? if Z.testbit x 15 then 32768 else 0)
                  (Z.shiftr f32 16) ltac:(vm_compute; reflexivity) Hx) as H.
    cbv beta in H. apply Z.eqb_eq in H. rewrite H.
    now rewrite Z.shiftr_spec by lia.
  - unfold exponent_field. rewrite Z.shiftr_div_pow2 by lia.
    change 0xff with (Z.ones 8). now rewrite Z.land_ones by lia.
  - unfold fraction_field. change 0x007fffff with (Z.ones 23).
    now rewrite Z.land_ones by lia.
Qed.

(** The three fields the conversion reads from a half. *)
Lemma half_fields (raw : Z) :
  0 <= raw < 65536 ->
  Z.land raw 0x8000 = 32768 * (raw / 32768)
  /\ Z.land raw 0x7c00 = 1024 * ((raw / 1024) mod 32)
  /\ Z.shiftr (Z.land raw 0x7c00) 10 = (raw / 1024) mod 32
  /\ Z.land raw 0x03ff = raw mod 1024.
Proof.
  intros Hraw.
  pose proof (all_halves
                (fun raw => (Z.land raw 0x8000 =? 32768 * (raw / 32768))
                            && (Z.land raw 0x7c00 =? 1024 * ((raw / 1024) mod 32))
                            && (Z.shiftr (Z.land raw 0x7c00) 10 =? (raw / 1024) mod 32)
                            && (Z.land raw 0x03ff =? raw mod 1024))
                raw ltac:(vm_compute; reflexivity) Hraw) as H.
  cbv beta in H. rewrite !andb_true_iff, !Z.eqb_eq in H. tauto.
Qed.

(** A sign bit, an exponent field and a mantissa field make a half. *)
Lemma half_assemble (s e m : Z) :
  s = 0 \/ s = 32768 -> 0 <= e < 32 -> 0 <= m < 1024 ->
  U16 (Z.lor (Z.lor s (Z.shiftl e 10)) m) = s + e * 1024 + m.
Proof.
  intros Hs He Hm.
  assert (Hx : 0 <= s + e * 1024 + m < 65536) by lia.
  pose proof (all_halves
                (fun x => U16 (Z.lor (Z.lor (32768 * (x / 32768))
                                        (Z.shiftl ((x / 1024) mod 32) 10))
                                 (x mod 1024)) =? x)
                _ ltac:(vm_compute; reflexivity) Hx) as H.
  cbv beta in H. apply Z.eqb_eq in H.
  replace (32768 * ((s + e * 1024 + m) / 32768)) with s in H
    by (Z.div_mod_to_equations; lia).
  replace (((s + e * 1024 + m) / 1024) mod 32) with e in H
    by (Z.div_mod_to_equations; lia).
  replace ((s + e * 1024 + m) mod 1024) with m in H
    by (Z.div_mod_to_equations; lia).
  exact H.
Qed.

(** The same for the two steps of the constructor on a NaN. *)
Lemma half_assemble_NaN (s m : Z) :
  s = 0 \/ s = 32768 -> 0 <= m < 1024 ->
  U16 (Z.lor s F16_MAX_EXPONENT) = s + 31744
  /\ U16 (Z.lor (U16 (Z.lor s F16_MAX_EXPONENT)) m) = s + 31744 + m
  /\ U16 s = s.
Proof.
  intros Hs Hm.
  assert (Hx : 0 <= s + m < 65536) by lia.
  pose proof (all_halves
                (fun x =>
                   let s := 32768 * (x / 32768) in
                   let m := x mod 1024 in
                   (U16 (Z.lor s F16_MAX_EXPONENT) =? s + 31744)
                   && (U16 (Z.lor (U16 (Z.lor s F16_MAX_EXPONENT)) m)
                       =? s + 31744 + m)
                   && (U16 s =? s))
                _ ltac:(vm_compute; reflexivity) Hx) as H.
  cbv beta zeta in H.
  replace (32768 * ((s + m) / 32768)) with s in H
    by (Z.div_mod_to_equations; lia).
  replace ((s + m) mod 1024) with m in H by (Z.div_mod_to_equations; lia).
  rewrite !andb_true_iff, !Z.eqb_eq in H. tauto.
Qed.

(** The half the constructor makes, by the exponent field of the float. *)
Lemma new_half_cases (f32 : Z) :
  0 <= f32 < 2 ^ 32 ->
  new_half f32
  = if exponent_field f32 =? 255
    then sign_of f32 + 31744 + fraction_field f32 mod 1024
    else if exponent_field f32 >? 142 then sign_of f32 + 31744
    else if exponent_field f32 >? 112
    then sign_of f32 + (exponent_field f32 - 112) * 1024 + fraction_field f32 / 8192
    else sign_of f32.
Proof.
  intros Hf. destruct (float_fields f32 Hf) as (Hs & He & Hm).
  unfold new_half. rewrite Hs, He, Hm. fold (sign_of f32).
  assert (HS : sign_of f32 = 0 \/ sign_of f32 = 32768)
    by (unfold sign_of; destruct (Z.testbit f32 31); auto).
  assert (HE : 0 <= exponent_field f32 < 256)
    by (unfold exponent_field; apply Z.mod_pos_bound; lia).
  assert (HM : 0 <= fraction_field f32 < 2 ^ 23)
    by (unfold fraction_field; apply Z.mod_pos_bound; lia).
  assert (HM' : 0 <= fraction_field f32 mod 1024 < 1024)
    by (apply Z.mod_pos_bound; lia).
  destruct (half_assemble_NaN (sign_of f32) (fraction_field f32 mod 1024) HS HM')
    as (H1 & H2 & H3).
  destruct (Z.eqb_spec (exponent_field f32) 255) as [E255|NE255].
  - rewrite E255. cbn [Z.sub Z.eqb Z.pos_sub Pos.eqb Z.succ_double Z.pred_double
                         Pos.pred_double Z.double].
    change (255 - 127 =? 128) with true. cbv iota.
    unfold F16_MANTISSA_BITS. change 0x03ff with (Z.ones 10).
    rewrite Z.land_ones by lia. change (2 ^ 10) with 1024.
    destruct (Z.eqb_spec (fraction_field f32) 0) as [M0|NM0]; cbn [negb].
    + rewrite H1, M0. change (0 mod 1024) with 0. lia.
    + exact H2.
  - destruct (Z.eqb_spec (exponent_field f32 - 127) 128) as [E|_]; [lia|].
    destruct (Z.gtb_spec (exponent_field f32) 142) as [G142|L142].
    + destruct (Z.gtb_spec (exponent_field f32 - 127) 15) as [_|L]; [exact H1|lia].
    + destruct (Z.gtb_spec (exponent_field f32 - 127) 15) as [G|_]; [lia|].
      destruct (Z.gtb_spec (exponent_field f32) 112) as [G112|L112].
      * destruct (Z.gtb_spec (exponent_field f32 - 127) (-15)) as [_|L]; [|lia].
        unfold F16_EXPONENT_BIAS, F16_MANTISSA_SHIFT, F16_EXPONENT_SHIFT.
        change (23 - 10) with 13. rewrite (Z.shiftr_div_pow2 _ 13) by lia.
        change (2 ^ 13) with 8192.
        replace (exponent_field f32 - 127 + 15) with (exponent_field f32 - 112)
          by lia.
        apply half_assemble; [exact HS|lia|].
        change (2 ^ 23) with 8388608 in HM. Z.div_mod_to_equations. lia.
      * destruct (Z.gtb_spec (exponent_field f32 - 127) (-15)) as [G|_]; [lia|].
        exact H3.
Qed.

(** ** The float of a half *)

Lemma inject_Z_pow2_nonzero (k : Z) : 0 <= k -> ~ (inject_Z (2 ^ k) == 0)%Q.
Proof.
  intros Hk. change 0%Q with (inject_Z 0). rewrite inject_Z_injective.
  pose proof (Z.pow_pos_nonneg 2 k ltac:(lia) Hk). lia.
Qed.

(** The float of a half that is neither an infinity nor a NaN: its sign is
    the sign bit, its magnitude [half_scaled] in units of [2^-149]. *)
Lemma to_float_finite (raw : Z) :
  0 <= raw < 65536 -> (raw / 1024) mod 32 <> 31 ->
  exists q : Q,
    to_float raw = finite (negb (raw / 32768 =? 0)) q
    /\ (q == inject_Z (half_scaled raw) / inject_Z (2 ^ 149))%Q.
Proof.
  intros Hraw He.
  destruct (half_fields raw Hraw) as (Hs & _ & Hx & Hm).
  unfold to_float, half_scaled. rewrite Hs, Hx, Hm.
  set (e := (raw / 1024) mod 32) in *. set (m := raw mod 1024).
  assert (He' : 0 <= e < 32) by (apply Z.mod_pos_bound; lia).
  assert (Hm' : 0 <= m < 1024) by (apply Z.mod_pos_bound; lia).
  clearbody e m.
  assert (Hsign : (Z.shiftl (32768 * (raw / 32768)) 15 =? 0) = (raw / 32768 =? 0)).
  { rewrite Z.shiftl_mul_pow2 by lia.
    destruct (Z.eqb_spec (raw / 32768) 0) as [->|N]; [reflexivity|].
    apply Z.eqb_neq. lia. }
  rewrite Hsign.
  assert (Hneg : forall q,
            (if negb (raw / 32768 =? 0) then neg (finite false q)
             else finite false q)
            = finite (negb (raw / 32768 =? 0)) q).
  { intros q. now destruct (raw / 32768 =? 0). }
  destruct (Z.eqb_spec e 0) as [E0|NE0].
  - destruct (Z.eqb_spec m 0) as [M0|NM0]; cbn [negb]; rewrite Hneg;
      eexists; (split; [reflexivity|]).
    + rewrite M0. reflexivity.
    + rewrite Z.shiftl_1_l. change (2 ^ 149) with (2 ^ 24 * 2 ^ 125).
      rewrite !inject_Z_mult. field.
      split; apply inject_Z_pow2_nonzero; lia.
  - destruct (Z.eqb_spec e 31) as [E31|_]; [contradiction|]. rewrite Hneg.
    eexists. split; [reflexivity|]. rewrite !Z.shiftl_1_l.
    destruct (Z.ltb_spec (e - 15) 0) as [Hlt|Hge].
    + replace (2 ^ 149) with (2 ^ 10 * (2 ^ (- (e - 15)) * 2 ^ (e + 124)))
        by (rewrite <- !Z.pow_add_r by lia; f_equal; lia).
      change 1024 with (2 ^ 10).
      rewrite !inject_Z_mult, inject_Z_plus. field.
      repeat split; apply inject_Z_pow2_nonzero; lia.
    + replace (2 ^ (e + 124)) with (2 ^ (e - 15) * 2 ^ 139)
        by (rewrite <- Z.pow_add_r by lia; f_equal; lia).
      change (2 ^ 149) with (2 ^ 10 * 2 ^ 139). change 1024 with (2 ^ 10).
      rewrite !inject_Z_mult, inject_Z_plus. field.
      repeat split; apply inject_Z_pow2_nonzero; lia.
Qed.

(** The float of a half that is an infinity or a NaN is given by its bits,
    from which the constructor makes the same half again. *)
Lemma to_float_special (raw : Z) :
  0 <= raw < 65536 -> (raw / 1024) mod 32 = 31 ->
  exists ui, to_float raw = special ui /\ 0 <= ui < 2 ^ 32 /\ new_half ui = raw.
Proof.
  intros Hraw He.
  pose proof (all_halves
                (fun raw =>
                   if (raw / 1024) mod 32 =? 31 then
                     match to_float raw with
                     | special ui =>
                         (0 <=? ui) && (ui <? 2 ^ 32) && (new_half ui =? raw)
                     | finite _ _ => false
                     end
                   else true)
                raw ltac:(vm_compute; reflexivity) Hraw) as H.
  cbv beta in H. rewrite He in H. cbv iota in H.
  change (31 =? 31) with true in H. cbv iota in H.
  destruct (to_float raw) as [negative magnitude|ui]; [discriminate|].
  rewrite !andb_true_iff, Z.leb_le, Z.ltb_lt, Z.eqb_eq in H.
  exists ui. tauto.
Qed.

Lemma scaled_magnitude_eq (a b : Z) :
  (inject_Z a / inject_Z (2 ^ 149) == inject_Z b / inject_Z (2 ^ 149))%Q -> a = b.
Proof.
  intros H. apply inject_Z_injective.
  assert (Hc : ~ (inject_Z (2 ^ 149) == 0)%Q) by (apply inject_Z_pow2_nonzero; lia).
  assert (Ha : (inject_Z a == inject_Z a / inject_Z (2 ^ 149) * inject_Z (2 ^ 149))%Q)
    by (field; exact Hc).
  rewrite Ha, H. field. exact Hc.
Qed.

(** ** From a half to a float and back *)

(** X27.  The constructor, given the bits of the float that the conversion makes
    of a half, makes the same half again, whether the half is a zero, a
    normal number, an infinity or a NaN; of a denormal half it makes the
    zero of the same sign. *)
Theorem half_round_trip (raw f32 : Z) :
  0 <= raw < 65536 ->
  bits_of (to_float raw) f32 ->
  new_half f32 = if is_denormal raw then Z.land raw 0x8000 else raw.
Proof.
  intros Hraw Hbits.
  destruct (half_fields raw Hraw) as (Hs & Hx0 & _ & Hm).
  unfold is_denormal. rewrite Hx0, Hm, Hs.
  destruct (Z.eq_dec ((raw / 1024) mod 32) 31) as [E31|NE31].
  - destruct (to_float_special raw Hraw E31) as (ui & Hui & _ & Hrt).
    rewrite Hui in Hbits. destruct Hbits as [_ ->]. rewrite Hrt, E31. reflexivity.
  - destruct (to_float_finite raw Hraw NE31) as (q & Hq & Hqs).
    rewrite Hq in Hbits. destruct Hbits as (Hf & Hsign & HE & Hmag).
    rewrite Hqs in Hmag. apply scaled_magnitude_eq in Hmag.
    rewrite (new_half_cases f32 Hf).
    unfold scaled_magnitude, half_scaled in Hmag.
    assert (Hsgn : sign_of f32 = 32768 * (raw / 32768)).
    { unfold sign_of. rewrite Hsign.
      destruct (Z.eqb_spec (raw / 32768) 0) as [->|N]; cbn [negb]; [reflexivity|].
      Z.div_mod_to_equations. lia. }
    rewrite Hsgn.
    assert (Hraw' : raw = 32768 * (raw / 32768) + 1024 * ((raw / 1024) mod 32)
                          + raw mod 1024)
      by (Z.div_mod_to_equations; lia).
    set (s := raw / 32768) in *. set (e := (raw / 1024) mod 32) in *.
    set (m := raw mod 1024) in *.
    assert (He : 0 <= e < 32) by (apply Z.mod_pos_bound; lia).
    assert (Hm' : 0 <= m < 1024) by (apply Z.mod_pos_bound; lia).
    assert (HEb : 0 <= exponent_field f32 < 256)
      by (unfold exponent_field; apply Z.mod_pos_bound; lia).
    assert (HMb : 0 <= fraction_field f32 < 2 ^ 23)
      by (unfold fraction_field; apply Z.mod_pos_bound; lia).
    set (E := exponent_field f32) in *. set (M := fraction_field f32) in *.
    clearbody s e m E M.
    destruct (Z.eqb_spec E 255) as [E255|_]; [contradiction|].
    destruct (Z.eqb_spec e 0) as [E0|NE0].
    + (* a zero or a denormal half: the float is below 2^-14 *)
      assert (HE112 : E <= 112).
      { destruct (Z_le_gt_dec E 112) as [Hle|Hgt]; [exact Hle|]. exfalso.
        destruct (Z.eqb_spec E 0) as [E00|_]; [lia|].
        assert (Hp : 2 ^ 112 <= 2 ^ (E - 1)) by (apply Z.pow_le_mono_r; lia).
        nia. }
      destruct (Z.gtb_spec E 142) as [G|_]; [lia|].
      destruct (Z.gtb_spec E 112) as [G|_]; [lia|].
      rewrite E0. change (1024 * 0 =? 0) with true. cbn [andb].
      destruct (Z.eqb_spec m 0) as [M0|NM0]; cbn [negb]; [|reflexivity]. lia.
    + (* a normal half *)
      replace (1024 * e =? 0) with false by (symmetry; apply Z.eqb_neq; lia).
      cbn [andb].
      destruct (Z.eqb_spec E 0) as [E00|NE00].
      { exfalso. assert (Hp : 2 ^ 125 <= 2 ^ (e + 124)) by (apply Z.pow_le_mono_r; lia).
        nia. }
      assert (HP : 0 < 2 ^ (e + 110)) by (apply Z.pow_pos_nonneg; lia).
      assert (He124 : 2 ^ (e + 124) = 16384 * 2 ^ (e + 110)).
      { replace (e + 124) with (14 + (e + 110)) by lia.
        rewrite Z.pow_add_r by lia. reflexivity. }
      rewrite He124 in Hmag.
      assert (HEe : E = e + 112).
      { destruct (Z_lt_le_dec (E - 1) (e + 111)) as [Hlt|Hge].
        - exfalso.
          assert (Hp : 2 ^ (E - 1) <= 2 ^ (e + 110)) by (apply Z.pow_le_mono_r; lia).
          assert (Hq' : 0 < 2 ^ (E - 1)) by (apply Z.pow_pos_nonneg; lia).
          nia.
        - destruct (Z_lt_le_dec (e + 111) (E - 1)) as [Hlt|Hle]; [|lia].
          exfalso.
          assert (Hp : 2 ^ (e + 112) <= 2 ^ (E - 1)) by (apply Z.pow_le_mono_r; lia).
          replace (e + 112) with (2 + (e + 110)) in Hp by lia.
          rewrite Z.pow_add_r in Hp by lia. change (2 ^ 2) with 4 in Hp.
          nia. }
      assert (HMm : M = m * 8192).
      { replace (E - 1) with (1 + (e + 110)) in Hmag by lia.
        rewrite Z.pow_add_r in Hmag by lia. change (2 ^ 1) with 2 in Hmag.
        nia. }
      destruct (Z.gtb_spec E 142) as [G|_]; [lia|].
      destruct (Z.gtb_spec E 112) as [_|L]; [|lia].
      rewrite HMm, Z.div_mul by lia. lia.
Qed.

(** ** The halves the constructor makes *)

(** The fields of a half made of a sign bit, an exponent field and a
    mantissa field. *)
Lemma half_fields_of (s e m : Z) :
  s = 0 \/ s = 32768 -> 0 <= e < 32 -> 0 <= m < 1024 ->
  let raw := s + e * 1024 + m in
  0 <= raw < 65536
  /\ Z.land raw 0x8000 = s
  /\ raw / 32768 = s / 32768
  /\ (raw / 1024) mod 32 = e
  /\ raw mod 1024 = m
  /\ is_denormal raw = (e =? 0) && negb (m =? 0).
Proof.
  intros Hs He Hm raw.
  assert (Hraw : 0 <= raw < 65536) by (unfold raw; lia).
  destruct (half_fields raw Hraw) as (H1 & H2 & _ & H4).
  assert (H5 : raw / 32768 = s / 32768)
    by (unfold raw; Z.div_mod_to_equations; lia).
  assert (H6 : (raw / 1024) mod 32 = e)
    by (unfold raw; Z.div_mod_to_equations; lia).
  assert (H7 : raw mod 1024 = m) by (unfold raw; Z.div_mod_to_equations; lia).
  split; [exact Hraw|]. split.
  { rewrite H1, H5. Z.div_mod_to_equations. lia. }
  split; [exact H5|]. split; [exact H6|]. split; [exact H7|].
  unfold is_denormal. rewrite H2, H4, H6, H7. f_equal.
  destruct (Z.eqb_spec e 0) as [->|N]; [reflexivity|]. apply Z.eqb_neq. lia.
Qed.

(** X28.  The half the constructor makes is a number of 16 bits with the sign
    bit of the float, and is never a denormal half: a float whose exponent
    field is at most 112, that is a float below [2^-14], becomes the zero
    of its sign, also where a denormal half could hold it; a finite float
    whose exponent field is above 142, that is a float of [2^16] or more,
    becomes the infinity of its sign. *)
Theorem new_half_never_denormal (f32 : Z) :
  0 <= f32 < 2 ^ 32 ->
  0 <= new_half f32 < 65536
  /\ Z.land (new_half f32) 0x8000 = sign_of f32
  /\ is_denormal (new_half f32) = false
  /\ (exponent_field f32 <= 112 -> new_half f32 = sign_of f32)
  /\ (142 < exponent_field f32 < 255 -> new_half f32 = sign_of f32 + 0x7c00).
Proof.
  intros Hf. rewrite (new_half_cases f32 Hf).
  assert (HS : sign_of f32 = 0 \/ sign_of f32 = 32768)
    by (unfold sign_of; destruct (Z.testbit f32 31); auto).
  assert (HE : 0 <= exponent_field f32 < 256)
    by (unfold exponent_field; apply Z.mod_pos_bound; lia).
  assert (HM : 0 <= fraction_field f32 < 8388608)
    by (unfold fraction_field; apply Z.mod_pos_bound; lia).
  set (s := sign_of f32) in *. set (E := exponent_field f32) in *.
  set (M := fraction_field f32) in *. clearbody s E M.
  assert (HM' : 0 <= M mod 1024 < 1024) by (apply Z.mod_pos_bound; lia).
  assert (HM'' : 0 <= M / 8192 < 1024) by (Z.div_mod_to_equations; lia).
  destruct (Z.eqb_spec E 255) as [E255|NE255];
    [|destruct (Z.gtb_spec E 142) as [G142|L142];
      [|destruct (Z.gtb_spec E 112) as [G112|L112]]].
  - destruct (half_fields_of s 31 (M mod 1024) HS ltac:(lia) HM')
      as (H1 & H2 & _ & _ & _ & H6).
    change (31 * 1024) with 31744 in *.
    repeat split; try lia; assumption.
  - destruct (half_fields_of s 31 0 HS ltac:(lia) ltac:(lia))
      as (H1 & H2 & _ & _ & _ & H6).
    change (31 * 1024) with 31744 in *. rewrite Z.add_0_r in *.
    repeat split; try lia; assumption.
  - destruct (half_fields_of s (E - 112) (M / 8192) HS ltac:(lia) HM'')
      as (H1 & H2 & _ & _ & _ & H6).
    replace (E - 112 =? 0) with false in H6 by (symmetry; apply Z.eqb_neq; lia).
    repeat split; try lia; assumption.
  - destruct (half_fields_of s 0 0 HS ltac:(lia) ltac:(lia))
      as (H1 & H2 & _ & _ & _ & H6).
    change (0 * 1024) with 0 in *. rewrite !Z.add_0_r in *.
    repeat split; try lia; assumption.
Qed.

(** X29.  The constructor keeps of the fraction of a NaN its ten lowest bits
    only: a NaN whose fraction has these bits zero becomes an infinity. *)
Theorem new_half_NaN_may_become_infinity (f32 : Z) :
  0 <= f32 < 2 ^ 32 ->
  exponent_field f32 = 255 ->
  new_half f32 = sign_of f32 + 0x7c00 + fraction_field f32 mod 1024
  /\ (Z.land (new_half f32) 0x03ff = 0 <-> fraction_field f32 mod 1024 = 0).
Proof.
  intros Hf HE. rewrite (new_half_cases f32 Hf), HE.
  change (255 =? 255) with true. cbv iota.
  assert (HS : sign_of f32 = 0 \/ sign_of f32 = 32768)
    by (unfold sign_of; destruct (Z.testbit f32 31); auto).
  assert (HM' : 0 <= fraction_field f32 mod 1024 < 1024)
    by (apply Z.mod_pos_bound; lia).
  destruct (half_fields_of (sign_of f32) 31 (fraction_field f32 mod 1024)
              HS ltac:(lia) HM') as (H1 & _ & _ & _ & H5 & _).
  change (31 * 1024) with 31744 in *. split; [reflexivity|].
  destruct (half_fields _ H1) as (_ & _ & _ & H4). rewrite H4, H5. tauto.
Qed.

(** ** From a float to a half and back *)

Lemma Qdiv_le_inject_Z (a b c : Z) :
  0 < c -> a <= b -> (inject_Z a / inject_Z c <= inject_Z b / inject_Z c)%Q.
Proof.
  intros Hc Hab. apply Qmult_le_compat_r; [now rewrite <- Zle_Qle|].
  apply Qinv_le_0_compat. change 0%Q with (inject_Z 0). rewrite <- Zle_Qle. lia.
Qed.

(** X30.  A float in the range of the normal halves is truncated: the float of
    the half has the sign of the float, its magnitude is at most the
    magnitude of the float and is less than one part in 1024 below it; it
    is the magnitude of the float exactly when the thirteen lowest bits of
    the fraction are zero. *)
Theorem new_half_truncates (f32 : Z) :
  0 <= f32 < 2 ^ 32 ->
  112 < exponent_field f32 <= 142 ->
  exists q : Q,
    to_float (new_half f32) = finite (Z.testbit f32 31) q
    /\ (q <= magnitude_of_bits f32)%Q
    /\ (magnitude_of_bits f32 < q + q / 1024)%Q
    /\ ((q == magnitude_of_bits f32)%Q <-> fraction_field f32 mod 8192 = 0).
Proof.
  intros Hf HE. rewrite (new_half_cases f32 Hf).
  destruct (Z.eqb_spec (exponent_field f32) 255) as [E255|_]; [lia|].
  destruct (Z.gtb_spec (exponent_field f32) 142) as [G|_]; [lia|].
  destruct (Z.gtb_spec (exponent_field f32) 112) as [_|L]; [|lia].
  assert (HS : sign_of f32 = 0 \/ sign_of f32 = 32768)
    by (unfold sign_of; destruct (Z.testbit f32 31); auto).
  assert (HM : 0 <= fraction_field f32 < 8388608)
    by (unfold fraction_field; apply Z.mod_pos_bound; lia).
  assert (HM'' : 0 <= fraction_field f32 / 8192 < 1024)
    by (Z.div_mod_to_equations; lia).
  destruct (half_fields_of (sign_of f32) (exponent_field f32 - 112)
              (fraction_field f32 / 8192) HS ltac:(lia) HM'')
    as (Hraw & _ & H3 & H4 & H5 & _).
  destruct (to_float_finite _ Hraw ltac:(rewrite H4; lia)) as (q & Hq & Hqs).
  exists q. split.
  { rewrite Hq, H3. f_equal. unfold sign_of.
    destruct (Z.testbit f32 31); reflexivity. }
  unfold half_scaled in Hqs. rewrite H4, H5 in Hqs.
  replace (exponent_field f32 - 112 =? 0) with false in Hqs
    by (symmetry; apply Z.eqb_neq; lia).
  unfold magnitude_of_bits, scaled_magnitude.
  replace (exponent_field f32 =? 0) with false
    by (symmetry; apply Z.eqb_neq; lia).
  set (E := exponent_field f32) in *. set (M := fraction_field f32) in *.
  clearbody E M.
  assert (HP : 0 < 2 ^ (E - 1)) by (apply Z.pow_pos_nonneg; lia).
  assert (HPe : 2 ^ (E - 112 + 124) = 8192 * 2 ^ (E - 1)).
  { replace (E - 112 + 124) with (13 + (E - 1)) by lia.
    rewrite Z.pow_add_r by lia. reflexivity. }
  rewrite HPe in Hqs. set (P := 2 ^ (E - 1)) in *. clearbody P.
  set (a := (1024 + M / 8192) * (8192 * P)) in *.
  set (b := (2 ^ 23 + M) * P).
  assert (Hab : a <= b) by (unfold a, b; Z.div_mod_to_equations; nia).
  assert (Hba : 1024 * b < 1025 * a) by (unfold a, b; Z.div_mod_to_equations; nia).
  assert (Heq : a = b <-> M mod 8192 = 0)
    by (unfold a, b; Z.div_mod_to_equations; nia).
  clearbody a b.
  assert (Hc : 0 < 2 ^ 149) by (apply Z.pow_pos_nonneg; lia).
  assert (Hc' : ~ (inject_Z (2 ^ 149) == 0)%Q) by (apply inject_Z_pow2_nonzero; lia).
  split; [|split].
  - rewrite Hqs. now apply Qdiv_le_inject_Z.
  - rewrite Hqs. apply Qlt_minus_iff.
    assert (Hpos : (0 < inject_Z (1025 * a - 1024 * b) / inject_Z (2 ^ 149) / 1024)%Q).
    { apply Qlt_shift_div_l; [reflexivity|]. apply Qlt_shift_div_l.
      - change 0%Q with (inject_Z 0). rewrite <- Zlt_Qlt. exact Hc.
      - rewrite !Qmult_0_l. change 0%Q with (inject_Z 0). rewrite <- Zlt_Qlt. lia. }
    eapply Qlt_le_trans; [exact Hpos|]. apply Qle_lteq. right.
    unfold Z.sub. rewrite inject_Z_plus, inject_Z_opp, !inject_Z_mult.
    field. exact Hc'.
  - rewrite Hqs, <- Heq. split.
    + apply scaled_magnitude_eq.
    + intros ->. reflexivity.
Qed.
End HalfFacts.

(** Witness: the half [0x3C00] and the float [0x3F800000], which are 1. *)
Lemma half_round_trip_witness : half.new_half 0x3F800000 = 0x3C00%Z.
Proof.
  apply (half_round_trip 0x3C00 0x3F800000); [lia|].
  split; [lia|]. vm_compute. repeat split; discriminate.
Defined.

(** Witness: the float [0x33800000], which is [2^-24], the smallest
    denormal half, becomes the zero. *)
Lemma new_half_never_denormal_witness : half.new_half 0x33800000 = 0%Z.
Proof.
  destruct (new_half_never_denormal 0x33800000 ltac:(lia)) as (_ & _ & _ & H & _).
  apply H. vm_compute. discriminate.
Defined.

(** Witness: the quiet NaN [0x7FC00000] becomes the half [0x7C00], the
    positive infinity. *)
Lemma new_half_NaN_may_become_infinity_witness :
  half.new_half 0x7FC00000 = 0x7C00%Z.
Proof.
  exact (proj1 (new_half_NaN_may_become_infinity 0x7FC00000 ltac:(lia)
                  ltac:(reflexivity))).
Defined.

(** Witness: the float [0x3F801234], a little above 1. *)
Lemma new_half_truncates_witness :
  exists q : Q,
    half.to_float (half.new_half 0x3F801234) = half.finite false q
    /\ (q <= half.magnitude_of_bits 0x3F801234)%Q.
Proof.
  destruct (new_half_truncates 0x3F801234 ltac:(lia)
              ltac:(vm_compute; split; [reflexivity|discriminate]))
    as (q & Hq & Hle & _).
  exists q. split; [exact Hq|exact Hle].
Defined.
